(** * Boids flocking kernels (src/kernel.cu): a shallow embedding

    The CUDA kernels of [src/kernel.cu] are embedded as functions over
    arrays.  Every kernel is written once, generically over the scalar
    type that plays the role of [float]; two scalar instances are given:

    - [binary32]: IEEE-754 single precision (round to nearest even), built
      on the standard library's [SpecFloat]; it computes, and is used to
      run the kernels on concrete inputs;
    - [R]: exact real arithmetic, the idealisation against which the
      geometric statements are proved.

    [int] values are modelled by [Z].  Signed overflow is undefined in the
    source and is not modelled: all integer quantities of the simulation
    (indices below [N], cell coordinates below 22, cell ids below 22^3)
    are far from the 32-bit limits.  [unsigned] counters wrap modulo 2^32
    as in the source. *)

From Stdlib Require Import ZArith Reals Lra Lia List Permutation Sorted.
From Stdlib Require Import SpecFloat String.
From stdpp Require Import base tactics option list.

Local Open Scope Z_scope.

(** ** Outcomes of device code

    A kernel thread either completes, trips an [assert], or touches an
    array outside its bounds (undefined behaviour in the source). *)

Inductive fault : Type :=
| AssertionFailed
| OutOfBounds.

Inductive outcome (A : Type) : Type :=
| Done (a : A)
| Fault (f : fault).

Arguments Done {A} a.
Arguments Fault {A} f.

#[global] Instance outcome_ret : MRet outcome := fun A a => Done a.

#[global] Instance outcome_bind : MBind outcome := fun A B k m =>
  match m with
  | Done a => k a
  | Fault f => Fault f
  end.

Definition assert (b : bool) : outcome unit :=
  if b then Done tt else Fault AssertionFailed.

(** Array accesses with an [int] index. *)
Definition aread {A : Type} (arr : list A) (i : Z) : outcome A :=
  if i <? 0 then Fault OutOfBounds
  else match arr !! Z.to_nat i with
       | Some a => Done a
       | None => Fault OutOfBounds
       end.

Definition awrite {A : Type} (arr : list A) (i : Z) (a : A) : outcome (list A) :=
  if i <? 0 then Fault OutOfBounds
  else if i <? Z.of_nat (length arr) then Done (<[Z.to_nat i := a]> arr)
  else Fault OutOfBounds.

(** [for (j = lo; j < hi; ++j)]: the values taken by [j]. *)
Definition zrange (lo hi : Z) : list Z :=
  map (fun k => lo + Z.of_nat k) (seq 0 (Z.to_nat (hi - lo))).

(** Sequential composition of a loop body over the values of its counter. *)
Fixpoint ofold {A S : Type} (body : A -> S -> outcome S) (l : list A) (s : S)
  : outcome S :=
  match l with
  | [] => Done s
  | a :: l' => s' ← body a s; ofold body l' s'
  end.

(** ** Kernel launches

    [kern KERN_PARAM(blocks, blockSize) (...)] starts [blocks * blockSize]
    threads; thread [index] runs the kernel body.  Threads of one launch
    are independent; [launch_sched] runs them in the order of a schedule
    and [launch] in increasing index order. *)

Definition blockSize : Z := 128.

Definition fullBlocks (n : Z) : Z := (n + blockSize - 1) ÷ blockSize.

Definition launch_sched {S : Type} (sched : list Z)
    (kern : Z -> S -> outcome S) (s : S) : outcome S :=
  ofold kern sched s.

Definition threads (blocks : Z) : list Z := zrange 0 (blocks * blockSize).

Definition launch {S : Type} (blocks : Z) (kern : Z -> S -> outcome S) (s : S)
  : outcome S :=
  launch_sched (threads blocks) kern s.

(** ** Integer kernels of the uniform grid *)

(** [kernResetIntBuffer]: thread [index] stores [value] in its slot. *)
Definition kernResetIntBuffer (N : Z) (value : Z) (index : Z)
    (intBuffer : list Z) : outcome (list Z) :=
  if index <? N then awrite intBuffer index value else mret intBuffer.

(** [kernIdentifyCellStartEnd]: thread [index] compares its cell id with
    the ones before and after it in the sorted array; the state is the
    pair of tables [(gridCellStartIndices, gridCellEndIndices)]. *)
Definition kernIdentifyCellStartEnd (N : Z) (particleGridIndices : list Z)
    (index : Z) (tables : list Z * list Z) : outcome (list Z * list Z) :=
  let '(gridCellStartIndices, gridCellEndIndices) := tables in
  if index >=? N then mret tables
  else
    first ← (if index =? 0 then mret true
             else prev ← aread particleGridIndices (index - 1);
                  cur ← aread particleGridIndices index;
                  mret (negb (prev =? cur)));
    gridCellStartIndices ←
      (if first : bool
       then cur ← aread particleGridIndices index;
            awrite gridCellStartIndices cur index
       else mret gridCellStartIndices);
    last ← (if index =? N - 1 then mret true
            else next ← aread particleGridIndices (index + 1);
                 cur ← aread particleGridIndices index;
                 mret (negb (next =? cur)));
    gridCellEndIndices ←
      (if last : bool
       then cur ← aread particleGridIndices index;
            awrite gridCellEndIndices cur (index + 1)
       else mret gridCellEndIndices);
    mret (gridCellStartIndices, gridCellEndIndices).

(** The three launches that build the cell range table, as in
    [stepSimulationScatteredGrid] and in [unitTest]: both tables are
    reset to [-1], then the boundaries are identified.  The schedules of
    the three launches are parameters. *)
Definition buildCellRanges_sched (s1 s2 s3 : list Z) (gridCellCount N : Z)
    (particleGridIndices : list Z) (tables : list Z * list Z)
  : outcome (list Z * list Z) :=
  let '(gridCellStartIndices, gridCellEndIndices) := tables in
  gridCellStartIndices ←
    launch_sched s1 (kernResetIntBuffer gridCellCount (-1)) gridCellStartIndices;
  gridCellEndIndices ←
    launch_sched s2 (kernResetIntBuffer gridCellCount (-1)) gridCellEndIndices;
  launch_sched s3 (kernIdentifyCellStartEnd N particleGridIndices)
    (gridCellStartIndices, gridCellEndIndices).

Definition buildCellRanges (gridCellCount N : Z)
    (particleGridIndices : list Z) (tables : list Z * list Z)
  : outcome (list Z * list Z) :=
  buildCellRanges_sched (threads (fullBlocks gridCellCount))
    (threads (fullBlocks gridCellCount)) (threads (fullBlocks N))
    gridCellCount N particleGridIndices tables.

(** ** Coherent layout kernels

    The two kernels move positions and velocities together; the state of
    [kernFillCoherentArrays] is [(coherentPos, coherentVel)] and that of
    [kernFillOriginalArrays] is [(pos, vel)]. *)
Definition kernFillCoherentArrays {V : Type} (N : Z)
    (particleArrayIndices : list Z) (pos vel : list V)
    (index : Z) (out : list V * list V) : outcome (list V * list V) :=
  let '(coherentPos, coherentVel) := out in
  if index >=? N then mret out
  else
    i ← aread particleArrayIndices index;
    p ← aread pos i;
    coherentPos ← awrite coherentPos index p;
    i ← aread particleArrayIndices index;
    v ← aread vel i;
    coherentVel ← awrite coherentVel index v;
    mret (coherentPos, coherentVel).

Definition kernFillOriginalArrays {V : Type} (N : Z)
    (particleArrayIndices : list Z) (coherentPos coherentVel : list V)
    (index : Z) (out : list V * list V) : outcome (list V * list V) :=
  let '(pos, vel) := out in
  if index >=? N then mret out
  else
    i ← aread particleArrayIndices index;
    p ← aread coherentPos index;
    pos ← awrite pos i p;
    i ← aread particleArrayIndices index;
    v ← aread coherentVel index;
    vel ← awrite vel i v;
    mret (pos, vel).

(** ** The CUDA runtime

    The CUDA runtime is modelled by its state as seen by kernel.cu: the
    device allocations that are live, the error that [cudaGetLastError]
    would return, and what was written to [stderr]. *)

Record allocation : Type := Allocation {
  alloc_name : string;      (* the pointer that receives the buffer *)
  alloc_bytes : Z;          (* the size passed to [cudaMalloc] *)
}.

Inductive output : Type :=
| OutLine (line : Z)                  (* "Line %d: " *)
| OutCudaError (msg err : string).    (* "Cuda error: %s: %s.\n" *)

Record runtime : Type := Runtime {
  live : list allocation;
  lastError : option string;          (* [None] is [cudaSuccess] *)
  stderr : list output;
}.

(** A host computation returns or calls [exit]. *)
Inductive host_result (A : Type) : Type :=
| Returned (a : A)
| Exited (code : Z).

Arguments Returned {A} a.
Arguments Exited {A} code.

Definition host (A : Type) : Type := runtime -> runtime * host_result A.

#[global] Instance host_ret : MRet host := fun A a rt => (rt, Returned a).

#[global] Instance host_bind : MBind host := fun A B k m rt =>
  match m rt with
  | (rt', Returned a) => k a rt'
  | (rt', Exited c) => (rt', Exited c)
  end.

Definition EXIT_FAILURE : Z := 1.

(** [cudaMalloc((void** )&name, bytes)]; [ok] tells whether the runtime
    grants the request.  On failure the error is recorded and returned. *)
Definition cudaMalloc (ok : bool) (name : string) (bytes : Z) : host bool :=
  fun rt =>
    if ok
    then (Runtime (live rt ++ [Allocation name bytes]) (lastError rt) (stderr rt),
          Returned true)
    else (Runtime (live rt) (Some "out of memory"%string) (stderr rt),
          Returned false).

(** [checkCUDAError]: [cudaGetLastError] returns the recorded error and
    resets it. *)
Definition checkCUDAError (msg : string) (line : Z) : host unit :=
  fun rt =>
    match lastError rt with
    | None => (rt, Returned tt)
    | Some err =>
        let out :=
          (if line >=? 0 then [OutLine line] else []) ++ [OutCudaError msg err] in
        (Runtime (live rt) None (stderr rt ++ out), Exited EXIT_FAILURE)
    end.

(** The macro [ALLOC(name, size)] used at source line [line]. *)
Definition ALLOC (ok : bool) (name : string) (size elt : Z) (line : Z)
  : host unit :=
  success ← cudaMalloc ok name (size * elt);
  if success : bool then mret tt
  else checkCUDAError ("cudaMalloc" ++ name ++ "failed!")%string line.

Definition sizeof_vec3 : Z := 12.
Definition sizeof_int : Z := 4.

(** ** Scalars and vectors

    [Scalar F] lists the operations the kernels perform on [float]s. *)

Class Scalar (F : Type) : Type := {
  fof_Z : Z -> F;             (* conversion from [int] / [unsigned] *)
  fadd : F -> F -> F;
  fsub : F -> F -> F;
  fmul : F -> F -> F;
  fdiv : F -> F -> F;
  fopp : F -> F;
  fsqrt : F -> F;
  ffloor : F -> F;            (* [std::floor] *)
  ftrunc : F -> Z;            (* conversion to [int] (toward zero) *)
  fltb : F -> F -> bool;      (* [a < b] *)
  fleb : F -> F -> bool;      (* [a <= b] *)
}.

(** [glm::vec3] and [glm::i32vec3]. *)
Record vec3 (A : Type) : Type := Vec3 { vx : A; vy : A; vz : A }.

Arguments Vec3 {A} vx vy vz.
Arguments vx {A} v.
Arguments vy {A} v.
Arguments vz {A} v.

Definition vmap {A B : Type} (f : A -> B) (v : vec3 A) : vec3 B :=
  Vec3 (f (vx v)) (f (vy v)) (f (vz v)).

Definition vzip {A B C : Type} (f : A -> B -> C) (u : vec3 A) (v : vec3 B)
  : vec3 C :=
  Vec3 (f (vx u) (vx v)) (f (vy u) (vy v)) (f (vz u) (vz v)).

Definition ivadd (u v : vec3 Z) : vec3 Z := vzip Z.add u v.

Section Kernels.

Context {F : Type} `{Scalar F}.

(** A decimal literal [n/d] of the source, rounded once by the division. *)
Definition lit (n d : Z) : F := fdiv (fof_Z n) (fof_Z d).

(** *** Configuration (the [#define]s of kernel.cu) *)
Definition rule1Distance : F := fof_Z 5.
Definition rule2Distance : F := fof_Z 3.
Definition rule3Distance : F := fof_Z 5.

Definition rule1Scale : F := lit 1 100.
Definition rule2Scale : F := lit 1 10.
Definition rule3Scale : F := lit 1 10.

Definition maxSpeed : F := fof_Z 2.
Definition scene_scale : F := fof_Z 100.
Definition cell_width_mul : F := fof_Z 2.

(** *** Vector arithmetic of glm *)
Definition vzero : vec3 F := Vec3 (fof_Z 0) (fof_Z 0) (fof_Z 0).
Definition vadd (u v : vec3 F) : vec3 F := vzip fadd u v.
Definition vsub (u v : vec3 F) : vec3 F := vzip fsub u v.
Definition vscale (v : vec3 F) (s : F) : vec3 F := vmap (fun c => fmul c s) v.
Definition vdivs (v : vec3 F) (s : F) : vec3 F := vmap (fun c => fdiv c s) v.

(** Conversions between [glm::vec3] and [glm::i32vec3]. *)
Definition vec_of_ivec (v : vec3 Z) : vec3 F := vmap fof_Z v.
Definition ivec_of_vec (v : vec3 F) : vec3 Z := vmap ftrunc v.

(** [glm::dot], [glm::length] and [glm::distance]:
    [distance(p0, p1) = length(p1 - p0)]. *)
Definition vdot (u v : vec3 F) : F :=
  fadd (fadd (fmul (vx u) (vx v)) (fmul (vy u) (vy v))) (fmul (vz u) (vz v)).
Definition vlength (v : vec3 F) : F := fsqrt (vdot v v).
Definition vdistance (p0 p1 : vec3 F) : F := vlength (vsub p1 p0).

(** [std::max]. *)
Definition fmax (a b : F) : F := if fltb a b then b else a.

(** *** The three rules

    The accumulators of the rule loops: [perceived_center],
    [perceived_velocity], [rule2offset] and the two [unsigned] counters
    [neighbor_cnts]. *)
Record accum : Type := Accum {
  perceived_center : vec3 F;
  perceived_velocity : vec3 F;
  rule2offset : vec3 F;
  neighbor_cnts0 : Z;
  neighbor_cnts1 : Z;
}.

Definition accum0 : accum := Accum vzero vzero vzero 0 0.

(** [++c] on an [unsigned]. *)
Definition uincr (c : Z) : Z := (c + 1) mod 2 ^ 32.

(** The body of the rule loops for a candidate [i] of boid [iSelf]; the
    same statements appear in [computeVelocityChange] (lines 277-290),
    in [kernUpdateVelNeighborSearchScattered] (lines 493-505) and in
    [kernUpdateVelNeighborSearchCoherent] (lines 583-595). *)
Definition accumulateNeighbor (pos vel : list (vec3 F)) (iSelf i : Z)
    (a : accum) : outcome accum :=
  if i =? iSelf then mret a
  else
    pi ← aread pos i;
    pself ← aread pos iSelf;
    let dist := vdistance pi pself in
    let a1 :=
      if fltb dist rule1Distance
      then Accum (vadd (perceived_center a) pi) (perceived_velocity a)
             (rule2offset a) (uincr (neighbor_cnts0 a)) (neighbor_cnts1 a)
      else a in
    let a2 :=
      if fltb dist rule2Distance
      then Accum (perceived_center a1) (perceived_velocity a1)
             (vsub (rule2offset a1) (vsub pi pself))
             (neighbor_cnts0 a1) (neighbor_cnts1 a1)
      else a1 in
    if fltb dist rule3Distance
    then vi ← aread vel i;
         mret (Accum (perceived_center a2) (vadd (perceived_velocity a2) vi)
                 (rule2offset a2) (neighbor_cnts0 a2) (uincr (neighbor_cnts1 a2)))
    else mret a2.

(** The statements after the loops (lines 292-302, 514-522, 604-612):
    the averages are taken and the three rules are scaled. *)
Definition scaleRules (pself : vec3 F) (a : accum) : vec3 F * vec3 F * vec3 F :=
  let pc :=
    if neighbor_cnts0 a =? 0 then perceived_center a
    else vscale (vsub (vdivs (perceived_center a) (fof_Z (neighbor_cnts0 a)))
                   pself) rule1Scale in
  let pv :=
    if neighbor_cnts1 a =? 0 then perceived_velocity a
    else vscale (vdivs (perceived_velocity a) (fof_Z (neighbor_cnts1 a)))
           rule3Scale in
  (pc, vscale (rule2offset a) rule2Scale, pv).

(** [computeVelocityChange]. *)
Definition computeVelocityChange (N iSelf : Z) (pos vel : list (vec3 F))
  : outcome (vec3 F) :=
  a ← ofold (accumulateNeighbor pos vel iSelf) (zrange 0 N) accum0;
  pself ← (if neighbor_cnts0 a =? 0 then mret vzero else aread pos iSelf);
  let '(pc, r2, pv) := scaleRules pself a in
  mret (vadd (vadd pc r2) pv).

(** The speed clamp (lines 322-325, 526-529, 616-619). *)
Definition clampSpeed (velocity : vec3 F) : vec3 F :=
  let speed := vlength velocity in
  if fltb maxSpeed speed then vscale (vdivs velocity speed) maxSpeed
  else velocity.

(** [kernUpdateVelocityBruteForce]; the state is [vel2]. *)
Definition kernUpdateVelocityBruteForce (N : Z) (pos vel1 : list (vec3 F))
    (index : Z) (vel2 : list (vec3 F)) : outcome (list (vec3 F)) :=
  if index >=? N then mret vel2
  else
    v ← aread vel1 index;
    dv ← computeVelocityChange N index pos vel1;
    awrite vel2 index (clampSpeed (vadd v dv)).

(** [kernUpdatePos]; the state is [pos]. *)
Definition wrapLow (c : F) : F :=
  if fltb c (fopp scene_scale) then scene_scale else c.
Definition wrapHigh (c : F) : F :=
  if fltb scene_scale c then fopp scene_scale else c.

Definition kernUpdatePos (N : Z) (dt : F) (vel : list (vec3 F))
    (index : Z) (pos : list (vec3 F)) : outcome (list (vec3 F)) :=
  if index >=? N then mret pos
  else
    thisPos ← aread pos index;
    v ← aread vel index;
    let thisPos := vadd thisPos (vscale v dt) in
    let thisPos := vmap wrapLow thisPos in
    let thisPos := vmap wrapHigh thisPos in
    awrite pos index thisPos.

(** *** Uniform grid *)

Definition gridIndex3Dto1D (x y z gridResolution : Z) : Z :=
  x + y * gridResolution + z * gridResolution * gridResolution.

(** [getGridIndex]: the cell of a position.  The result is stored in the
    [glm::vec3] [rel_pos] and converted back on return. *)
Definition getGridIndex (position : vec3 F) (inverseCellWidth : F)
    (gridMin : vec3 F) : outcome (vec3 Z) :=
  let rel_pos := vsub position gridMin in
  let rel_pos := vscale rel_pos inverseCellWidth in
  _ ← assert (fleb (fof_Z 0) (vx rel_pos) && fleb (fof_Z 0) (vy rel_pos)
              && fleb (fof_Z 0) (vz rel_pos));
  let x := ftrunc (ffloor (vx rel_pos)) in
  let y := ftrunc (ffloor (vy rel_pos)) in
  let z := ftrunc (ffloor (vz rel_pos)) in
  let rel_pos := vec_of_ivec (Vec3 x y z) in
  mret (ivec_of_vec rel_pos).

(** [kernComputeIndices]; the state is [(indices, gridIndices)]. *)
Definition kernComputeIndices (N gridResolution : Z) (gridMin : vec3 F)
    (inverseCellWidth : F) (pos : list (vec3 F))
    (index : Z) (out : list Z * list Z) : outcome (list Z * list Z) :=
  let '(indices, gridIndices) := out in
  if index >=? N then mret out
  else
    p ← aread pos index;
    grid_pos ← getGridIndex p inverseCellWidth gridMin;
    indices ← awrite indices index index;
    gridIndices ← awrite gridIndices index
      (gridIndex3Dto1D (vx grid_pos) (vy grid_pos) (vz grid_pos) gridResolution);
    g ← aread gridIndices index;
    _ ← assert ((g >=? 0)
                && (g <? gridResolution * gridResolution * gridResolution));
    mret (indices, gridIndices).

(** [genNeighborCells]: the eight cells of the [IMPL_8] search, in the
    order they are written to [out_positions]. *)
Definition genNeighborCells (boid_pos : vec3 F) (grid_pos : vec3 Z)
    (gridMin : vec3 F) (cellWidth : F) : list (vec3 Z) :=
  let grid_center := vec_of_ivec grid_pos in
  let grid_center := vscale grid_center cellWidth in
  let boid_pos := vsub boid_pos gridMin in
  let deltas (b c : F) : list Z := [0; if fltb c b then 1 else -1] in
  let deltas0 := deltas (vx boid_pos) (vx grid_center) in
  let deltas1 := deltas (vy boid_pos) (vy grid_center) in
  let deltas2 := deltas (vz boid_pos) (vz grid_center) in
  z ← deltas2; y ← deltas1; x ← deltas0;
  [ivadd grid_pos (Vec3 x y z)].

(** The cells of the 27-cell search, in the order of its three loops. *)
Definition neighborCells27 (grid_pos : vec3 Z) : list (vec3 Z) :=
  dx ← [-1; 0; 1]; dy ← [-1; 0; 1]; dz ← [-1; 0; 1];
  [ivadd grid_pos (Vec3 dx dy dz)].

(** The part of the two neighbor-search kernels between [getGridIndex]
    and the averages: the loop over the candidate cells, the test on the
    flattened cell id, the reads of the range table and the loop over
    the range.  [candidate j] is the boid met at slot [j] of the range:
    [particleArrayIndices[j]] for the scattered kernel, [j] itself for
    the coherent one. *)
Definition searchCell (gridResolution : Z)
    (gridCellStartIndices gridCellEndIndices : list Z)
    (candidate : Z -> outcome Z) (pos vel1 : list (vec3 F)) (index : Z)
    (npos : vec3 Z) (a : accum) : outcome accum :=
  let num_grids := gridResolution * gridResolution * gridResolution in
  let grid_index := gridIndex3Dto1D (vx npos) (vy npos) (vz npos) gridResolution in
  if (grid_index >=? 0) && (grid_index <? num_grids) then
    start ← aread gridCellStartIndices grid_index;
    end_ ← aread gridCellEndIndices grid_index;
    ofold (fun j a => i ← candidate j; accumulateNeighbor pos vel1 index i a)
      (zrange start end_) a
  else mret a.

Definition neighborSearch (impl8 : bool) (gridResolution : Z)
    (gridMin : vec3 F) (inverseCellWidth cellWidth : F)
    (gridCellStartIndices gridCellEndIndices : list Z)
    (candidate : Z -> outcome Z) (pos vel1 : list (vec3 F))
    (index : Z) (vel2 : list (vec3 F)) : outcome (list (vec3 F)) :=
  p ← aread pos index;
  grid_pos ← getGridIndex p inverseCellWidth gridMin;
  let neighbor_cells :=
    if impl8 then genNeighborCells p grid_pos gridMin cellWidth
    else neighborCells27 grid_pos in
  a ← ofold (searchCell gridResolution gridCellStartIndices gridCellEndIndices
               candidate pos vel1 index) neighbor_cells accum0;
  pself ← (if neighbor_cnts0 a =? 0 then mret vzero else aread pos index);
  let '(pc, r2, pv) := scaleRules pself a in
  v ← aread vel1 index;
  awrite vel2 index (clampSpeed (vadd (vadd (vadd v pc) r2) pv)).

(** [kernUpdateVelNeighborSearchScattered]; [impl8] is the compile-time
    flag [IMPL_8]; the state is [vel2]. *)
Definition kernUpdateVelNeighborSearchScattered (impl8 : bool)
    (N gridResolution : Z) (gridMin : vec3 F) (inverseCellWidth cellWidth : F)
    (gridCellStartIndices gridCellEndIndices particleArrayIndices : list Z)
    (pos vel1 : list (vec3 F)) (index : Z) (vel2 : list (vec3 F))
  : outcome (list (vec3 F)) :=
  if index >=? N then mret vel2
  else neighborSearch impl8 gridResolution gridMin inverseCellWidth cellWidth
         gridCellStartIndices gridCellEndIndices
         (fun j => aread particleArrayIndices j) pos vel1 index vel2.

(** [kernUpdateVelNeighborSearchCoherent]: "only difference: i is used
    directly to index pos & vel arrays". *)
Definition kernUpdateVelNeighborSearchCoherent (impl8 : bool)
    (N gridResolution : Z) (gridMin : vec3 F) (inverseCellWidth cellWidth : F)
    (gridCellStartIndices gridCellEndIndices : list Z)
    (pos vel1 : list (vec3 F)) (index : Z) (vel2 : list (vec3 F))
  : outcome (list (vec3 F)) :=
  if index >=? N then mret vel2
  else neighborSearch impl8 gridResolution gridMin inverseCellWidth cellWidth
         gridCellStartIndices gridCellEndIndices
         (fun j => mret j) pos vel1 index vel2.

(** *** Kernel state: the globals of kernel.cu *)

Record sim : Type := Sim {
  numObjects : Z;
  dev_pos : list (vec3 F);
  dev_vel1 : list (vec3 F);
  dev_vel2 : list (vec3 F);
  dev_particleArrayIndices : list Z;
  dev_particleGridIndices : list Z;
  dev_gridCellStartIndices : list Z;
  dev_gridCellEndIndices : list Z;
  dev_coherentVel2 : list (vec3 F);
  dev_coherentPos : list (vec3 F);
  gridCellCount : Z;
  gridSideCount : Z;
  gridCellWidth : F;
  gridInverseCellWidth : F;
  gridMinimum : vec3 F;
}.

(** *** The three step functions *)

(** [Boids::stepSimulationNaive]. *)
Definition stepSimulationNaive (dt : F) (s : sim) : outcome sim :=
  let fullBlocksPerGrid := fullBlocks (numObjects s) in
  vel2 ← launch fullBlocksPerGrid
    (kernUpdateVelocityBruteForce (numObjects s) (dev_pos s) (dev_vel1 s))
    (dev_vel2 s);
  pos ← launch fullBlocksPerGrid (kernUpdatePos (numObjects s) dt vel2) (dev_pos s);
  (* std::swap(dev_vel1, dev_vel2) *)
  mret (Sim (numObjects s) pos vel2 (dev_vel1 s)
          (dev_particleArrayIndices s) (dev_particleGridIndices s)
          (dev_gridCellStartIndices s) (dev_gridCellEndIndices s)
          (dev_coherentVel2 s) (dev_coherentPos s)
          (gridCellCount s) (gridSideCount s) (gridCellWidth s)
          (gridInverseCellWidth s) (gridMinimum s)).

(** The first half of both grid steps: label the boids, sort the labels
    and build the range table.  [sort_by_key keys values] stands for
    [thrust::sort_by_key] and returns the sorted keys and the values
    permuted with them.  The result is
    [(particleArrayIndices, particleGridIndices, start, end)]. *)
Definition rebuildGrid (sort_by_key : list Z -> list Z -> list Z * list Z)
    (s : sim) : outcome (list Z * list Z * list Z * list Z) :=
  let block_dim_obj := fullBlocks (numObjects s) in
  '(particleArrayIndices, particleGridIndices) ←
    launch block_dim_obj
      (kernComputeIndices (numObjects s) (gridSideCount s) (gridMinimum s)
         (gridInverseCellWidth s) (dev_pos s))
      (dev_particleArrayIndices s, dev_particleGridIndices s);
  let '(particleGridIndices, particleArrayIndices) :=
    sort_by_key particleGridIndices particleArrayIndices in
  '(starts, ends) ←
    buildCellRanges (gridCellCount s) (numObjects s) particleGridIndices
      (dev_gridCellStartIndices s, dev_gridCellEndIndices s);
  mret (particleArrayIndices, particleGridIndices, starts, ends).

(** [Boids::stepSimulationScatteredGrid]. *)
Definition stepSimulationScatteredGrid (impl8 : bool)
    (sort_by_key : list Z -> list Z -> list Z * list Z)
    (dt : F) (s : sim) : outcome sim :=
  let block_dim_obj := fullBlocks (numObjects s) in
  '(particleArrayIndices, particleGridIndices, starts, ends) ←
    rebuildGrid sort_by_key s;
  vel2 ← launch block_dim_obj
    (kernUpdateVelNeighborSearchScattered impl8 (numObjects s) (gridSideCount s)
       (gridMinimum s) (gridInverseCellWidth s) (gridCellWidth s)
       starts ends particleArrayIndices (dev_pos s) (dev_vel1 s))
    (dev_vel2 s);
  pos ← launch block_dim_obj (kernUpdatePos (numObjects s) dt vel2) (dev_pos s);
  (* std::swap(dev_vel1, dev_vel2) *)
  mret (Sim (numObjects s) pos vel2 (dev_vel1 s)
          particleArrayIndices particleGridIndices starts ends
          (dev_coherentVel2 s) (dev_coherentPos s)
          (gridCellCount s) (gridSideCount s) (gridCellWidth s)
          (gridInverseCellWidth s) (gridMinimum s)).

(** [Boids::stepSimulationCoherentGrid]; [dev_coherentVel1] is an alias
    of [dev_vel2]. *)
Definition stepSimulationCoherentGrid (impl8 : bool)
    (sort_by_key : list Z -> list Z -> list Z * list Z)
    (dt : F) (s : sim) : outcome sim :=
  let block_dim_obj := fullBlocks (numObjects s) in
  '(particleArrayIndices, particleGridIndices, starts, ends) ←
    rebuildGrid sort_by_key s;
  '(coherentPos, coherentVel1) ← launch block_dim_obj
    (kernFillCoherentArrays (numObjects s) particleArrayIndices
       (dev_pos s) (dev_vel1 s))
    (dev_coherentPos s, dev_vel2 s);
  coherentVel2 ← launch block_dim_obj
    (kernUpdateVelNeighborSearchCoherent impl8 (numObjects s) (gridSideCount s)
       (gridMinimum s) (gridInverseCellWidth s) (gridCellWidth s)
       starts ends coherentPos coherentVel1)
    (dev_coherentVel2 s);
  coherentPos ← launch block_dim_obj
    (kernUpdatePos (numObjects s) dt coherentVel2) coherentPos;
  '(pos, vel1) ← launch block_dim_obj
    (kernFillOriginalArrays (numObjects s) particleArrayIndices
       coherentPos coherentVel2)
    (dev_pos s, dev_vel1 s);
  mret (Sim (numObjects s) pos vel1 coherentVel1
          particleArrayIndices particleGridIndices starts ends
          coherentVel2 coherentPos
          (gridCellCount s) (gridSideCount s) (gridCellWidth s)
          (gridInverseCellWidth s) (gridMinimum s)).

(** *** Initialisation *)

(** [kernGenerateRandomPosArray]; [generateRandomVec3] draws from a
    thrust random engine and is not modelled further. *)
Definition kernGenerateRandomPosArray
    (generateRandomVec3 : Z -> Z -> vec3 F) (time N : Z) (scale : F)
    (index : Z) (arr : list (vec3 F)) : outcome (list (vec3 F)) :=
  if index <? N then
    let rand := generateRandomVec3 time index in
    awrite arr index (vmap (fun c => fmul scale c) rand)
  else mret arr.

(** The grid parameters computed by [initSimulation] (lines 181-191). *)
Definition initGrid (s : sim) : sim :=
  let gridCellWidth :=
    fmul cell_width_mul (fmax (fmax rule1Distance rule2Distance) rule3Distance) in
  let halfSideCount := ftrunc (fdiv scene_scale gridCellWidth) + 1 in
  let gridSideCount := 2 * halfSideCount in
  let gridCellCount := gridSideCount * gridSideCount * gridSideCount in
  let gridInverseCellWidth := fdiv (fof_Z 1) gridCellWidth in
  let halfGridWidth := fmul gridCellWidth (fof_Z halfSideCount) in
  let gridMinimum := vmap (fun c => fsub c halfGridWidth) (gridMinimum s) in
  Sim (numObjects s) (dev_pos s) (dev_vel1 s) (dev_vel2 s)
    (dev_particleArrayIndices s) (dev_particleGridIndices s)
    (dev_gridCellStartIndices s) (dev_gridCellEndIndices s)
    (dev_coherentVel2 s) (dev_coherentPos s)
    gridCellCount gridSideCount gridCellWidth gridInverseCellWidth gridMinimum.

(** A buffer just returned by [cudaMalloc]: [n] elements of whatever the
    device memory holds. *)
Definition fresh {A : Type} (junk : Z -> A) (n : Z) : list A :=
  map junk (zrange 0 n).

(** [Boids::initSimulation].  [ok k] tells whether the [k]-th call of
    [cudaMalloc] succeeds; [junkV] and [junkI] are the contents of
    uninitialised device memory.  Kernel launches themselves are taken
    to succeed; a fault inside the kernel is not an event of the host. *)
Definition initSimulation (ok : nat -> bool)
    (generateRandomVec3 : Z -> Z -> vec3 F)
    (junkV : Z -> vec3 F) (junkI : Z -> Z) (N : Z) (s : sim) : host sim :=
  let fullBlocksPerGrid := fullBlocks N in
  _ ← cudaMalloc (ok 0%nat) "dev_pos" (N * sizeof_vec3);
  _ ← checkCUDAError "cudaMalloc dev_pos failed!" 169;
  _ ← cudaMalloc (ok 1%nat) "dev_vel1" (N * sizeof_vec3);
  _ ← checkCUDAError "cudaMalloc dev_vel1 failed!" 172;
  _ ← cudaMalloc (ok 2%nat) "dev_vel2" (N * sizeof_vec3);
  _ ← checkCUDAError "cudaMalloc dev_vel2 failed!" 175;
  let pos :=
    match launch fullBlocksPerGrid
            (kernGenerateRandomPosArray generateRandomVec3 1 N scene_scale)
            (fresh junkV N) with
    | Done pos => pos
    | Fault _ => fresh junkV N
    end in
  _ ← checkCUDAError "kernGenerateRandomPosArray failed!" 179;
  let s := initGrid
    (Sim N pos (fresh junkV N) (fresh junkV N)
       (dev_particleArrayIndices s) (dev_particleGridIndices s)
       (dev_gridCellStartIndices s) (dev_gridCellEndIndices s)
       (dev_coherentVel2 s) (dev_coherentPos s)
       (gridCellCount s) (gridSideCount s) (gridCellWidth s)
       (gridInverseCellWidth s) (gridMinimum s)) in
  _ ← ALLOC (ok 3%nat) "dev_particleArrayIndices" N sizeof_int 194;
  _ ← ALLOC (ok 4%nat) "dev_particleGridIndices" N sizeof_int 195;
  _ ← ALLOC (ok 5%nat) "dev_gridCellStartIndices" (gridCellCount s) sizeof_int 196;
  _ ← ALLOC (ok 6%nat) "dev_gridCellEndIndices" (gridCellCount s) sizeof_int 197;
  _ ← ALLOC (ok 7%nat) "dev_coherentPos" N sizeof_vec3 203;
  _ ← ALLOC (ok 8%nat) "dev_coherentVel2" N sizeof_vec3 204;
  mret (Sim N (dev_pos s) (dev_vel1 s) (dev_vel2 s)
          (fresh junkI N) (fresh junkI N)
          (fresh junkI (gridCellCount s)) (fresh junkI (gridCellCount s))
          (fresh junkV N) (fresh junkV N)
          (gridCellCount s) (gridSideCount s) (gridCellWidth s)
          (gridInverseCellWidth s) (gridMinimum s)).

End Kernels.

Arguments sim F : clear implicits.
Arguments accum F : clear implicits.

#[global] Instance vec3_inhabited {F : Type} `{Scalar F} : Inhabited (vec3 F) :=
  populate vzero.

(** ** The two scalar instances *)

(** *** IEEE-754 single precision *)
Module Binary32.

Definition prec : Z := 24.
Definition emax : Z := 128.

Definition of_Z (z : Z) : spec_float := binary_normalize prec emax z 0 false.

(** [std::floor]: a float with a non-negative exponent is an integer;
    otherwise the mantissa is shifted right, which rounds down. *)
Definition floor (x : spec_float) : spec_float :=
  match x with
  | S754_finite s m e =>
      if e >=? 0 then x
      else
        let z := Z.shiftr (cond_Zopp s (Z.pos m)) (- e) in
        if z =? 0 then S754_zero false else of_Z z
  | _ => x
  end.

(** Conversion to [int]: the fraction is dropped.  The conversion of a
    NaN or an infinity is undefined in the source; it is 0 here. *)
Definition trunc (x : spec_float) : Z :=
  match x with
  | S754_finite s m e =>
      cond_Zopp s (if e >=? 0 then Z.shiftl (Z.pos m) e
                   else Z.shiftr (Z.pos m) (- e))
  | _ => 0
  end.

#[global] Instance scalar : Scalar spec_float := {
  fof_Z := of_Z;
  fadd := SFadd prec emax;
  fsub := SFsub prec emax;
  fmul := SFmul prec emax;
  fdiv := SFdiv prec emax;
  fopp := SFopp;
  fsqrt := SFsqrt prec emax;
  ffloor := floor;
  ftrunc := trunc;
  fltb := SFltb;
  fleb := SFleb;
}.

End Binary32.

(** *** Exact real arithmetic *)
Module Exact.

Definition ltb (a b : R) : bool := if Rlt_dec a b then true else false.
Definition leb (a b : R) : bool := if Rle_dec a b then true else false.

Definition floor (r : R) : R := IZR (Int_part r).

Definition trunc (r : R) : Z :=
  if Rlt_dec r 0 then - Int_part (- r) else Int_part r.

#[global] Instance scalar : Scalar R := {
  fof_Z := IZR;
  fadd := Rplus;
  fsub := Rminus;
  fmul := Rmult;
  fdiv := Rdiv;
  fopp := Ropp;
  fsqrt := sqrt;
  ffloor := floor;
  ftrunc := trunc;
  fltb := ltb;
  fleb := leb;
}.

End Exact.

(** A sort by key that computes: insertion of the pairs in key order. *)
Fixpoint insert_by_key (k v : Z) (l : list (Z * Z)) : list (Z * Z) :=
  match l with
  | [] => [(k, v)]
  | (k', v') :: l' =>
      if k <=? k' then (k, v) :: l else (k', v') :: insert_by_key k v l'
  end.

Definition insertion_sort_by_key (keys values : list Z) : list Z * list Z :=
  let sorted := foldr (fun kv acc => insert_by_key kv.1 kv.2 acc) []
                  (zip keys values) in
  (sorted.*1, sorted.*2).

(** ** Vocabulary of the statements *)

(** [occupies keys c a b]: the half-open interval [[a, b)] is not empty
    and holds exactly the positions of [keys] whose value is [c]; so [a]
    is the first position of [c] and [b] is one past its last. *)
Definition occupies (keys : list Z) (c a b : Z) : Prop :=
  0 <= a < b /\ b <= Z.of_nat (length keys) /\
  forall j : nat, keys !! j = Some c <-> a <= Z.of_nat j < b.

(** [range_table M keys starts ends]: both tables have [M] cells; an
    occupied cell holds its interval, any other cell holds [-1]. *)
Definition range_table (M : Z) (keys starts ends : list Z) : Prop :=
  Z.of_nat (length starts) = M /\ Z.of_nat (length ends) = M /\
  forall c : Z, 0 <= c < M ->
    exists a b : Z,
      starts !! Z.to_nat c = Some a /\ ends !! Z.to_nat c = Some b /\
      ((c ∈ keys /\ occupies keys c a b) \/ ((c ∉ keys) /\ a = -1 /\ b = -1)).

(** [gather idx arr]: the elements of [arr] in the order of the indices
    [idx], that is [coherent[i] = original[idx[i]]]. *)
Definition gather {V : Type} (idx : list Z) (arr : list V) : list V :=
  omap (fun k => if k <? 0 then None else arr !! Z.to_nat k) idx.

(** [idx] holds a permutation of the indices [0 .. N-1]. *)
Definition is_permutation (N : Z) (idx : list Z) : Prop :=
  idx ≡ₚ zrange 0 N.

Section Vocabulary.

Context {F : Type} `{Scalar F}.

(** What [kernUpdatePos] does to one coordinate after the integration,
    and to one boid. *)
Definition wrapCoordinate (c : F) : F := wrapHigh (wrapLow c).

Definition integrate (dt : F) (p v : vec3 F) : vec3 F :=
  vmap wrapCoordinate (vadd p (vscale v dt)).

(** The wraparound as the specification words it: a coordinate that
    lands at [worldExtent + eps] appears at [-worldExtent + eps], and
    one that lands at [-worldExtent - eps] at [worldExtent - eps]. *)
Definition wrapToroidal (c : F) : F :=
  if fltb scene_scale c then fadd (fopp scene_scale) (fsub c scene_scale)
  else if fltb c (fopp scene_scale)
       then fsub scene_scale (fsub (fopp scene_scale) c)
       else c.

(** The three rules in the words of the specification, for boid [iSelf]
    among the boids of [pos] and [vel].  [withinRule r] lists the other
    boids closer than [r]. *)
Definition isWithin (pos : list (vec3 F)) (iSelf : Z) (r : F) (i : Z) : bool :=
  negb (i =? iSelf)
  && fltb (vdistance (pos !!! Z.to_nat i) (pos !!! Z.to_nat iSelf)) r.

Definition withinRule (pos : list (vec3 F)) (iSelf : Z) (r : F) : list Z :=
  List.filter (isWithin pos iSelf r) (zrange 0 (Z.of_nat (length pos))).

Definition vsum (l : list (vec3 F)) : vec3 F := foldr vadd vzero l.

Definition average (l : list (vec3 F)) : vec3 F :=
  vdivs (vsum l) (fof_Z (Z.of_nat (length l))).

Definition cohesion (pos : list (vec3 F)) (iSelf : Z) : vec3 F :=
  match withinRule pos iSelf rule1Distance with
  | [] => vzero
  | near =>
      vscale (vsub (average ((fun i => pos !!! Z.to_nat i) <$> near))
                (pos !!! Z.to_nat iSelf)) rule1Scale
  end.

Definition separation (pos : list (vec3 F)) (iSelf : Z) : vec3 F :=
  vscale
    (vsum ((fun i => vsub (pos !!! Z.to_nat iSelf) (pos !!! Z.to_nat i))
             <$> withinRule pos iSelf rule2Distance))
    rule2Scale.

Definition alignment (pos vel : list (vec3 F)) (iSelf : Z) : vec3 F :=
  match withinRule pos iSelf rule3Distance with
  | [] => vzero
  | near => vscale (average ((fun i => vel !!! Z.to_nat i) <$> near)) rule3Scale
  end.

(** A velocity faster than [maxSpeed] is rescaled to [maxSpeed]. *)
Definition limitSpeed (v : vec3 F) : vec3 F :=
  if fltb maxSpeed (vlength v) then vscale v (fdiv maxSpeed (vlength v)) else v.

Definition flockingVelocity (pos vel : list (vec3 F)) (iSelf : Z) : vec3 F :=
  limitSpeed
    (vadd (vadd (vadd (vel !!! Z.to_nat iSelf) (cohesion pos iSelf))
             (separation pos iSelf))
       (alignment pos vel iSelf)).

End Vocabulary.

(** The calls of [cudaMalloc] made by [initSimulation], in order, for
    [N] boids and [cells] grid cells, and the line and message that
    [checkCUDAError] prints when the call fails. *)
Definition allocRequests (N cells : Z) : list allocation :=
  [ Allocation "dev_pos" (N * sizeof_vec3);
    Allocation "dev_vel1" (N * sizeof_vec3);
    Allocation "dev_vel2" (N * sizeof_vec3);
    Allocation "dev_particleArrayIndices" (N * sizeof_int);
    Allocation "dev_particleGridIndices" (N * sizeof_int);
    Allocation "dev_gridCellStartIndices" (cells * sizeof_int);
    Allocation "dev_gridCellEndIndices" (cells * sizeof_int);
    Allocation "dev_coherentPos" (N * sizeof_vec3);
    Allocation "dev_coherentVel2" (N * sizeof_vec3) ].

Definition allocReports : list (list output) :=
  [ [OutLine 169; OutCudaError "cudaMalloc dev_pos failed!" "out of memory"];
    [OutLine 172; OutCudaError "cudaMalloc dev_vel1 failed!" "out of memory"];
    [OutLine 175; OutCudaError "cudaMalloc dev_vel2 failed!" "out of memory"];
    [OutLine 194; OutCudaError "cudaMallocdev_particleArrayIndicesfailed!" "out of memory"];
    [OutLine 195; OutCudaError "cudaMallocdev_particleGridIndicesfailed!" "out of memory"];
    [OutLine 196; OutCudaError "cudaMallocdev_gridCellStartIndicesfailed!" "out of memory"];
    [OutLine 197; OutCudaError "cudaMallocdev_gridCellEndIndicesfailed!" "out of memory"];
    [OutLine 203; OutCudaError "cudaMallocdev_coherentPosfailed!" "out of memory"];
    [OutLine 204; OutCudaError "cudaMallocdev_coherentVel2failed!" "out of memory"] ]%string.

(** Failed allocations in the words of the specification:
    when initialisation aborts, nothing it acquired is still allocated. *)
Definition nothing_dangling (before after : runtime) : Prop :=
  live after = live before.

(** A position within the world bounds [-scene_scale, scene_scale]^3. *)
Definition in_world (p : vec3 R) : Prop :=
  (-100 <= vx p <= 100)%R /\ (-100 <= vy p <= 100)%R /\ (-100 <= vz p <= 100)%R.

(** A cell of the grid of side [gridResolution]. *)
Definition in_grid (gridResolution : Z) (c : vec3 Z) : Prop :=
  0 <= vx c < gridResolution /\ 0 <= vy c < gridResolution /\
  0 <= vz c < gridResolution.

(** The grid minimum after the first initialisation, and the cell of a
    position for that geometry (cell width 10). *)
Definition firstGridMinimum : vec3 R := Vec3 (-110)%R (-110)%R (-110)%R.

Definition cellOf (p : vec3 R) : vec3 Z :=
  vmap (fun c => Int_part ((c - -110) * (1 / 10))%R) p.

Definition cellId (gridResolution : Z) (c : vec3 Z) : Z :=
  gridIndex3Dto1D (vx c) (vy c) (vz c) gridResolution.

(** What the steps rely on from [thrust::sort_by_key]: the keys come
    back sorted and every value stays with its key. *)
Definition sorts_by_key (sort : list Z -> list Z -> list Z * list Z) : Prop :=
  forall keys values : list Z,
    length keys = length values ->
    zip (sort keys values).1 (sort keys values).2 ≡ₚ zip keys values /\
    Sorted Z.le (sort keys values).1 /\
    length (sort keys values).1 = length keys /\
    length (sort keys values).2 = length keys.

(** [accumulated pos vel iSelf l a]: [a] holds what the rule loop of boid
    [iSelf] has accumulated, in exact arithmetic, once the candidates
    [l] have been visited. *)
Definition accumulated (pos vel : list (vec3 R)) (iSelf : Z) (l : list Z)
    (a : accum R) : Prop :=
  perceived_center a
    = vsum ((fun i => pos !!! Z.to_nat i)
              <$> List.filter (isWithin pos iSelf rule1Distance) l) /\
  perceived_velocity a
    = vsum ((fun i => vel !!! Z.to_nat i)
              <$> List.filter (isWithin pos iSelf rule3Distance) l) /\
  rule2offset a
    = vsum ((fun i => vsub (pos !!! Z.to_nat iSelf) (pos !!! Z.to_nat i))
              <$> List.filter (isWithin pos iSelf rule2Distance) l) /\
  neighbor_cnts0 a
    = Z.of_nat (length (List.filter (isWithin pos iSelf rule1Distance) l))
      mod 2 ^ 32 /\
  neighbor_cnts1 a
    = Z.of_nat (length (List.filter (isWithin pos iSelf rule3Distance) l))
      mod 2 ^ 32.

(** The state the three steps work on: the buffers have the sizes given
    by [initSimulation] for [numObjects] boids, the grid parameters are
    those of the first initialisation, and the boids are within the
    world bounds. *)
Definition sim_ok (s : sim R) : Prop :=
  0 <= numObjects s < 2 ^ 31 /\
  (Z.of_nat (length (dev_pos s)) = numObjects s /\
   Z.of_nat (length (dev_vel1 s)) = numObjects s /\
   Z.of_nat (length (dev_vel2 s)) = numObjects s /\
   Z.of_nat (length (dev_particleArrayIndices s)) = numObjects s /\
   Z.of_nat (length (dev_particleGridIndices s)) = numObjects s /\
   Z.of_nat (length (dev_coherentPos s)) = numObjects s /\
   Z.of_nat (length (dev_coherentVel2 s)) = numObjects s) /\
  (Z.of_nat (length (dev_gridCellStartIndices s)) = 10648 /\
   Z.of_nat (length (dev_gridCellEndIndices s)) = 10648) /\
  (gridCellCount s = 10648 /\ gridSideCount s = 22 /\
   gridCellWidth s = 10%R /\ gridInverseCellWidth s = (1 / 10)%R /\
   gridMinimum s = firstGridMinimum) /\
  Forall in_world (dev_pos s).

(** ** The rest of kernel.cu: seeding, drawing and tear-down *)

(** Arithmetic on [unsigned int] is modulo 2^32. *)
Definition uint32 (z : Z) : Z := z mod 2 ^ 32.

(** [hash]: the integer hash that seeds the random engine of each boid
    (lines 124-132). *)
Definition hash (a : Z) : Z :=
  let a := uint32 (uint32 (a + 0x7ed55d16) + uint32 (Z.shiftl a 12)) in
  let a := Z.lxor (Z.lxor a 0xc761c23c) (Z.shiftr a 19) in
  let a := uint32 (uint32 (a + 0x165667b1) + uint32 (Z.shiftl a 5)) in
  let a := Z.lxor (uint32 (a + 0xd3a2646c)) (uint32 (Z.shiftl a 9)) in
  let a := uint32 (uint32 (a + 0xfd7046c5) + uint32 (Z.shiftl a 3)) in
  let a := Z.lxor (Z.lxor a 0xb55a4f09) (Z.shiftr a 16) in
  a.

(** The number of boids labelled with cell [c]. *)
Definition count_key (keys : list Z) (c : Z) : Z :=
  Z.of_nat (length (List.filter (Z.eqb c) keys)).

(** A single-precision coordinate within the world bounds, or not a
    number. *)
Definition in_bounds32 (c : spec_float) : Prop :=
  c = S754_nan \/
  (SFleb (SFopp (Binary32.of_Z 100)) c = true /\ SFleb c (Binary32.of_Z 100) = true).

(** *** Tear-down *)

(** [release name l]: the allocations [l], latest first, without the
    latest one made through the pointer [name]. *)
Fixpoint release (name : string) (l : list allocation) : list allocation :=
  match l with
  | [] => []
  | a :: l' =>
      if String.eqb (alloc_name a) name then l' else a :: release name l'
  end.

Definition freeLatest (name : string) (l : list allocation) : list allocation :=
  reverse (release name (reverse l)).

(** [cudaFree(name)]; [ok] tells whether the runtime accepts the pointer.
    The pointer [name] holds the latest buffer allocated through it (a
    null pointer is accepted and frees nothing).  On failure the error
    is recorded and returned. *)
Definition cudaFree (ok : bool) (name : string) : host bool :=
  fun rt =>
    if ok
    then (Runtime (freeLatest name (live rt)) (lastError rt) (stderr rt),
          Returned true)
    else (Runtime (live rt) (Some "invalid argument"%string) (stderr rt),
          Returned false).

(** The macro [FREE(name)] used at source line [line]. *)
Definition FREE (ok : bool) (name : string) (line : Z) : host unit :=
  success ← cudaFree ok name;
  if success : bool then mret tt
  else checkCUDAError ("cudaFree" ++ name ++ "failed!")%string line.

(** [Boids::endSimulation]; [ok k] tells whether the [k]-th call of
    [cudaFree] succeeds. *)
Definition endSimulation (ok : nat -> bool) : host unit :=
  _ ← FREE (ok 0%nat) "dev_vel1" 762;
  _ ← FREE (ok 1%nat) "dev_vel2" 763;
  _ ← FREE (ok 2%nat) "dev_pos" 764;
  _ ← FREE (ok 3%nat) "dev_particleArrayIndices" 767;
  _ ← FREE (ok 4%nat) "dev_particleGridIndices" 768;
  _ ← FREE (ok 5%nat) "dev_gridCellStartIndices" 769;
  _ ← FREE (ok 6%nat) "dev_gridCellEndIndices" 770;
  _ ← FREE (ok 7%nat) "dev_coherentPos" 772;
  FREE (ok 8%nat) "dev_coherentVel2" 773.

(** The calls of [cudaFree] made by [endSimulation], in order, with the
    line of each and the message that [checkCUDAError] prints when it
    fails. *)
Definition freeRequests : list string :=
  [ "dev_vel1"; "dev_vel2"; "dev_pos"; "dev_particleArrayIndices";
    "dev_particleGridIndices"; "dev_gridCellStartIndices";
    "dev_gridCellEndIndices"; "dev_coherentPos"; "dev_coherentVel2" ]%string.

Definition freeReports : list (list output) :=
  [ [OutLine 762; OutCudaError "cudaFreedev_vel1failed!" "invalid argument"];
    [OutLine 763; OutCudaError "cudaFreedev_vel2failed!" "invalid argument"];
    [OutLine 764; OutCudaError "cudaFreedev_posfailed!" "invalid argument"];
    [OutLine 767; OutCudaError "cudaFreedev_particleArrayIndicesfailed!" "invalid argument"];
    [OutLine 768; OutCudaError "cudaFreedev_particleGridIndicesfailed!" "invalid argument"];
    [OutLine 769; OutCudaError "cudaFreedev_gridCellStartIndicesfailed!" "invalid argument"];
    [OutLine 770; OutCudaError "cudaFreedev_gridCellEndIndicesfailed!" "invalid argument"];
    [OutLine 772; OutCudaError "cudaFreedev_coherentPosfailed!" "invalid argument"];
    [OutLine 773; OutCudaError "cudaFreedev_coherentVel2failed!" "invalid argument"] ]%string.

(** *** Copy to the vertex buffers *)

Section CopyToVBO.

Context {F : Type} `{Scalar F}.

(** [kernCopyPositionsToVBO]; the state is [vbo], four floats a boid. *)
Definition kernCopyPositionsToVBO (N : Z) (pos : list (vec3 F)) (s_scale : F)
    (index : Z) (vbo : list F) : outcome (list F) :=
  let c_scale := fdiv (fopp (fof_Z 1)) s_scale in
  if index <? N then
    p ← aread pos index;
    vbo ← awrite vbo (4 * index + 0) (fmul (vx p) c_scale);
    p ← aread pos index;
    vbo ← awrite vbo (4 * index + 1) (fmul (vy p) c_scale);
    p ← aread pos index;
    vbo ← awrite vbo (4 * index + 2) (fmul (vz p) c_scale);
    awrite vbo (4 * index + 3) (fof_Z 1)
  else mret vbo.

(** [kernCopyVelocitiesToVBO]; [s_scale] is not used. *)
Definition kernCopyVelocitiesToVBO (N : Z) (vel : list (vec3 F)) (s_scale : F)
    (index : Z) (vbo : list F) : outcome (list F) :=
  if index <? N then
    v ← aread vel index;
    vbo ← awrite vbo (4 * index + 0) (fadd (vx v) (lit 3 10));
    v ← aread vel index;
    vbo ← awrite vbo (4 * index + 1) (fadd (vy v) (lit 3 10));
    v ← aread vel index;
    vbo ← awrite vbo (4 * index + 2) (fadd (vz v) (lit 3 10));
    awrite vbo (4 * index + 3) (fof_Z 1)
  else mret vbo.

(** [Boids::copyBoidsToVBO]: the two launches, then the error check.
    The result is what the device leaves in the two vertex buffers. *)
Definition copyBoidsToVBO (s : sim F)
    (vbodptr_positions vbodptr_velocities : list F)
  : host (outcome (list F * list F)) :=
  let fullBlocksPerGrid := fullBlocks (numObjects s) in
  let positions :=
    launch fullBlocksPerGrid
      (kernCopyPositionsToVBO (numObjects s) (dev_pos s) scene_scale)
      vbodptr_positions in
  let velocities :=
    launch fullBlocksPerGrid
      (kernCopyVelocitiesToVBO (numObjects s) (dev_vel1 s) scene_scale)
      vbodptr_velocities in
  _ ← checkCUDAError "copyBoidsToVBO failed!" 250;
  mret (p ← positions; v ← velocities; mret (p, v)).

(** The four floats of a boid in each vertex buffer. *)
Definition positionVertex (s_scale : F) (p : vec3 F) : list F :=
  let c_scale := fdiv (fopp (fof_Z 1)) s_scale in
  [fmul (vx p) c_scale; fmul (vy p) c_scale; fmul (vz p) c_scale; fof_Z 1].

Definition velocityVertex (v : vec3 F) : list F :=
  [fadd (vx v) (lit 3 10); fadd (vy v) (lit 3 10); fadd (vz v) (lit 3 10); fof_Z 1].

End CopyToVBO.

(** * Properties *)

(** ** The outcome monad, arrays and loops *)

Lemma obind_Done {A B : Type} (m : outcome A) (k : A -> outcome B) (b : B) :
  m ≫= k = Done b <-> exists a, m = Done a /\ k a = Done b.
Proof.
  destruct m as [a|f]; simpl; split.
  - intros E. exists a. auto.
  - intros (a' & E & Hk). inversion E. subst. exact Hk.
  - discriminate.
  - intros (a' & E & _). discriminate.
Qed.

Lemma obind_ret {A B : Type} (a : A) (k : A -> outcome B) : Done a ≫= k = k a.
Proof. reflexivity. Qed.

Lemma aread_Done {A : Type} (arr : list A) (i : Z) (a : A) :
  aread arr i = Done a <-> 0 <= i /\ arr !! Z.to_nat i = Some a.
Proof.
  unfold aread. destruct (Z.ltb_spec i 0).
  - split; [discriminate | lia].
  - destruct (arr !! Z.to_nat i) eqn:E; split; intros Hd;
      try discriminate; try (destruct Hd; congruence).
    inversion Hd. subst. split; [lia | reflexivity].
Qed.

Lemma aread_lookup {A : Type} (arr : list A) (i : Z) (a : A) :
  0 <= i -> arr !! Z.to_nat i = Some a -> aread arr i = Done a.
Proof. intros. apply aread_Done. auto. Qed.

Lemma aread_nat {A : Type} (arr : list A) (n : nat) (a : A) :
  arr !! n = Some a -> aread arr (Z.of_nat n) = Done a.
Proof. intros E. apply aread_lookup; [lia | now rewrite Nat2Z.id]. Qed.

Lemma awrite_ok {A : Type} (arr : list A) (i : Z) (a : A) :
  0 <= i < Z.of_nat (length arr) ->
  awrite arr i a = Done (<[Z.to_nat i := a]> arr).
Proof.
  intros [H0 H1]. unfold awrite.
  destruct (Z.ltb_spec i 0); [lia|].
  destruct (Z.ltb_spec i (Z.of_nat (length arr))); [reflexivity | lia].
Qed.

Lemma awrite_Done {A : Type} (arr arr' : list A) (i : Z) (a : A) :
  awrite arr i a = Done arr' ->
  0 <= i < Z.of_nat (length arr) /\ arr' = <[Z.to_nat i := a]> arr.
Proof.
  unfold awrite. destruct (Z.ltb_spec i 0); [discriminate|].
  destruct (Z.ltb_spec i (Z.of_nat (length arr))); [|discriminate].
  intros E. inversion E. auto with lia.
Qed.

Lemma ofold_app {A S : Type} (body : A -> S -> outcome S) (l1 l2 : list A) (s : S) :
  ofold body (l1 ++ l2) s = ofold body l1 s ≫= ofold body l2.
Proof.
  revert s. induction l1 as [|a l1 IH]; intros s; simpl; [reflexivity|].
  destruct (body a s) as [s'|f]; simpl; [apply IH | reflexivity].
Qed.

(** Loop invariants indexed by the part of the schedule already run. *)
Lemma ofold_inv_gen {A S : Type} (body : A -> S -> outcome S)
    (I : list A -> S -> Prop) (l0 : list A) :
  (forall pre a post s, l0 = pre ++ a :: post -> I pre s ->
     exists s', body a s = Done s' /\ I (pre ++ [a]) s') ->
  forall l pre s, l0 = pre ++ l -> I pre s ->
    exists s', ofold body l s = Done s' /\ I l0 s'.
Proof.
  intros Hstep. induction l as [|a l IH]; intros pre s E HI; simpl.
  - exists s. rewrite app_nil_r in E. subst. auto.
  - destruct (Hstep pre a l s E HI) as (s' & Hb & HI').
    rewrite Hb. simpl. apply (IH (pre ++ [a])); [|exact HI'].
    rewrite <- app_assoc. exact E.
Qed.

Lemma ofold_inv {A S : Type} (body : A -> S -> outcome S)
    (I : list A -> S -> Prop) (l : list A) (s : S) :
  I [] s ->
  (forall pre a post s, l = pre ++ a :: post -> I pre s ->
     exists s', body a s = Done s' /\ I (pre ++ [a]) s') ->
  exists s', ofold body l s = Done s' /\ I l s'.
Proof. intros H0 Hstep. apply (ofold_inv_gen body I l Hstep l [] s); auto. Qed.

(** The values of a loop counter. *)
Lemma elem_of_zrange (lo hi i : Z) : i ∈ zrange lo hi <-> lo <= i < hi.
Proof.
  unfold zrange. rewrite list_elem_of_fmap. split.
  - intros (k & -> & Hk). apply elem_of_seq in Hk. lia.
  - intros Hi. exists (Z.to_nat (i - lo)). split; [lia|].
    apply elem_of_seq. lia.
Qed.

Lemma length_zrange (lo hi : Z) : length (zrange lo hi) = Z.to_nat (hi - lo).
Proof. unfold zrange. now rewrite length_map, length_seq. Qed.

Lemma lookup_zrange (lo hi : Z) (k : nat) :
  Z.of_nat k < hi - lo -> zrange lo hi !! k = Some (lo + Z.of_nat k).
Proof.
  intros Hk. unfold zrange. rewrite list_lookup_fmap, lookup_seq_lt by lia.
  reflexivity.
Qed.

Lemma NoDup_zrange (lo hi : Z) : NoDup (zrange lo hi).
Proof.
  unfold zrange. apply NoDup_fmap_2; [|apply NoDup_seq].
  intros a b E. lia.
Qed.

Lemma zrange_split (lo mid hi : Z) :
  lo <= mid <= hi -> zrange lo hi = zrange lo mid ++ zrange mid hi.
Proof.
  intros Hm. unfold zrange.
  replace (Z.to_nat (hi - lo)) with (Z.to_nat (mid - lo) + Z.to_nat (hi - mid))%nat by lia.
  rewrite seq_app, map_app. f_equal.
  replace (seq (0 + Z.to_nat (mid - lo)) (Z.to_nat (hi - mid)))
    with (seq (Z.to_nat (mid - lo) + 0) (Z.to_nat (hi - mid))) by (f_equal; lia).
  rewrite <- fmap_add_seq.
  change (map ?f (?g <$> ?l)) with (f <$> (g <$> l)).
  rewrite <- list_fmap_compose. apply list_fmap_ext. intros _ k _. simpl. lia.
Qed.

Lemma zrange_empty (lo hi : Z) : hi <= lo -> zrange lo hi = [].
Proof. intros Hh. unfold zrange. now replace (Z.to_nat (hi - lo)) with 0%nat by lia. Qed.

Lemma zrange_cons (lo hi : Z) : lo < hi -> zrange lo hi = lo :: zrange (lo + 1) hi.
Proof.
  intros Hh. rewrite (zrange_split lo (lo + 1) hi) by lia.
  unfold zrange at 1. replace (Z.to_nat (lo + 1 - lo)) with 1%nat by lia.
  simpl. now rewrite Z.add_0_r.
Qed.

(** The threads of a launch cover the first [N] indices. *)
Lemma fullBlocks_covers (N : Z) : 0 <= N -> N <= fullBlocks N * blockSize.
Proof.
  intros HN. unfold fullBlocks, blockSize.
  rewrite Z.quot_div_nonneg by lia.
  pose proof (Z.div_mod (N + 128 - 1) 128 ltac:(lia)).
  pose proof (Z.mod_pos_bound (N + 128 - 1) 128 ltac:(lia)). lia.
Qed.

Lemma elem_of_threads (N i : Z) :
  0 <= N -> 0 <= i < N -> i ∈ threads (fullBlocks N).
Proof.
  intros HN Hi. apply elem_of_zrange. pose proof (fullBlocks_covers N HN). lia.
Qed.

Lemma threads_nonneg (b i : Z) : i ∈ threads b -> 0 <= i.
Proof. intros Hi. apply elem_of_zrange in Hi. lia. Qed.

(** ** The cell range table *)

Lemma sched_threads (sched : list Z) (N i : Z) :
  sched ≡ₚ threads (fullBlocks N) -> 0 <= N -> 0 <= i < N -> i ∈ sched.
Proof. intros Hp HN Hi. rewrite Hp. now apply elem_of_threads. Qed.

Lemma sched_nonneg (sched : list Z) (b i : Z) :
  sched ≡ₚ threads b -> i ∈ sched -> 0 <= i.
Proof. intros Hp Hi. rewrite Hp in Hi. now apply threads_nonneg in Hi. Qed.

(** Whatever the schedule, [kernResetIntBuffer] fills the buffer. *)
Lemma reset_sched (M v : Z) (sched : list Z) (buf : list Z) :
  Z.of_nat (length buf) = M ->
  sched ≡ₚ threads (fullBlocks M) ->
  launch_sched sched (kernResetIntBuffer M v) buf = Done (replicate (length buf) v).
Proof.
  intros HM Hp. unfold launch_sched.
  destruct (ofold_inv (kernResetIntBuffer M v)
    (fun pre b => length b = length buf /\
       forall i : nat, Z.of_nat i ∈ pre -> (i < length buf)%nat -> b !! i = Some v)
    sched buf) as (b & -> & Hlen & Hb).
  - split; [reflexivity|]. intros i Hi. inversion Hi.
  - intros pre a post s E [Hlen Hs].
    assert (Ha : 0 <= a).
    { apply (sched_nonneg sched _ a Hp). rewrite E.
      apply elem_of_app. right. left. }
    unfold kernResetIntBuffer. destruct (Z.ltb_spec a M).
    + rewrite awrite_ok by lia. eexists. split; [reflexivity|].
      split; [now rewrite length_insert|].
      intros i Hi Hlt. destruct (decide (i = Z.to_nat a)) as [->|Hne].
      * apply list_lookup_insert_eq. lia.
      * rewrite list_lookup_insert_ne by auto. apply Hs; [|exact Hlt].
        apply elem_of_app in Hi as [Hi|Hi]; [exact Hi|].
        apply list_elem_of_singleton in Hi. lia.
    + exists s. split; [reflexivity|]. split; [exact Hlen|].
      intros i Hi Hlt. apply Hs; [|exact Hlt].
      apply elem_of_app in Hi as [Hi|Hi]; [exact Hi|].
      apply list_elem_of_singleton in Hi. lia.
  - f_equal. apply list_eq. intros i.
    destruct (decide (i < length buf)%nat) as [Hlt|Hge].
    + rewrite lookup_replicate_2 by exact Hlt. apply Hb; [|exact Hlt].
      apply (sched_threads sched M); [exact Hp|lia|lia].
    + rewrite (lookup_ge_None_2 b) by lia.
      symmetry. apply lookup_ge_None_2. rewrite length_replicate. lia.
Qed.

(** Sorted keys grow with the position. *)
Lemma Sorted_lookup_le (keys : list Z) (i j : nat) (ki kj : Z) :
  Sorted Z.le keys -> (i <= j)%nat ->
  keys !! i = Some ki -> keys !! j = Some kj -> ki <= kj.
Proof.
  intros Hs. apply Sorted_StronglySorted in Hs; [|intros x y z; lia].
  revert i j. induction Hs as [|k keys Hs IH Hall]; intros i j Hij Hi Hj.
  - rewrite lookup_nil in Hi. discriminate.
  - destruct i as [|i]; destruct j as [|j]; simpl in *.
    + assert (ki = kj) by congruence. lia.
    + inversion Hi. subst. rewrite List.Forall_forall in Hall.
      apply Hall. apply list_elem_of_In. eapply list_elem_of_lookup_2. exact Hj.
    + lia.
    + apply (IH i j); auto with lia.
Qed.

Section IdentifyCellStartEnd.

Variable keys : list Z.
Variable M : Z.
Hypothesis keys_range : Forall (fun k => 0 <= k < M) keys.

Let N : Z := Z.of_nat (length keys).
Let key (i : Z) : Z := keys !!! Z.to_nat i.

(** Position [i] opens (closes) the run of its cell. *)
Let opens (i : Z) : Prop := i = 0 \/ key (i - 1) <> key i.
Let closes (i : Z) : Prop := i = N - 1 \/ key (i + 1) <> key i.

Lemma key_lookup (i : Z) : 0 <= i < N -> keys !! Z.to_nat i = Some (key i).
Proof.
  intros Hi. unfold key. apply list_lookup_lookup_total_lt. unfold N in Hi. lia.
Qed.

Lemma key_range (i : Z) : 0 <= i < N -> 0 <= key i < M.
Proof.
  intros Hi. pose proof (key_lookup i Hi) as E.
  rewrite Forall_lookup in keys_range. exact (keys_range _ _ E).
Qed.

Lemma key_read (i : Z) : 0 <= i < N -> aread keys i = Done (key i).
Proof. intros Hi. apply aread_lookup; [lia | now apply key_lookup]. Qed.

(** One thread of [kernIdentifyCellStartEnd]. *)
Lemma identify_thread (i : Z) (st en : list Z) :
  0 <= i < N -> Z.of_nat (length st) = M -> Z.of_nat (length en) = M ->
  exists st' en',
    kernIdentifyCellStartEnd N keys i (st, en) = Done (st', en') /\
    ((opens i /\ st' = <[Z.to_nat (key i) := i]> st) \/ (~ opens i /\ st' = st)) /\
    ((closes i /\ en' = <[Z.to_nat (key i) := i + 1]> en) \/ (~ closes i /\ en' = en)).
Proof.
  intros Hi Hst Hen. unfold kernIdentifyCellStartEnd.
  destruct (Z.geb_spec i N); [lia|].
  pose proof (key_range i Hi) as Hk.
  assert (Hfirst :
    exists b : bool,
      (if i =? 0 then mret true
       else prev ← aread keys (i - 1); cur ← aread keys i;
            mret (negb (prev =? cur))) = Done b /\
      (b = true <-> opens i)).
  { destruct (Z.eqb_spec i 0) as [->|Hne].
    - exists true. split; [reflexivity|]. unfold opens. tauto.
    - rewrite (key_read (i - 1)), (key_read i) by lia. simpl.
      eexists. split; [reflexivity|]. unfold opens.
      destruct (Z.eqb_spec (key (i - 1)) (key i)) as [Ek|Ek]; simpl.
      + split; [discriminate|]. intros [?|?]; [lia|contradiction].
      + split; [intros _; right; exact Ek | reflexivity]. }
  assert (Hlast :
    exists b : bool,
      (if i =? N - 1 then mret true
       else next ← aread keys (i + 1); cur ← aread keys i;
            mret (negb (next =? cur))) = Done b /\
      (b = true <-> closes i)).
  { destruct (Z.eqb_spec i (N - 1)) as [->|Hne].
    - exists true. split; [reflexivity|]. unfold closes. tauto.
    - rewrite (key_read (i + 1)), (key_read i) by lia. simpl.
      eexists. split; [reflexivity|]. unfold closes.
      destruct (Z.eqb_spec (key (i + 1)) (key i)) as [Ek|Ek]; simpl.
      + split; [discriminate|]. intros [?|?]; [lia|contradiction].
      + split; [intros _; right; exact Ek | reflexivity]. }
  destruct Hfirst as (b1 & E1 & Hb1). destruct Hlast as (b2 & E2 & Hb2).
  rewrite E1, obind_ret.
  assert (Hw1 : exists st',
    (if b1 then cur ← aread keys i; awrite st cur i else mret st) = Done st' /\
    ((opens i /\ st' = <[Z.to_nat (key i) := i]> st) \/ (~ opens i /\ st' = st))).
  { destruct b1.
    - rewrite (key_read i Hi), obind_ret, awrite_ok by lia.
      eexists. split; [reflexivity|]. left. tauto.
    - exists st. split; [reflexivity|]. right. split; [|reflexivity].
      intros Hc. apply Hb1 in Hc. discriminate. }
  assert (Hw2 : exists en',
    (if b2 then cur ← aread keys i; awrite en cur (i + 1) else mret en) = Done en' /\
    ((closes i /\ en' = <[Z.to_nat (key i) := i + 1]> en) \/ (~ closes i /\ en' = en))).
  { destruct b2.
    - rewrite (key_read i Hi), obind_ret, awrite_ok by lia.
      eexists. split; [reflexivity|]. left. tauto.
    - exists en. split; [reflexivity|]. right. split; [|reflexivity].
      intros Hc. apply Hb2 in Hc. discriminate. }
  destruct Hw1 as (st' & E3 & Hs). destruct Hw2 as (en' & E4 & He).
  rewrite E3, obind_ret, E2, obind_ret, E4, obind_ret.
  exists st', en'. split; [reflexivity|]. split; assumption.
Qed.

(** What a table cell may hold while the threads run: the sentinel as
    long as no thread that ran marks the cell, or the mark of a thread. *)
Let marked (mark : Z -> Prop) (shift : Z) (pre : list Z) (tbl : list Z) : Prop :=
  forall (c : nat) (v : Z), tbl !! c = Some v ->
    (v = -1 /\ forall i, i ∈ pre -> 0 <= i < N -> mark i -> key i <> Z.of_nat c) \/
    (0 <= v - shift < N /\ mark (v - shift) /\ key (v - shift) = Z.of_nat c).

Lemma marked_skip mark shift pre a tbl :
  marked mark shift pre tbl -> (0 <= a < N -> ~ mark a) ->
  marked mark shift (pre ++ [a]) tbl.
Proof.
  intros Hm Ha c v E. destruct (Hm c v E) as [[-> Hl]|Hr]; [left|right; exact Hr].
  split; [reflexivity|]. intros i Hi Hr Hmk.
  apply elem_of_app in Hi as [Hi|Hi]; [now apply Hl|].
  apply list_elem_of_singleton in Hi. subst. tauto.
Qed.

Lemma marked_write mark shift pre a tbl :
  marked mark shift pre tbl -> 0 <= a < N -> mark a ->
  marked mark shift (pre ++ [a]) (<[Z.to_nat (key a) := a + shift]> tbl).
Proof.
  intros Hm Ha Hmk c v E.
  pose proof (key_range a Ha) as Hk.
  destruct (decide (c = Z.to_nat (key a))) as [->|Hne].
  - apply list_lookup_insert_Some in E as [(_ & <- & _)|(Hc & _)]; [|congruence].
    right. replace (a + shift - shift) with a by lia.
    split; [lia|]. split; [exact Hmk | lia].
  - rewrite list_lookup_insert_ne in E by auto.
    destruct (Hm c v E) as [[-> Hl]|Hr]; [left|right; exact Hr].
    split; [reflexivity|]. intros i Hi Hr Hmi.
    apply elem_of_app in Hi as [Hi|Hi]; [now apply Hl|].
    apply list_elem_of_singleton in Hi. subst. lia.
Qed.

(** Whatever the schedule, the launch of [kernIdentifyCellStartEnd] on
    tables that hold the sentinel leaves only marks of opening and
    closing positions. *)
Lemma identify_sched (sched : list Z) (st0 en0 : list Z) :
  sched ≡ₚ threads (fullBlocks N) ->
  Z.of_nat (length st0) = M -> Z.of_nat (length en0) = M ->
  marked opens 0 [] st0 -> marked closes 1 [] en0 ->
  exists st en,
    launch_sched sched (kernIdentifyCellStartEnd N keys) (st0, en0) = Done (st, en) /\
    Z.of_nat (length st) = M /\ Z.of_nat (length en) = M /\
    marked opens 0 sched st /\ marked closes 1 sched en.
Proof.
  intros Hp Hst Hen Hm1 Hm2. unfold launch_sched.
  destruct (ofold_inv (kernIdentifyCellStartEnd N keys)
    (fun pre t => Z.of_nat (length t.1) = M /\ Z.of_nat (length t.2) = M /\
       marked opens 0 pre t.1 /\ marked closes 1 pre t.2)
    sched (st0, en0)) as ([st en] & E & H1 & H2 & H3 & H4).
  - simpl. auto.
  - intros pre a post [st en] E (H1 & H2 & H3 & H4).
    cbn [fst snd] in H1, H2, H3, H4.
    assert (Ha : 0 <= a).
    { apply (sched_nonneg sched _ a Hp). rewrite E.
      apply elem_of_app. right. left. }
    destruct (decide (a < N)) as [Hlt|Hge].
    + destruct (identify_thread a st en) as (st' & en' & -> & Hs & He); auto.
      exists (st', en'). split; [reflexivity|]. cbn [fst snd].
      destruct Hs as [[Ho ->]|[Ho ->]], He as [[Hc ->]|[Hc ->]];
        rewrite ?length_insert; repeat split; auto.
      all: try (apply marked_skip; tauto).
      all: try (apply marked_write; [assumption | lia | assumption]).
      all: apply (marked_write opens 0 pre a) in H3; [|lia|assumption];
           rewrite Z.add_0_r in H3; exact H3.
    + exists (st, en). split.
      * unfold kernIdentifyCellStartEnd. destruct (Z.geb_spec a N); [reflexivity|lia].
      * cbn [fst snd]. repeat split; auto; apply marked_skip; auto; lia.
  - exists st, en. auto.
Qed.

Hypothesis keys_sorted : Sorted Z.le keys.

Lemma key_mono (i j : Z) : 0 <= i <= j -> j < N -> key i <= key j.
Proof.
  intros Hi Hj.
  apply (Sorted_lookup_le keys (Z.to_nat i) (Z.to_nat j)); auto;
    [lia | apply key_lookup; lia | apply key_lookup; lia].
Qed.

(** A cell that occurs has an opening and a closing position. *)
Lemma opens_exists (c : Z) (j : Z) :
  0 <= j < N -> key j = c -> exists i, 0 <= i <= j /\ opens i /\ key i = c.
Proof.
  intros Hj. rewrite <- (Z2Nat.id j) in * by lia.
  induction (Z.to_nat j) as [|n IH]; intros E.
  - exists 0. unfold opens. auto with lia.
  - destruct (decide (key (Z.of_nat n) = c)) as [Ek|Ek].
    + destruct IH as (i & Hi & Ho & Eki); [lia|exact Ek|].
      exists i. auto with lia.
    + exists (Z.of_nat (S n)). split; [lia|]. split; [|exact E].
      right. replace (Z.of_nat (S n) - 1) with (Z.of_nat n) by lia. congruence.
Qed.

Lemma closes_exists (c : Z) (j : Z) :
  0 <= j < N -> key j = c -> exists i, j <= i < N /\ closes i /\ key i = c.
Proof.
  intros Hj. replace j with (N - 1 - Z.of_nat (Z.to_nat (N - 1 - j))) in * by lia.
  induction (Z.to_nat (N - 1 - j)) as [|n IH]; intros E.
  - exists (N - 1). unfold closes. rewrite Z.sub_0_r in E. auto with lia.
  - destruct (decide (key (N - 1 - Z.of_nat n) = c)) as [Ek|Ek].
    + destruct IH as (i & Hi & Ho & Eki); [lia|exact Ek|].
      exists i. auto with lia.
    + exists (N - 1 - Z.of_nat (S n)). split; [lia|]. split; [|exact E].
      right. replace (N - 1 - Z.of_nat (S n) + 1) with (N - 1 - Z.of_nat n) by lia.
      congruence.
Qed.

(** An opening and a closing position of the same cell delimit it. *)
Lemma opens_closes_occupies (c a b : Z) :
  0 <= a < N -> opens a -> key a = c ->
  0 <= b - 1 < N -> closes (b - 1) -> key (b - 1) = c ->
  occupies keys c a b.
Proof.
  intros Ha Hoa Eka Hb Hcb Ekb.
  assert (Hbelow : forall j, 0 <= j < a -> key j < c).
  { intros j Hj. destruct Hoa as [->|Hne]; [lia|].
    pose proof (key_mono j (a - 1) ltac:(lia) ltac:(lia)).
    pose proof (key_mono (a - 1) a ltac:(lia) ltac:(lia)). lia. }
  assert (Habove : forall j, b <= j < N -> c < key j).
  { intros j Hj. destruct Hcb as [E|Hne]; [lia|].
    replace (b - 1 + 1) with b in Hne by lia.
    pose proof (key_mono b j ltac:(lia) ltac:(lia)).
    pose proof (key_mono (b - 1) b ltac:(lia) ltac:(lia)). lia. }
  assert (Hab : a < b).
  { destruct (decide (a < b)); [assumption|].
    specialize (Hbelow (b - 1) ltac:(lia)). lia. }
  split; [lia|]. split; [fold N; lia|].
  intros j. split.
  - intros E. pose proof (lookup_lt_Some _ _ _ E) as Hlt.
    assert (Hj : 0 <= Z.of_nat j < N) by (unfold N; lia).
    assert (Ekj : key (Z.of_nat j) = c).
    { pose proof (key_lookup _ Hj) as E'. rewrite Nat2Z.id in E'. congruence. }
    destruct (decide (Z.of_nat j < a)).
    { specialize (Hbelow (Z.of_nat j) ltac:(lia)). lia. }
    destruct (decide (b <= Z.of_nat j)).
    { specialize (Habove (Z.of_nat j) ltac:(lia)). lia. }
    lia.
  - intros Hj.
    pose proof (key_lookup (Z.of_nat j) ltac:(lia)) as E.
    rewrite Nat2Z.id in E. rewrite E. f_equal.
    pose proof (key_mono a (Z.of_nat j) ltac:(lia) ltac:(lia)).
    pose proof (key_mono (Z.of_nat j) (b - 1) ltac:(lia) ltac:(lia)). lia.
Qed.

(** The three launches, whatever their schedules. *)
Lemma buildCellRanges_sched_correct (s1 s2 s3 : list Z) (tables : list Z * list Z) :
  Z.of_nat (length tables.1) = M -> Z.of_nat (length tables.2) = M ->
  s1 ≡ₚ threads (fullBlocks M) -> s2 ≡ₚ threads (fullBlocks M) ->
  s3 ≡ₚ threads (fullBlocks N) ->
  exists starts ends,
    buildCellRanges_sched s1 s2 s3 M N keys tables = Done (starts, ends) /\
    range_table M keys starts ends.
Proof.
  destruct tables as [st0 en0]. simpl. intros Hst Hen Hp1 Hp2 Hp3.
  unfold buildCellRanges_sched.
  rewrite (reset_sched M (-1) s1 st0 Hst Hp1). simpl.
  rewrite (reset_sched M (-1) s2 en0 Hen Hp2). simpl.
  destruct (identify_sched s3 (replicate (length st0) (-1))
              (replicate (length en0) (-1)))
    as (st & en & -> & H1 & H2 & H3 & H4); auto.
  { rewrite length_replicate. exact Hst. }
  { rewrite length_replicate. exact Hen. }
  { intros c v E. apply lookup_replicate in E as [-> _]. left.
    split; [reflexivity|]. intros i Hi. inversion Hi. }
  { intros c v E. apply lookup_replicate in E as [-> _]. left.
    split; [reflexivity|]. intros i Hi. inversion Hi. }
  exists st, en. split; [reflexivity|].
  split; [exact H1|]. split; [exact H2|].
  intros c Hc.
  destruct (lookup_lt_is_Some_2 st (Z.to_nat c) ltac:(lia)) as [a Ea].
  destruct (lookup_lt_is_Some_2 en (Z.to_nat c) ltac:(lia)) as [b Eb].
  exists a, b. split; [exact Ea|]. split; [exact Eb|].
  assert (HN : 0 <= N) by (unfold N; lia).
  destruct (decide (c ∈ keys)) as [Hin|Hnin].
  - left. split; [exact Hin|].
    apply list_elem_of_lookup in Hin as [j Ej].
    pose proof (lookup_lt_Some _ _ _ Ej) as Hj.
    assert (Ekj : key (Z.of_nat j) = c).
    { pose proof (key_lookup (Z.of_nat j) ltac:(unfold N; lia)) as E'.
      rewrite Nat2Z.id in E'. congruence. }
    destruct (opens_exists c (Z.of_nat j) ltac:(unfold N; lia) Ekj)
      as (io & Hio & Hoo & Eko).
    destruct (closes_exists c (Z.of_nat j) ltac:(unfold N; lia) Ekj)
      as (ic & Hic & Hcc & Ekc).
    destruct (H3 _ _ Ea) as [[_ Hl]|(Hr1 & Hr2 & Hr3)].
    { exfalso. apply (Hl io);
        [apply (sched_threads s3 N); auto; lia | lia | assumption | lia]. }
    destruct (H4 _ _ Eb) as [[_ Hl]|(Hr4 & Hr5 & Hr6)].
    { exfalso. apply (Hl ic);
        [apply (sched_threads s3 N); auto; lia | lia | assumption | lia]. }
    rewrite Z.sub_0_r in *.
    apply opens_closes_occupies; auto; lia.
  - right. split; [exact Hnin|].
    assert (Hno : forall i, 0 <= i < N -> key i <> c).
    { intros i Hi E. apply Hnin. rewrite <- E.
      eapply list_elem_of_lookup_2. apply key_lookup. exact Hi. }
    split.
    + destruct (H3 _ _ Ea) as [[-> _]|(Hr1 & _ & Hr3)]; [reflexivity|].
      exfalso. apply (Hno _ Hr1). lia.
    + destruct (H4 _ _ Eb) as [[-> _]|(Hr1 & _ & Hr3)]; [reflexivity|].
      exfalso. apply (Hno _ Hr1). lia.
Qed.

End IdentifyCellStartEnd.

(** C5.  After both tables are reset to the sentinel -1 and the
    boundary scan has run on a sorted cell-index array, [start[c]] is the
    first sorted position of every occupied cell [c] and [end[c]] is one
    past its last, and every other cell holds the sentinel; this holds
    for every order in which the threads of the three launches run.  In
    particular the tables of the sorted array {4,4,5,9,9} over 10 cells
    are start[4]=0, end[4]=2, start[5]=2, end[5]=3, start[9]=3, end[9]=5
    and -1 everywhere else. *)
Theorem cell_range_table :
  (forall (M : Z) (keys s1 s2 s3 : list Z) (tables : list Z * list Z),
     Sorted Z.le keys ->
     Forall (fun k => 0 <= k < M) keys ->
     Z.of_nat (length tables.1) = M -> Z.of_nat (length tables.2) = M ->
     s1 ≡ₚ threads (fullBlocks M) -> s2 ≡ₚ threads (fullBlocks M) ->
     s3 ≡ₚ threads (fullBlocks (Z.of_nat (length keys))) ->
     exists starts ends,
       buildCellRanges_sched s1 s2 s3 M (Z.of_nat (length keys)) keys tables
         = Done (starts, ends) /\
       range_table M keys starts ends)
  /\
  (forall tables : list Z * list Z,
     length tables.1 = 10%nat -> length tables.2 = 10%nat ->
     buildCellRanges 10 5 [4; 4; 5; 9; 9] tables
     = Done ([-1; -1; -1; -1; 0; 2; -1; -1; -1; 3],
             [-1; -1; -1; -1; 2; 3; -1; -1; -1; 5])).
Proof.
  split.
  - intros M keys s1 s2 s3 tables Hsorted Hrange H1 H2 Hp1 Hp2 Hp3.
    now apply buildCellRanges_sched_correct.
  - intros [st en] H1 H2. simpl in H1, H2.
    do 11 (destruct st as [|? st]; try discriminate H1).
    do 11 (destruct en as [|? en]; try discriminate H2).
    vm_compute. reflexivity.
Qed.

Lemma cell_range_table_witness :
  exists starts ends,
    buildCellRanges_sched (threads (fullBlocks 10))
      (reverse (threads (fullBlocks 10))) (reverse (threads (fullBlocks 5)))
      10 5 [4; 4; 5; 9; 9] (replicate 10 0, replicate 10 7)
      = Done (starts, ends) /\
    range_table 10 [4; 4; 5; 9; 9] starts ends.
Proof.
  apply (proj1 cell_range_table 10 [4; 4; 5; 9; 9]).
  - repeat constructor; lia.
  - repeat constructor; lia.
  - reflexivity.
  - reflexivity.
  - reflexivity.
  - apply reverse_Permutation.
  - apply reverse_Permutation.
Defined.

(** ** The coherent layout *)

Lemma lookup_gather {V : Type} (idx : list Z) (arr : list V) (i : nat) (k : Z) :
  Forall (fun k => 0 <= k < Z.of_nat (length arr)) idx ->
  idx !! i = Some k -> gather idx arr !! i = arr !! Z.to_nat k.
Proof.
  revert i k. induction idx as [|k0 idx IH]; intros i k Hall E.
  - rewrite lookup_nil in E. discriminate.
  - inversion Hall as [|? ? Hk0 Hall']. subst.
    destruct (lookup_lt_is_Some_2 arr (Z.to_nat k0) ltac:(lia)) as [x Ex].
    unfold gather. simpl. destruct (Z.ltb_spec k0 0); [lia|]. rewrite Ex.
    destruct i as [|i]; simpl in *.
    + inversion E. subst. now rewrite Ex.
    + apply IH; auto.
Qed.

Lemma length_gather {V : Type} (idx : list Z) (arr : list V) :
  Forall (fun k => 0 <= k < Z.of_nat (length arr)) idx ->
  length (gather idx arr) = length idx.
Proof.
  induction 1 as [|k0 idx Hk0 Hall IH]; [reflexivity|].
  destruct (lookup_lt_is_Some_2 arr (Z.to_nat k0) ltac:(lia)) as [x Ex].
  unfold gather. simpl. destruct (Z.ltb_spec k0 0); [lia|]. rewrite Ex.
  simpl. f_equal. exact IH.
Qed.

Lemma is_permutation_length (N : Z) (idx : list Z) :
  is_permutation N idx -> length idx = Z.to_nat N.
Proof.
  intros Hp. rewrite (Permutation_length Hp), length_zrange. f_equal. lia.
Qed.

Lemma is_permutation_range (N : Z) (idx : list Z) :
  is_permutation N idx -> Forall (fun k => 0 <= k < N) idx.
Proof.
  intros Hp. apply Forall_forall. intros k Hk. rewrite Hp in Hk.
  now apply elem_of_zrange in Hk.
Qed.

Lemma is_permutation_inj (N : Z) (idx : list Z) (i j : nat) (k : Z) :
  is_permutation N idx -> idx !! i = Some k -> idx !! j = Some k -> i = j.
Proof.
  intros Hp. apply NoDup_lookup. rewrite Hp. apply NoDup_zrange.
Qed.

Lemma is_permutation_surj (N : Z) (idx : list Z) (k : Z) :
  is_permutation N idx -> 0 <= k < N -> exists i, idx !! i = Some k.
Proof.
  intros Hp Hk. apply list_elem_of_lookup. rewrite Hp. now apply elem_of_zrange.
Qed.

Section Coherent.

Context {V : Type}.
Variable idx : list Z.
Let N : Z := Z.of_nat (length idx).

(** [kernFillCoherentArrays], whatever the schedule. *)
Lemma fillCoherent_sched (sched : list Z) (pos vel cpos0 cvel0 : list V) :
  Forall (fun k => 0 <= k < Z.of_nat (length pos)) idx ->
  length vel = length pos ->
  length cpos0 = length idx -> length cvel0 = length idx ->
  sched ≡ₚ threads (fullBlocks N) ->
  launch_sched sched (kernFillCoherentArrays N idx pos vel) (cpos0, cvel0)
  = Done (gather idx pos, gather idx vel).
Proof.
  intros Hall Hvel Hc1 Hc2 Hp. unfold launch_sched.
  assert (Hall' : Forall (fun k => 0 <= k < Z.of_nat (length vel)) idx)
    by now rewrite Hvel.
  destruct (ofold_inv (kernFillCoherentArrays N idx pos vel)
    (fun pre t => length t.1 = length idx /\ length t.2 = length idx /\
       forall i : nat, Z.of_nat i ∈ pre -> (i < length idx)%nat ->
         t.1 !! i = gather idx pos !! i /\ t.2 !! i = gather idx vel !! i)
    sched (cpos0, cvel0)) as ([cp cv] & E & H1 & H2 & H3).
  - cbn [fst snd]. repeat split; auto; inversion H.
  - intros pre a post [cp cv] E (H1 & H2 & H3). cbn [fst snd] in H1, H2, H3.
    assert (Ha : 0 <= a).
    { apply (sched_nonneg sched _ a Hp). rewrite E.
      apply elem_of_app. right. left. }
    unfold kernFillCoherentArrays. cbv beta iota. destruct (Z.geb_spec a N) as [Hge|Hlt].
    + exists (cp, cv). split; [reflexivity|]. cbn [fst snd].
      repeat split; auto; apply elem_of_app in H as [Hi|Hi];
        try (now apply H3); apply list_elem_of_singleton in Hi; unfold N in Hge; lia.
    + unfold N in Hlt.
      destruct (lookup_lt_is_Some_2 idx (Z.to_nat a) ltac:(lia)) as [k Ek].
      pose proof (proj1 (Forall_lookup _ _) Hall _ _ Ek) as Hk. cbn beta in Hk.
      destruct (lookup_lt_is_Some_2 pos (Z.to_nat k) ltac:(lia)) as [p Ep].
      destruct (lookup_lt_is_Some_2 vel (Z.to_nat k) ltac:(lia)) as [v Ev].
      eexists. split.
      { rewrite (aread_lookup idx a k), obind_ret by (auto; lia).
        rewrite (aread_lookup pos k p), obind_ret by (auto; lia).
        rewrite awrite_ok, obind_ret by lia. rewrite obind_ret.
        rewrite (aread_lookup vel k v), obind_ret by (auto; lia).
        rewrite awrite_ok, obind_ret by lia. reflexivity. }
      cbn [fst snd].
      rewrite !length_insert. split; [exact H1|]. split; [exact H2|].
      intros i Hi Hlti. destruct (decide (i = Z.to_nat a)) as [->|Hne].
      * rewrite !list_lookup_insert_eq by lia.
        rewrite (lookup_gather idx pos _ k), (lookup_gather idx vel _ k); auto.
      * rewrite !list_lookup_insert_ne by auto. apply H3; [|exact Hlti].
        apply elem_of_app in Hi as [Hi|Hi]; [exact Hi|].
        apply list_elem_of_singleton in Hi. lia.
  - rewrite E. cbn [fst snd] in H1, H2, H3. f_equal.
    assert (forall i : nat, (i < length idx)%nat ->
              cp !! i = gather idx pos !! i /\ cv !! i = gather idx vel !! i).
    { intros i Hi. apply H3; [|exact Hi].
      apply (sched_threads sched N); auto; unfold N; lia. }
    f_equal; apply list_eq; intros i;
      (destruct (decide (i < length idx)%nat); [now apply H|]);
      rewrite !lookup_ge_None_2; auto; rewrite ?length_gather; auto; lia.
Qed.

Hypothesis idx_perm : is_permutation N idx.

(** [kernFillOriginalArrays], whatever the schedule: slot [idx[i]] of
    the result holds element [i] of the coherent arrays. *)
Lemma fillOriginal_sched (sched : list Z) (cpos cvel pos0 vel0 : list V) :
  length cpos = length idx -> length cvel = length idx ->
  length pos0 = length idx -> length vel0 = length idx ->
  sched ≡ₚ threads (fullBlocks N) ->
  exists pos vel,
    launch_sched sched (kernFillOriginalArrays N idx cpos cvel) (pos0, vel0)
    = Done (pos, vel) /\
    length pos = length idx /\ length vel = length idx /\
    forall (i : nat) (k : Z), idx !! i = Some k ->
      pos !! Z.to_nat k = cpos !! i /\ vel !! Z.to_nat k = cvel !! i.
Proof.
  intros Hc1 Hc2 Hp0 Hv0 Hp. unfold launch_sched.
  pose proof (is_permutation_range N idx idx_perm) as Hrange.
  destruct (ofold_inv (kernFillOriginalArrays N idx cpos cvel)
    (fun pre t => length t.1 = length idx /\ length t.2 = length idx /\
       forall (i : nat) (k : Z), Z.of_nat i ∈ pre -> idx !! i = Some k ->
         t.1 !! Z.to_nat k = cpos !! i /\ t.2 !! Z.to_nat k = cvel !! i)
    sched (pos0, vel0)) as ([p v] & E & H1 & H2 & H3).
  - cbn [fst snd]. repeat split; auto; inversion H.
  - intros pre a post [p v] E (H1 & H2 & H3). cbn [fst snd] in H1, H2, H3.
    assert (Ha : 0 <= a).
    { apply (sched_nonneg sched _ a Hp). rewrite E.
      apply elem_of_app. right. left. }
    unfold kernFillOriginalArrays. cbv beta iota. destruct (Z.geb_spec a N) as [Hge|Hlt].
    + exists (p, v). split; [reflexivity|]. cbn [fst snd].
      split; [exact H1|]. split; [exact H2|].
      intros i k Hi Ei. apply elem_of_app in Hi as [Hi|Hi]; [now apply H3|].
      apply list_elem_of_singleton in Hi.
      pose proof (lookup_lt_Some _ _ _ Ei). unfold N in Hge. lia.
    + unfold N in Hlt.
      destruct (lookup_lt_is_Some_2 idx (Z.to_nat a) ltac:(lia)) as [k Ek].
      pose proof (proj1 (Forall_lookup _ _) Hrange _ _ Ek) as Hk. cbn beta in Hk.
      unfold N in Hk.
      destruct (lookup_lt_is_Some_2 cpos (Z.to_nat a) ltac:(lia)) as [x Ex].
      destruct (lookup_lt_is_Some_2 cvel (Z.to_nat a) ltac:(lia)) as [y Ey].
      eexists. split.
      { rewrite (aread_lookup idx a k), obind_ret by (auto; lia).
        rewrite (aread_lookup cpos a x), obind_ret by (auto; lia).
        rewrite awrite_ok, obind_ret by lia. rewrite obind_ret.
        rewrite (aread_lookup cvel a y), obind_ret by (auto; lia).
        rewrite awrite_ok, obind_ret by lia. reflexivity. }
      cbn [fst snd].
      rewrite !length_insert. split; [exact H1|]. split; [exact H2|].
      intros i k' Hi Ei. destruct (decide (i = Z.to_nat a)) as [->|Hne].
      * assert (k' = k) by congruence. subst k'.
        rewrite !list_lookup_insert_eq by lia. rewrite Ex, Ey. auto.
      * assert (Hkk : Z.to_nat k <> Z.to_nat k').
        { intros Ekk.
          pose proof (proj1 (Forall_lookup _ _) Hrange _ _ Ei) as Hk'.
          cbn beta in Hk'. assert (k = k') by lia. subst k'.
          apply Hne. exact (is_permutation_inj N idx i (Z.to_nat a) k idx_perm Ei Ek). }
        rewrite !list_lookup_insert_ne by auto. apply H3; [|exact Ei].
        apply elem_of_app in Hi as [Hi|Hi]; [exact Hi|].
        apply list_elem_of_singleton in Hi. lia.
  - exists p, v. cbn [fst snd] in H1, H2, H3.
    split; [exact E|]. split; [exact H1|]. split; [exact H2|].
    intros i k Ei. apply H3; [|exact Ei].
    pose proof (lookup_lt_Some _ _ _ Ei).
    apply (sched_threads sched N); auto; unfold N; lia.
Qed.

(** Gathering and scattering back. *)
Lemma gather_scatter_sched (s1 s2 : list Z) (pos vel c1 c2 p0 v0 : list V) :
  length pos = length idx -> length vel = length idx ->
  length c1 = length idx -> length c2 = length idx ->
  length p0 = length idx -> length v0 = length idx ->
  s1 ≡ₚ threads (fullBlocks N) -> s2 ≡ₚ threads (fullBlocks N) ->
  (launch_sched s1 (kernFillCoherentArrays N idx pos vel) (c1, c2) ≫= fun c =>
   launch_sched s2 (kernFillOriginalArrays N idx c.1 c.2) (p0, v0))
  = Done (pos, vel).
Proof.
  intros Hpos Hvel Hc1 Hc2 Hp0 Hv0 Hs1 Hs2.
  pose proof (is_permutation_range N idx idx_perm) as Hrange.
  assert (Hr1 : Forall (fun k => 0 <= k < Z.of_nat (length pos)) idx)
    by (rewrite Hpos; exact Hrange).
  assert (Hr2 : Forall (fun k => 0 <= k < Z.of_nat (length vel)) idx)
    by (rewrite Hvel; exact Hrange).
  rewrite (fillCoherent_sched s1 pos vel c1 c2) by (auto; congruence).
  rewrite obind_ret. cbn [fst snd].
  destruct (fillOriginal_sched s2 (gather idx pos) (gather idx vel) p0 v0)
    as (p & v & -> & H1 & H2 & H3); auto using length_gather.
  assert (Hsame : forall j : nat, (j < length idx)%nat ->
            p !! j = pos !! j /\ v !! j = vel !! j).
  { intros j Hj.
    destruct (is_permutation_surj N idx (Z.of_nat j) idx_perm) as [i Ei];
      [unfold N; lia|].
    destruct (H3 i _ Ei) as [Ep Ev]. rewrite Nat2Z.id in Ep, Ev.
    rewrite Ep, Ev.
    rewrite (lookup_gather idx pos i _ Hr1 Ei), (lookup_gather idx vel i _ Hr2 Ei).
    now rewrite Nat2Z.id. }
  f_equal. f_equal; apply list_eq; intros j;
    (destruct (decide (j < length idx)%nat); [now apply Hsame|]);
    rewrite !lookup_ge_None_2; auto; lia.
Qed.

End Coherent.

(** C8.  For every permutation held by [particleArrayIndices] and all
    positions and velocities, filling the coherent buffers
    ([coherent[i] = original[particleArrayIndices[i]]]) and then filling
    the original buffers back
    ([original[particleArrayIndices[i]] = coherent[i]]), with nothing in
    between, gives back exactly the original positions and velocities,
    whatever the buffers held before and in whatever order the threads of
    the two launches run. *)
Theorem coherent_roundtrip {V : Type} (N : Z)
    (particleArrayIndices s1 s2 : list Z)
    (pos vel coherentPos coherentVel pos0 vel0 : list V) :
  is_permutation N particleArrayIndices -> 0 <= N ->
  Z.of_nat (length pos) = N -> Z.of_nat (length vel) = N ->
  Z.of_nat (length coherentPos) = N -> Z.of_nat (length coherentVel) = N ->
  Z.of_nat (length pos0) = N -> Z.of_nat (length vel0) = N ->
  s1 ≡ₚ threads (fullBlocks N) -> s2 ≡ₚ threads (fullBlocks N) ->
  (launch_sched s1 (kernFillCoherentArrays N particleArrayIndices pos vel)
     (coherentPos, coherentVel) ≫= fun coherent =>
   launch_sched s2
     (kernFillOriginalArrays N particleArrayIndices coherent.1 coherent.2)
     (pos0, vel0))
  = Done (pos, vel).
Proof.
  intros Hperm HN H1 H2 H3 H4 H5 H6 Hs1 Hs2.
  pose proof (is_permutation_length N _ Hperm) as Hlen.
  assert (EN : N = Z.of_nat (length particleArrayIndices)) by lia.
  rewrite EN in Hperm, Hs1, Hs2 |- *.
  apply gather_scatter_sched; auto; lia.
Qed.

Lemma coherent_roundtrip_witness :
  (launch_sched (threads (fullBlocks 5))
     (kernFillCoherentArrays 5 [0; 4; 1; 3; 2] [10; 11; 12; 13; 14]
        [20; 21; 22; 23; 24])
     (replicate 5 0, replicate 5 0) ≫= fun coherent =>
   launch_sched (reverse (threads (fullBlocks 5)))
     (kernFillOriginalArrays 5 [0; 4; 1; 3; 2] coherent.1 coherent.2)
     (replicate 5 0, replicate 5 0))
  = Done ([10; 11; 12; 13; 14], [20; 21; 22; 23; 24]).
Proof.
  apply (coherent_roundtrip 5 [0; 4; 1; 3; 2]); try reflexivity; try lia.
  - unfold is_permutation. apply (bool_decide_unpack _). vm_compute. reflexivity.
  - apply reverse_Permutation.
Defined.

(** ** Launches whose threads each fill their own slot *)

Lemma launch_sched_pointwise {A : Type} (N : Z) (kern : Z -> list A -> outcome (list A))
    (g : Z -> A) (s0 : list A) (sched : list Z) :
  NoDup sched -> (forall i, i ∈ sched -> 0 <= i) ->
  (forall i, 0 <= i < N -> i ∈ sched) ->
  Z.of_nat (length s0) = N ->
  (forall i s, N <= i -> kern i s = Done s) ->
  (forall i s, 0 <= i < N -> length s = length s0 ->
     s !! Z.to_nat i = s0 !! Z.to_nat i ->
     kern i s = Done (<[Z.to_nat i := g i]> s)) ->
  launch_sched sched kern s0 = Done (g <$> zrange 0 N).
Proof.
  intros Hnd Hpos Hcov Hlen Hskip Hstep. unfold launch_sched.
  destruct (ofold_inv kern
    (fun pre s => length s = length s0 /\
       (forall j : nat, Z.of_nat j ∈ pre -> Z.of_nat j < N ->
          s !! j = Some (g (Z.of_nat j))) /\
       (forall j : nat, Z.of_nat j ∉ pre -> s !! j = s0 !! j))
    sched s0) as (s & E & H1 & H2 & H3).
  - split; [reflexivity|]. split; [|reflexivity]. intros j Hj. inversion Hj.
  - intros pre a post s E (H1 & H2 & H3).
    assert (Ha : 0 <= a).
    { apply Hpos. rewrite E. apply elem_of_app. right. left. }
    assert (Hfresh : a ∉ pre).
    { rewrite E in Hnd. apply NoDup_app in Hnd as (_ & Hd & _).
      intros Hin. apply (Hd a Hin). left. }
    destruct (decide (a < N)) as [Hlt|Hge].
    + assert (Hsame : s !! Z.to_nat a = s0 !! Z.to_nat a).
      { apply H3. rewrite Z2Nat.id by lia. exact Hfresh. }
      rewrite (Hstep a s ltac:(lia) H1 Hsame).
      eexists. split; [reflexivity|].
      rewrite length_insert. split; [exact H1|]. split.
      * intros j Hj Hjn. destruct (decide (j = Z.to_nat a)) as [->|Hne].
        -- rewrite list_lookup_insert_eq by lia. now rewrite Z2Nat.id by lia.
        -- rewrite list_lookup_insert_ne by auto. apply H2; [|exact Hjn].
           apply elem_of_app in Hj as [Hj|Hj]; [exact Hj|].
           apply list_elem_of_singleton in Hj. lia.
      * intros j Hj. rewrite list_lookup_insert_ne.
        -- apply H3. intros Hin. apply Hj. apply elem_of_app. now left.
        -- intros Ej. subst j. apply Hj. apply elem_of_app. right.
           rewrite Z2Nat.id by lia. left.
    + rewrite Hskip by lia. exists s. split; [reflexivity|].
      split; [exact H1|]. split.
      * intros j Hj Hjn. apply H2; [|exact Hjn].
        apply elem_of_app in Hj as [Hj|Hj]; [exact Hj|].
        apply list_elem_of_singleton in Hj. lia.
      * intros j Hj. apply H3. intros Hin. apply Hj. apply elem_of_app. now left.
  - rewrite E. f_equal. apply list_eq. intros j.
    destruct (decide (Z.of_nat j < N)) as [Hlt|Hge].
    + rewrite list_lookup_fmap, lookup_zrange by lia. simpl.
      rewrite Z.add_0_l. apply H2; [|exact Hlt]. apply Hcov. lia.
    + rewrite !lookup_ge_None_2; auto; [|lia].
      rewrite length_fmap, length_zrange. lia.
Qed.

Lemma launch_pointwise {A : Type} (N : Z) (kern : Z -> list A -> outcome (list A))
    (g : Z -> A) (s0 : list A) :
  Z.of_nat (length s0) = N ->
  (forall i s, N <= i -> kern i s = Done s) ->
  (forall i s, 0 <= i < N -> length s = length s0 ->
     s !! Z.to_nat i = s0 !! Z.to_nat i ->
     kern i s = Done (<[Z.to_nat i := g i]> s)) ->
  launch (fullBlocks N) kern s0 = Done (g <$> zrange 0 N).
Proof.
  intros Hlen. apply launch_sched_pointwise; auto.
  - apply NoDup_zrange.
  - intros i. apply threads_nonneg.
  - intros i Hi. apply elem_of_threads; lia.
Qed.

Lemma fmap_zrange_lookup {A B : Type} (f : A -> B) (l : list A) (g : Z -> B) :
  (forall (j : nat) (x : A), l !! j = Some x -> g (Z.of_nat j) = f x) ->
  g <$> zrange 0 (Z.of_nat (length l)) = f <$> l.
Proof.
  intros Hg. apply list_eq. intros j. rewrite !list_lookup_fmap.
  destruct (l !! j) as [x|] eqn:E.
  - pose proof (lookup_lt_Some _ _ _ E).
    rewrite lookup_zrange by lia. simpl. rewrite Z.add_0_l. f_equal. now apply Hg.
  - apply lookup_ge_None_1 in E. rewrite lookup_ge_None_2; [reflexivity|].
    rewrite length_zrange. lia.
Qed.

(** ** Position integration *)

Section UpdatePos.

Context {F : Type} `{Scalar F}.

Lemma kernUpdatePos_launch (N : Z) (dt : F) (vel pos : list (vec3 F)) :
  Z.of_nat (length pos) = N -> Z.of_nat (length vel) = N ->
  launch (fullBlocks N) (kernUpdatePos N dt vel) pos
  = Done (zip_with (integrate dt) pos vel).
Proof.
  intros Hp Hv.
  rewrite (launch_pointwise N _
    (fun i => integrate dt (pos !!! Z.to_nat i) (vel !!! Z.to_nat i)) pos Hp).
  - f_equal. apply list_eq. intros j.
    rewrite list_lookup_fmap, lookup_zip_with.
    destruct (decide (Z.of_nat j < N)) as [Hlt|Hge].
    + rewrite lookup_zrange by lia. simpl. rewrite Z.add_0_l, Nat2Z.id.
      rewrite (list_lookup_lookup_total_lt pos j) by lia.
      rewrite (list_lookup_lookup_total_lt vel j) by lia. reflexivity.
    + rewrite (lookup_ge_None_2 (zrange 0 N)) by (rewrite length_zrange; lia).
      rewrite (lookup_ge_None_2 pos) by lia. reflexivity.
  - intros i s Hi. unfold kernUpdatePos.
    destruct (Z.geb_spec i N); [reflexivity | lia].
  - intros i s Hi Hlen Hsame. unfold kernUpdatePos.
    destruct (Z.geb_spec i N); [lia|].
    rewrite (aread_lookup s i (pos !!! Z.to_nat i)); [|lia|].
    2:{ rewrite Hsame. apply list_lookup_lookup_total_lt. lia. }
    rewrite obind_ret.
    rewrite (aread_lookup vel i (vel !!! Z.to_nat i)); [|lia|].
    2:{ apply list_lookup_lookup_total_lt. lia. }
    rewrite obind_ret. apply awrite_ok. lia.
Qed.

End UpdatePos.

Lemma ltb_true (a b : R) : (a < b)%R -> Exact.ltb a b = true.
Proof. intros Hab. unfold Exact.ltb. destruct (Rlt_dec a b); [reflexivity | lra]. Qed.

Lemma ltb_false (a b : R) : (b <= a)%R -> Exact.ltb a b = false.
Proof. intros Hab. unfold Exact.ltb. destruct (Rlt_dec a b); [lra | reflexivity]. Qed.

Lemma leb_true (a b : R) : (a <= b)%R -> Exact.leb a b = true.
Proof. intros Hab. unfold Exact.leb. destruct (Rle_dec a b); [reflexivity | lra]. Qed.

Lemma leb_false (a b : R) : (b < a)%R -> Exact.leb a b = false.
Proof. intros Hab. unfold Exact.leb. destruct (Rle_dec a b); [lra | reflexivity]. Qed.

Lemma wrapCoordinate_exact (c : R) :
  (c < -100 -> wrapCoordinate c = 100)%R /\
  (100 < c -> wrapCoordinate c = -100)%R /\
  (-100 <= c <= 100 -> wrapCoordinate c = c)%R.
Proof.
  unfold wrapCoordinate, wrapHigh, wrapLow, scene_scale.
  unfold fltb, fopp, fof_Z, Exact.scalar.
  repeat split; intros Hc.
  - rewrite (ltb_true c) by lra. now rewrite ltb_false by lra.
  - rewrite (ltb_false c) by lra. now rewrite ltb_true by lra.
  - rewrite (ltb_false c) by lra. now rewrite ltb_false by lra.
Qed.

(** C6, as the code has it.  Position integration adds velocity × dt to
    each coordinate and then treats each axis on its own: a coordinate
    that lands below -worldExtent is replaced by +worldExtent, one that
    lands above +worldExtent is replaced by -worldExtent, and any other
    coordinate is kept.  The particle re-enters on the opposite face
    (no reflection); the overshoot is not carried over. *)
Theorem position_integration_wrap (N : Z) (dt : R) (pos vel : list (vec3 R)) :
  Z.of_nat (length pos) = N -> Z.of_nat (length vel) = N ->
  launch (fullBlocks N) (kernUpdatePos N dt vel) pos
    = Done (zip_with (integrate dt) pos vel) /\
  (forall p v : vec3 R,
     integrate dt p v
     = Vec3 (wrapCoordinate (vx p + vx v * dt)%R)
            (wrapCoordinate (vy p + vy v * dt)%R)
            (wrapCoordinate (vz p + vz v * dt)%R)) /\
  (forall c : R,
     (c < -100 -> wrapCoordinate c = 100)%R /\
     (100 < c -> wrapCoordinate c = -100)%R /\
     (-100 <= c <= 100 -> wrapCoordinate c = c)%R).
Proof.
  intros Hp Hv. split; [now apply kernUpdatePos_launch|].
  split; [reflexivity | apply wrapCoordinate_exact].
Qed.

Lemma position_integration_wrap_witness :
  launch (fullBlocks 1) (kernUpdatePos 1 1%R [Vec3 1%R 0%R 0%R]) [Vec3 100%R 0%R 0%R]
    = Done (zip_with (integrate 1%R) [Vec3 100%R 0%R 0%R] [Vec3 1%R 0%R 0%R]) /\
  (forall p v : vec3 R,
     integrate 1%R p v
     = Vec3 (wrapCoordinate (vx p + vx v * 1)%R)
            (wrapCoordinate (vy p + vy v * 1)%R)
            (wrapCoordinate (vz p + vz v * 1)%R)) /\
  (forall c : R,
     (c < -100 -> wrapCoordinate c = 100)%R /\
     (100 < c -> wrapCoordinate c = -100)%R /\
     (-100 <= c <= 100 -> wrapCoordinate c = c)%R).
Proof.
  apply (position_integration_wrap 1 1%R); reflexivity.
Defined.

(** C6 as stated fails: a boid at x = 100 with velocity 1 and dt = 1
    lands at 101 = worldExtent + 1; the kernel puts it at -100, the
    toroidal wraparound at -99.  Both in single precision and in exact arithmetic. *)
Lemma wrap_discards_overshoot :
  let f := Binary32.of_Z in
  let pos := [Vec3 (f 100) (f 0) (f 0)] in
  let vel := [Vec3 (f 1) (f 0) (f 0)] in
  launch (fullBlocks 1) (kernUpdatePos 1 (f 1) vel) pos
    = Done [Vec3 (f (-100)) (f 0) (f 0)] /\
  zip_with (fun p v => vmap wrapToroidal (vadd p (vscale v (f 1)))) pos vel
    = [Vec3 (f (-99)) (f 0) (f 0)] /\
  launch (fullBlocks 1) (kernUpdatePos 1 (f 1) vel) pos
    <> Done (zip_with (fun p v => vmap wrapToroidal (vadd p (vscale v (f 1)))) pos vel) /\
  (wrapCoordinate (100 + 1 * 1) = -100 /\ wrapToroidal (100 + 1 * 1) = -99)%R.
Proof.
  split; [vm_compute; reflexivity|].
  split; [vm_compute; reflexivity|].
  split; [vm_compute; discriminate|].
  split.
  - apply wrapCoordinate_exact. lra.
  - unfold wrapToroidal, scene_scale.
    unfold fltb, fopp, fadd, fsub, fof_Z, Exact.scalar.
    rewrite ltb_true by lra. lra.
Qed.

(** ** Initialisation *)

Section Init.

Context {F : Type} `{Scalar F}.

Variable ok : nat -> bool.
Variable generateRandomVec3 : Z -> Z -> vec3 F.
Variable junkV : Z -> vec3 F.
Variable junkI : Z -> Z.

(** The grid parameters do not depend on the state at entry, except
    [gridMinimum]. *)
Lemma initGrid_cellCount (s s' : sim F) :
  gridCellCount (initGrid s) = gridCellCount (initGrid s').
Proof. reflexivity. Qed.

(** When every allocation succeeds, [initSimulation] returns. *)
Lemma initSimulation_returns (N : Z) (s : sim F) (rt : runtime) :
  (forall k : nat, (k < 9)%nat -> ok k = true) ->
  lastError rt = None ->
  exists s' : sim F,
    initSimulation ok generateRandomVec3 junkV junkI N s rt
    = (Runtime (live rt ++ allocRequests N (gridCellCount (initGrid s)))
         None (stderr rt),
       Returned s') /\
    numObjects s' = N /\
    gridCellCount s' = gridCellCount (initGrid s) /\
    gridSideCount s' = gridSideCount (initGrid s) /\
    gridCellWidth s' = gridCellWidth (initGrid s) /\
    gridInverseCellWidth s' = gridInverseCellWidth (initGrid s) /\
    gridMinimum s' = gridMinimum (initGrid s).
Proof.
  intros Hok Herr. destruct rt as [lv le er]. simpl in Herr. subst le.
  eexists. split.
  - unfold initSimulation, ALLOC, cudaMalloc, checkCUDAError.
    rewrite !Hok by lia.
    cbv [mbind mret host_bind host_ret live lastError stderr].
    rewrite <- !app_assoc. reflexivity.
  - repeat split.
Qed.

(** When allocation [k] is the first to fail, [initSimulation] prints
    the report of that allocation and exits; the allocations made before
    it stay. *)
Lemma initSimulation_exits (N : Z) (s : sim F) (rt : runtime) (k : nat) :
  (k < 9)%nat -> ok k = false ->
  (forall j : nat, (j < k)%nat -> ok j = true) ->
  lastError rt = None ->
  initSimulation ok generateRandomVec3 junkV junkI N s rt
  = (Runtime (live rt ++ take k (allocRequests N (gridCellCount (initGrid s))))
       None (stderr rt ++ default [] (allocReports !! k)),
     Exited EXIT_FAILURE).
Proof.
  intros Hk Hfail Hok Herr. destruct rt as [lv le er]. simpl in Herr. subst le.
  unfold initSimulation, ALLOC, cudaMalloc, checkCUDAError.
  do 9 (destruct k as [|k];
    [ rewrite Hfail;
      rewrite ?(Hok 0%nat), ?(Hok 1%nat), ?(Hok 2%nat), ?(Hok 3%nat),
        ?(Hok 4%nat), ?(Hok 5%nat), ?(Hok 6%nat), ?(Hok 7%nat) by lia;
      cbv [mbind mret host_bind host_ret live lastError stderr];
      rewrite <- ?app_assoc, ?app_nil_r; reflexivity | ]).
  lia.
Qed.

End Init.

(** C9, as the code has it.  If an allocation of [initSimulation]
    fails, and the ones before it succeeded, initialisation prints the
    source line and a message naming the failed allocation (with the
    runtime's error string; the requested size is not printed) and exits
    at once with [EXIT_FAILURE]; the buffers acquired before the failure
    are still allocated when the process exits. *)
Theorem failed_allocation_exits {F : Type} `{Scalar F}
    (ok : nat -> bool) (generateRandomVec3 : Z -> Z -> vec3 F)
    (junkV : Z -> vec3 F) (junkI : Z -> Z) (N : Z) (s : sim F)
    (rt : runtime) (k : nat) :
  (k < 9)%nat -> ok k = false ->
  (forall j : nat, (j < k)%nat -> ok j = true) ->
  lastError rt = None ->
  exists rt' : runtime,
    initSimulation ok generateRandomVec3 junkV junkI N s rt
      = (rt', Exited EXIT_FAILURE) /\
    stderr rt' = stderr rt ++ default [] (allocReports !! k) /\
    live rt' = live rt ++ take k (allocRequests N (gridCellCount (initGrid s))).
Proof.
  intros Hk Hfail Hok Herr.
  rewrite (initSimulation_exits ok generateRandomVec3 junkV junkI N s rt k)
    by assumption.
  eexists. split; [reflexivity|]. split; reflexivity.
Qed.

Lemma failed_allocation_exits_witness :
  let f := Binary32.of_Z in
  let s0 := Sim 0 [] [] [] [] [] [] [] [] [] 0 0 (f 0) (f 0) (Vec3 (f 0) (f 0) (f 0)) in
  exists rt' : runtime,
    initSimulation (fun k => negb (k =? 4)%nat)
      (fun _ _ => Vec3 (f 0) (f 0) (f 0)) (fun _ => Vec3 (f 0) (f 0) (f 0))
      (fun _ => 0) 50 s0 (Runtime [] None [])
      = (rt', Exited EXIT_FAILURE) /\
    stderr rt' = [] ++ default [] (allocReports !! 4%nat) /\
    live rt' = [] ++ take 4 (allocRequests 50 (gridCellCount (initGrid s0))).
Proof.
  intros f s0.
  apply (failed_allocation_exits (fun k => negb (k =? 4)%nat)
           (fun _ _ => Vec3 (f 0) (f 0) (f 0)) (fun _ => Vec3 (f 0) (f 0) (f 0))
           (fun _ => 0) 50 s0 (Runtime [] None []) 4%nat).
  - lia.
  - reflexivity.
  - intros j Hj. do 4 (destruct j as [|j]; [reflexivity|]). lia.
  - reflexivity.
Defined.

(** C9 as stated fails: when the second allocation fails for 1000 boids,
    [dev_pos] (12000 bytes) is still allocated at exit, and what is
    printed is the same as for a single boid: no size appears in it. *)
Lemma failed_allocation_leaves_buffers :
  let f := Binary32.of_Z in
  let s0 := Sim 0 [] [] [] [] [] [] [] [] [] 0 0 (f 0) (f 0) (Vec3 (f 0) (f 0) (f 0)) in
  let init N :=
    initSimulation (fun k => negb (k =? 1)%nat)
      (fun _ _ => Vec3 (f 0) (f 0) (f 0)) (fun _ => Vec3 (f 0) (f 0) (f 0))
      (fun _ => 0) N s0 (Runtime [] None []) in
  init 1000
    = (Runtime [Allocation "dev_pos" 12000] None
         [OutLine 172; OutCudaError "cudaMalloc dev_vel1 failed!" "out of memory"],
       Exited EXIT_FAILURE) /\
  ~ nothing_dangling (Runtime [] None []) (init 1000).1 /\
  stderr (init 1000).1 = stderr (init 1).1.
Proof.
  split; [vm_compute; reflexivity|].
  split; [vm_compute; discriminate | vm_compute; reflexivity].
Qed.

(** ** Exact arithmetic *)

Lemma Int_part_bounds (r : R) : (IZR (Int_part r) <= r < IZR (Int_part r) + 1)%R.
Proof. destruct (base_Int_part r). lra. Qed.

Lemma Int_part_IZR (z : Z) : Int_part (IZR z) = z.
Proof. symmetry. apply Int_part_spec. lra. Qed.

Lemma Int_part_range (a b : Z) (r : R) :
  (IZR a <= r < IZR b)%R -> a <= Int_part r < b.
Proof.
  intros [Ha Hb]. destruct (Int_part_bounds r) as [H1 H2]. split.
  - assert (IZR a < IZR (Int_part r + 1))%R by (rewrite plus_IZR; lra).
    apply lt_IZR in H. lia.
  - apply lt_IZR. lra.
Qed.

Lemma trunc_IZR (z : Z) : Exact.trunc (IZR z) = z.
Proof.
  unfold Exact.trunc. destruct (Rlt_dec (IZR z) 0).
  - rewrite <- opp_IZR, Int_part_IZR. lia.
  - apply Int_part_IZR.
Qed.

Lemma trunc_floor (r : R) : Exact.trunc (Exact.floor r) = Int_part r.
Proof. apply trunc_IZR. Qed.

Lemma fmax_Rmax (a b : R) : fmax a b = Rmax a b.
Proof.
  unfold fmax, Rmax. cbn [fltb Exact.scalar]. unfold Exact.ltb.
  destruct (Rlt_dec a b), (Rle_dec a b); try reflexivity; lra.
Qed.

(** ** Grid geometry *)

Lemma exact_cellWidth :
  fmul cell_width_mul (fmax (fmax rule1Distance rule2Distance) rule3Distance)
  = 10%R.
Proof.
  rewrite !fmax_Rmax. unfold cell_width_mul, rule1Distance, rule2Distance,
    rule3Distance. cbn [fmul fof_Z Exact.scalar].
  unfold Rmax. repeat destruct Rle_dec; lra.
Qed.

Lemma exact_halfSideCount : ftrunc (fdiv scene_scale 10%R) + 1 = 11.
Proof.
  unfold scene_scale. cbn [ftrunc fdiv fof_Z Exact.scalar].
  replace (100 / 10)%R with (IZR 10) by lra. now rewrite trunc_IZR.
Qed.

Lemma initGrid_exact (s : sim R) :
  gridCellWidth (initGrid s) = 10%R /\
  gridSideCount (initGrid s) = 22 /\
  gridCellCount (initGrid s) = 10648 /\
  gridInverseCellWidth (initGrid s) = (1 / 10)%R /\
  gridMinimum (initGrid s) = vmap (fun c => c - 110)%R (gridMinimum s).
Proof.
  unfold initGrid. cbn [gridCellWidth gridSideCount gridCellCount
    gridInverseCellWidth gridMinimum].
  rewrite !exact_cellWidth, !exact_halfSideCount.
  repeat split. unfold vmap. cbn [fsub fmul fof_Z Exact.scalar].
  f_equal; lra.
Qed.

Lemma getGridIndex_exact (p gridMin : vec3 R) (inv : R) :
  let rel := vscale (vsub p gridMin) inv in
  (0 <= vx rel)%R -> (0 <= vy rel)%R -> (0 <= vz rel)%R ->
  getGridIndex p inv gridMin = Done (vmap Int_part rel).
Proof.
  intros rel Hx Hy Hz. unfold getGridIndex. fold rel.
  cbn [fleb fof_Z Exact.scalar]. rewrite !leb_true by assumption.
  cbn [andb assert]. rewrite obind_ret.
  unfold ivec_of_vec, vec_of_ivec, vmap. cbn [vx vy vz ftrunc ffloor fof_Z Exact.scalar].
  now rewrite !trunc_floor, !trunc_IZR.
Qed.

Lemma getGridIndex_asserts (p gridMin : vec3 R) (inv : R) :
  let rel := vscale (vsub p gridMin) inv in
  (vx rel < 0 \/ vy rel < 0 \/ vz rel < 0)%R ->
  getGridIndex p inv gridMin = Fault AssertionFailed.
Proof.
  intros rel Hneg. unfold getGridIndex. fold rel.
  cbn [fleb fof_Z Exact.scalar].
  destruct Hneg as [Hn|[Hn|Hn]].
  - now rewrite (leb_false _ (vx rel)) by assumption.
  - rewrite (leb_false _ (vy rel)) by assumption.
    now rewrite andb_false_r.
  - rewrite (leb_false _ (vz rel)) by assumption.
    now rewrite andb_false_r.
Qed.

Lemma cellOf_coordinate (c : R) :
  (-100 <= c <= 100)%R -> 1 <= Int_part ((c - -110) * (1 / 10))%R <= 21.
Proof.
  intros Hc.
  pose proof (Int_part_range 1 22 ((c - -110) * (1 / 10))%R ltac:(lra)). lia.
Qed.

Lemma cellOf_in_grid (p : vec3 R) :
  in_world p ->
  1 <= vx (cellOf p) <= 21 /\ 1 <= vy (cellOf p) <= 21 /\ 1 <= vz (cellOf p) <= 21.
Proof.
  intros (Hx & Hy & Hz). unfold cellOf, vmap. cbn [vx vy vz].
  auto using cellOf_coordinate.
Qed.

Lemma getGridIndex_in_world (p : vec3 R) :
  in_world p -> getGridIndex p (1 / 10)%R firstGridMinimum = Done (cellOf p).
Proof.
  intros (Hx & Hy & Hz).
  rewrite getGridIndex_exact;
    unfold firstGridMinimum, vscale, vsub, vzip, vmap;
    cbn [vx vy vz fmul fsub Exact.scalar]; [reflexivity | lra..].
Qed.

Lemma cellId_range (R : Z) (c : vec3 Z) :
  in_grid R c -> 0 <= cellId R c < R * R * R.
Proof.
  intros (Hx & Hy & Hz). unfold cellId, gridIndex3Dto1D. nia.
Qed.

(** Launches whose threads each fill their own slot of two arrays. *)
Lemma launch_pointwise2 {A B : Type} (N : Z)
    (kern : Z -> list A * list B -> outcome (list A * list B))
    (g1 : Z -> A) (g2 : Z -> B) (s0 : list A * list B) :
  Z.of_nat (length s0.1) = N -> Z.of_nat (length s0.2) = N ->
  (forall i s, N <= i -> kern i s = Done s) ->
  (forall i s, 0 <= i < N -> length s.1 = length s0.1 -> length s.2 = length s0.2 ->
     kern i s = Done (<[Z.to_nat i := g1 i]> s.1, <[Z.to_nat i := g2 i]> s.2)) ->
  launch (fullBlocks N) kern s0 = Done (g1 <$> zrange 0 N, g2 <$> zrange 0 N).
Proof.
  intros Hl1 Hl2 Hskip Hstep. unfold launch, launch_sched.
  destruct (ofold_inv kern
    (fun pre s => length s.1 = length s0.1 /\ length s.2 = length s0.2 /\
       forall j : nat, Z.of_nat j ∈ pre -> Z.of_nat j < N ->
          s.1 !! j = Some (g1 (Z.of_nat j)) /\ s.2 !! j = Some (g2 (Z.of_nat j)))
    (threads (fullBlocks N)) s0) as (s & E & H1 & H2 & H3).
  - split; [reflexivity|]. split; [reflexivity|]. intros j Hj. inversion Hj.
  - intros pre a post s E (H1 & H2 & H3).
    assert (Ha : 0 <= a).
    { apply (threads_nonneg (fullBlocks N)). rewrite E.
      apply elem_of_app. right. left. }
    destruct (decide (a < N)) as [Hlt|Hge].
    + rewrite (Hstep a s ltac:(lia) H1 H2).
      eexists. split; [reflexivity|]. cbn [fst snd].
      rewrite !length_insert. split; [exact H1|]. split; [exact H2|].
      intros j Hj Hjn. destruct (decide (j = Z.to_nat a)) as [->|Hne].
      * rewrite !list_lookup_insert_eq by lia. now rewrite Z2Nat.id by lia.
      * rewrite !list_lookup_insert_ne by auto. apply H3; [|exact Hjn].
        apply elem_of_app in Hj as [Hj|Hj]; [exact Hj|].
        apply list_elem_of_singleton in Hj. lia.
    + rewrite Hskip by lia. exists s. split; [reflexivity|].
      split; [exact H1|]. split; [exact H2|].
      intros j Hj Hjn. apply H3; [|exact Hjn].
      apply elem_of_app in Hj as [Hj|Hj]; [exact Hj|].
      apply list_elem_of_singleton in Hj. lia.
  - rewrite E. f_equal. destruct s as [s1 s2]. cbn [fst snd] in *.
    assert (Hall : forall j : nat, Z.of_nat j < N ->
              s1 !! j = Some (g1 (Z.of_nat j)) /\ s2 !! j = Some (g2 (Z.of_nat j))).
    { intros j Hj. apply H3; [|exact Hj]. apply elem_of_threads; lia. }
    f_equal; apply list_eq; intros j;
      (destruct (decide (Z.of_nat j < N)) as [Hlt|Hge];
       [rewrite list_lookup_fmap, lookup_zrange by lia; simpl;
        rewrite Z.add_0_l; now apply Hall
       |rewrite !lookup_ge_None_2; auto;
        rewrite ?length_fmap, ?length_zrange; lia]).
Qed.

Section ComputeIndices.

Context {F : Type} `{Scalar F}.

(** [kernComputeIndices], when the cell of each boid passes the two
    assertions. *)
Lemma kernComputeIndices_launch (N R : Z) (gridMin : vec3 F) (inv : F)
    (pos : list (vec3 F)) (indices gridIndices : list Z) (cell : Z -> vec3 Z) :
  Z.of_nat (length pos) = N ->
  Z.of_nat (length indices) = N -> Z.of_nat (length gridIndices) = N ->
  (forall (i : nat) (p : vec3 F), pos !! i = Some p ->
     getGridIndex p inv gridMin = Done (cell (Z.of_nat i)) /\
     0 <= cellId R (cell (Z.of_nat i)) < R * R * R) ->
  launch (fullBlocks N) (kernComputeIndices N R gridMin inv pos)
    (indices, gridIndices)
  = Done (zrange 0 N, (fun i => cellId R (cell i)) <$> zrange 0 N).
Proof.
  intros Hp Hi Hg Hcell.
  rewrite (launch_pointwise2 N _ (fun i => i) (fun i => cellId R (cell i)));
    cbn [fst snd]; auto.
  - now rewrite list_fmap_id.
  - intros i s Hge. unfold kernComputeIndices. destruct s.
    destruct (Z.geb_spec i N); [reflexivity | lia].
  - intros i [s1 s2] Hlt Hl1 Hl2. cbn [fst snd] in *.
    unfold kernComputeIndices. destruct (Z.geb_spec i N); [lia|].
    destruct (lookup_lt_is_Some_2 pos (Z.to_nat i) ltac:(lia)) as [p Ep].
    destruct (Hcell _ _ Ep) as [Eg Hr]. rewrite Z2Nat.id in Eg, Hr by lia.
    rewrite (aread_lookup pos i p), obind_ret by (auto; lia).
    rewrite Eg, obind_ret.
    rewrite (awrite_ok s1 i i), obind_ret by lia.
    rewrite (awrite_ok s2 i), obind_ret by lia.
    rewrite (aread_lookup _ i (cellId R (cell i))); [|lia|].
    2:{ apply list_lookup_insert_eq. lia. }
    rewrite obind_ret.
    destruct (Z.geb_spec (cellId R (cell i)) 0); [|lia].
    destruct (Z.ltb_spec (cellId R (cell i)) (R * R * R)); [|lia].
    reflexivity.
Qed.

End ComputeIndices.

Lemma kernComputeIndices_in_world (N : Z) (pos : list (vec3 R))
    (indices gridIndices : list Z) :
  Z.of_nat (length pos) = N ->
  Z.of_nat (length indices) = N -> Z.of_nat (length gridIndices) = N ->
  Forall in_world pos ->
  launch (fullBlocks N)
    (kernComputeIndices N 22 firstGridMinimum (1 / 10)%R pos)
    (indices, gridIndices)
  = Done (zrange 0 N, (fun p => cellId 22 (cellOf p)) <$> pos).
Proof.
  intros Hp Hi Hg Hw.
  rewrite (kernComputeIndices_launch N 22 firstGridMinimum (1 / 10)%R pos
             indices gridIndices (fun i => cellOf (pos !!! Z.to_nat i)));
    auto.
  - f_equal. f_equal. rewrite <- Hp. apply fmap_zrange_lookup.
    intros j x E. rewrite Nat2Z.id.
    now rewrite (list_lookup_total_correct _ _ _ E).
  - intros i p E. rewrite Nat2Z.id, (list_lookup_total_correct _ _ _ E).
    pose proof (proj1 (Forall_lookup _ _) Hw _ _ E) as Hin.
    split; [now apply getGridIndex_in_world|].
    apply (cellId_range 22). pose proof (cellOf_in_grid p Hin).
    unfold in_grid. lia.
Qed.

(** C10.  Every call of [initSimulation] subtracts
    halfSideCount × cellWidth = 11 × 10 from each coordinate of
    [gridMinimum] as it is at entry, instead of assigning it.  So
    [gridMinimum] is -halfSideCount × cellWidth after the call exactly
    when it was zero at entry, as at the first initialisation of a
    process, and every further initialisation moves it further down:
    from zero, two calls leave it at -220 (also in single precision). *)
Theorem initialization_accumulates_gridMinimum :
  (forall (ok : nat -> bool) (generateRandomVec3 : Z -> Z -> vec3 R)
          (junkV : Z -> vec3 R) (junkI : Z -> Z) (N : Z) (s : sim R)
          (rt : runtime),
     (forall k : nat, (k < 9)%nat -> ok k = true) -> lastError rt = None ->
     exists (rt' : runtime) (s' : sim R),
       initSimulation ok generateRandomVec3 junkV junkI N s rt
         = (rt', Returned s') /\
       lastError rt' = None /\
       gridMinimum s' = vmap (fun c => c - 11 * 10)%R (gridMinimum s) /\
       (gridMinimum s' = (Vec3 (- (11 * 10)) (- (11 * 10)) (- (11 * 10)))%R <->
        gridMinimum s = (Vec3 0 0 0)%R) /\
       (vx (gridMinimum s') < vx (gridMinimum s) /\
        vy (gridMinimum s') < vy (gridMinimum s) /\
        vz (gridMinimum s') < vz (gridMinimum s))%R)
  /\
  (forall s : sim R,
     gridMinimum s = (Vec3 0 0 0)%R ->
     gridMinimum (initGrid (initGrid s)) = (Vec3 (-220) (-220) (-220))%R)
  /\
  (let f := Binary32.of_Z in
   forall s : sim spec_float,
     gridMinimum s = Vec3 (f 0) (f 0) (f 0) ->
     gridMinimum (initGrid s) = Vec3 (f (-110)) (f (-110)) (f (-110)) /\
     gridMinimum (initGrid (initGrid s)) = Vec3 (f (-220)) (f (-220)) (f (-220))).
Proof.
  split; [|split].
  - intros ok gen junkV junkI N s rt Hok Herr.
    destruct (initSimulation_returns ok gen junkV junkI N s rt Hok Herr)
      as (s' & E & _ & _ & _ & _ & _ & Em).
    destruct (initGrid_exact s) as (_ & _ & _ & _ & Emin).
    eexists _, s'. split; [exact E|]. split; [reflexivity|].
    rewrite Em, Emin. destruct (gridMinimum s) as [x y z].
    unfold vmap. cbn [vx vy vz].
    split; [f_equal; lra|]. split; [|lra].
    split; intros Eq; inversion Eq; f_equal; lra.
  - intros s E.
    destruct (initGrid_exact (initGrid s)) as (_ & _ & _ & _ & ->).
    destruct (initGrid_exact s) as (_ & _ & _ & _ & ->).
    rewrite E. unfold vmap. cbn [vx vy vz]. f_equal; lra.
  - intros f s E. unfold initGrid. cbn [gridMinimum]. rewrite E.
    split; vm_compute; reflexivity.
Qed.

Lemma initialization_accumulates_gridMinimum_witness :
  let s0 : sim R := Sim 0 [] [] [] [] [] [] [] [] [] 0 0 0%R 0%R ((Vec3 0 0 0)%R) in
  exists (rt' : runtime) (s' : sim R),
    initSimulation (fun _ => true) (fun _ _ => (Vec3 0 0 0)%R)
      (fun _ => (Vec3 0 0 0)%R) (fun _ => 0) 3 s0 (Runtime [] None [])
      = (rt', Returned s') /\
    lastError rt' = None /\
    gridMinimum s' = vmap (fun c => c - 11 * 10)%R (gridMinimum s0) /\
    (gridMinimum s' = (Vec3 (- (11 * 10)) (- (11 * 10)) (- (11 * 10)))%R <->
     gridMinimum s0 = (Vec3 0 0 0)%R) /\
    (vx (gridMinimum s') < vx (gridMinimum s0) /\
     vy (gridMinimum s') < vy (gridMinimum s0) /\
     vz (gridMinimum s') < vz (gridMinimum s0))%R.
Proof.
  intros s0.
  apply (proj1 initialization_accumulates_gridMinimum (fun _ => true)).
  - reflexivity.
  - reflexivity.
Defined.

(** C7.  After the first initialisation (the globals still hold their
    initial zero), the grid geometry is
    cellWidth = multiplier × max(r1, r2, r3) = 10,
    halfSideCount = floor(S / cellWidth) + 1 = 11,
    sideCount = 2 × halfSideCount = 22, cellCount = sideCount³ = 10648
    and gridMinimum = -halfSideCount × cellWidth = -110 on each axis.
    Hence the cell of every position within [-S, S]³ has its three
    coordinates in [0, sideCount) (in fact in [1, 21]), its flattened
    id is in [0, cellCount), and no assertion of [getGridIndex] or
    [kernComputeIndices] fails for such positions. *)
Theorem grid_geometry_covers_world
    (ok : nat -> bool) (generateRandomVec3 : Z -> Z -> vec3 R)
    (junkV : Z -> vec3 R) (junkI : Z -> Z) (N : Z) (s : sim R) (rt : runtime) :
  (forall k : nat, (k < 9)%nat -> ok k = true) -> lastError rt = None ->
  gridMinimum s = (Vec3 0 0 0)%R ->
  exists (rt' : runtime) (s' : sim R),
    initSimulation ok generateRandomVec3 junkV junkI N s rt = (rt', Returned s') /\
    (gridCellWidth s'
       = (cell_width_mul * Rmax (Rmax rule1Distance rule2Distance) rule3Distance)%R /\
     gridCellWidth s' = 10%R) /\
    (gridSideCount s' = 2 * (Int_part (scene_scale / gridCellWidth s') + 1) /\
     gridSideCount s' = 22) /\
    (gridCellCount s' = gridSideCount s' * gridSideCount s' * gridSideCount s' /\
     gridCellCount s' = 10648) /\
    (gridMinimum s'
       = vmap (fun _ => (- (IZR (Int_part (scene_scale / gridCellWidth s') + 1)
                            * gridCellWidth s'))%R) (gridMinimum s) /\
     gridMinimum s' = (Vec3 (-110) (-110) (-110))%R) /\
    (forall p : vec3 R, in_world p ->
       exists c : vec3 Z,
         getGridIndex p (gridInverseCellWidth s') (gridMinimum s') = Done c /\
         in_grid (gridSideCount s') c /\
         0 <= cellId (gridSideCount s') c < gridCellCount s') /\
    (forall (pos : list (vec3 R)) (indices gridIndices : list Z),
       Forall in_world pos ->
       length indices = length pos -> length gridIndices = length pos ->
       exists gridIndices' : list Z,
         launch (fullBlocks (Z.of_nat (length pos)))
           (kernComputeIndices (Z.of_nat (length pos)) (gridSideCount s')
              (gridMinimum s') (gridInverseCellWidth s') pos)
           (indices, gridIndices)
         = Done (zrange 0 (Z.of_nat (length pos)), gridIndices') /\
         length gridIndices' = length pos /\
         Forall (fun g => 0 <= g < gridCellCount s') gridIndices').
Proof.
  intros Hok Herr Hzero.
  destruct (initSimulation_returns ok generateRandomVec3 junkV junkI N s rt Hok Herr)
    as (s' & E & _ & Ec & Es & Ew & Ei & Em).
  destruct (initGrid_exact s) as (Hw & Hs & Hc & Hi & Hm).
  rewrite Hw in Ew. rewrite Hs in Es. rewrite Hc in Ec. rewrite Hi in Ei.
  rewrite Hm, Hzero in Em. unfold vmap in Em. cbn [vx vy vz] in Em.
  assert (Em' : gridMinimum s' = firstGridMinimum).
  { rewrite Em. unfold firstGridMinimum. f_equal; lra. }
  assert (Ehalf : Int_part (scene_scale / 10) + 1 = 11).
  { unfold scene_scale. cbn [fof_Z Exact.scalar].
    replace (100 / 10)%R with (IZR 10) by lra. now rewrite Int_part_IZR. }
  eexists _, s'. split; [exact E|].
  rewrite Ew, Es, Ec, Ei, Em', Ehalf.
  split; [split; [|reflexivity]|].
  { unfold cell_width_mul, rule1Distance, rule2Distance, rule3Distance.
    cbn [fof_Z Exact.scalar]. unfold Rmax. repeat destruct Rle_dec; lra. }
  split; [split; reflexivity|]. split; [split; reflexivity|].
  split; [split; [|reflexivity]|].
  { rewrite Hzero. unfold firstGridMinimum, vmap. cbn [vx vy vz]. f_equal; lra. }
  split.
  - intros p Hp. exists (cellOf p). split; [now apply getGridIndex_in_world|].
    pose proof (cellOf_in_grid p Hp) as Hg.
    assert (Hin : in_grid 22 (cellOf p)) by (unfold in_grid; lia).
    split; [exact Hin | exact (cellId_range 22 _ Hin)].
  - intros pos indices gridIndices Hw' Hl1 Hl2.
    eexists. split; [apply kernComputeIndices_in_world; auto; lia|].
    split; [now rewrite length_fmap|].
    apply Forall_fmap. eapply Forall_impl; [exact Hw'|].
    intros p Hp. cbn beta. pose proof (cellOf_in_grid p Hp) as Hg.
    apply (cellId_range 22). unfold in_grid. lia.
Qed.

Lemma grid_geometry_covers_world_witness :
  let s0 : sim R := Sim 0 [] [] [] [] [] [] [] [] [] 0 0 0%R 0%R ((Vec3 0 0 0)%R) in
  exists (rt' : runtime) (s' : sim R),
    initSimulation (fun _ => true) (fun _ _ => (Vec3 0 0 0)%R)
      (fun _ => (Vec3 0 0 0)%R) (fun _ => 0) 3 s0 (Runtime [] None [])
      = (rt', Returned s') /\
    gridCellWidth s' = 10%R /\ gridSideCount s' = 22 /\ gridCellCount s' = 10648 /\
    gridMinimum s' = (Vec3 (-110) (-110) (-110))%R.
Proof.
  intros s0.
  destruct (grid_geometry_covers_world (fun _ => true) (fun _ _ => (Vec3 0 0 0)%R)
              (fun _ => (Vec3 0 0 0)%R) (fun _ => 0) 3 s0 (Runtime [] None []))
    as (rt' & s' & E & [_ Hw] & [_ Hs] & [_ Hc] & [_ Hm] & _).
  - reflexivity.
  - reflexivity.
  - reflexivity.
  - exists rt', s'. auto.
Defined.

(** ** The test on candidate cells *)




(** ** The 8-cell enumeration *)

(** In exact arithmetic: [genNeighborCells] compares the position with
    [grid_pos * cellWidth], the low corner of the cell, so for a boid
    that is not on a face of its cell all three chosen neighbors are the
    next cells upward, wherever the boid sits in its cell. *)
Lemma genNeighborCells_exact (p gridMin : vec3 R) (cellWidth : R) (c : vec3 Z) :
  (IZR (vx c) * cellWidth < vx p - vx gridMin)%R ->
  (IZR (vy c) * cellWidth < vy p - vy gridMin)%R ->
  (IZR (vz c) * cellWidth < vz p - vz gridMin)%R ->
  genNeighborCells p c gridMin cellWidth
  = [ivadd c (Vec3 0 0 0); ivadd c (Vec3 1 0 0);
     ivadd c (Vec3 0 1 0); ivadd c (Vec3 1 1 0);
     ivadd c (Vec3 0 0 1); ivadd c (Vec3 1 0 1);
     ivadd c (Vec3 0 1 1); ivadd c (Vec3 1 1 1)].
Proof.
  intros Hx Hy Hz. unfold genNeighborCells, vec_of_ivec, vscale, vsub, vzip, vmap.
  cbn [vx vy vz fltb fmul fsub fof_Z Exact.scalar].
  rewrite !ltb_true by assumption. reflexivity.
Qed.

(** C3 fails on the code.  Two boids at x = -89 and x = -91 (distance
    2, below every rule distance) lie in cells (2, 11, 11) and
    (1, 11, 11) of the grid of the first initialisation.  Boid 0 sits at
    1/10 of its cell on the x axis, toward cell 1, but
    [genNeighborCells] selects cells 2 and 3 on that axis: the [IMPL_8]
    kernel leaves the velocity of boid 0 at zero, while the 27-cell
    kernel and the brute-force kernel both give it 0.18 on x. *)
Lemma eight_cell_search_misses_neighbor :
  let f := Binary32.of_Z in
  let g := initGrid (Sim 2 [] [] [] [] [] [] [] [] [] 0 0 (f 0) (f 0)
                       (Vec3 (f 0) (f 0) (f 0))) in
  let zero := Vec3 (f 0) (f 0) (f 0) in
  let pos := [Vec3 (f (-89)) (f 0) (f 0); Vec3 (f (-91)) (f 0) (f 0)] in
  let vel1 := [zero; zero] in
  let starts :=
    <[Z.to_nat 5567 := 0]> (<[Z.to_nat 5568 := 1]> (replicate (Z.to_nat 10648) (-1))) in
  let ends :=
    <[Z.to_nat 5567 := 1]> (<[Z.to_nat 5568 := 2]> (replicate (Z.to_nat 10648) (-1))) in
  let search impl8 :=
    launch (fullBlocks 2)
      (kernUpdateVelNeighborSearchScattered impl8 2 (gridSideCount g)
         (gridMinimum g) (gridInverseCellWidth g) (gridCellWidth g)
         starts ends [1; 0] pos vel1) [zero; zero] in
  let moved := Vec3 (lit 18 100) (f 0) (f 0) in
  launch (fullBlocks 2)
    (kernComputeIndices 2 (gridSideCount g) (gridMinimum g)
       (gridInverseCellWidth g) pos) ([0; 0], [0; 0])
    = Done ([0; 1], [5568; 5567]) /\
  insertion_sort_by_key [5568; 5567] [0; 1] = ([5567; 5568], [1; 0]) /\
  genNeighborCells (Vec3 (f (-89)) (f 0) (f 0)) (Vec3 2 11 11) (gridMinimum g)
    (gridCellWidth g)
    = [Vec3 2 11 11; Vec3 3 11 11; Vec3 2 10 11; Vec3 3 10 11;
       Vec3 2 11 10; Vec3 3 11 10; Vec3 2 10 10; Vec3 3 10 10] /\
  search true = Done [zero; Vec3 (fopp (lit 18 100)) (f 0) (f 0)] /\
  search false = Done [moved; Vec3 (fopp (lit 18 100)) (f 0) (f 0)] /\
  launch (fullBlocks 2) (kernUpdateVelocityBruteForce 2 pos vel1) [zero; zero]
    = search false /\
  search true <> search false.
Proof.
  intros f g zero pos vel1 starts ends search moved.
  repeat split; try (vm_compute; reflexivity).
  vm_compute. discriminate.
Qed.

(** ** The three rules, in exact arithmetic *)

Ltac vec_unfold :=
  unfold vadd, vsub, vscale, vdivs, vzip, vmap, vzero in *;
  cbn [vx vy vz fadd fsub fmul fdiv fof_Z fopp Exact.scalar] in *.

Lemma vadd_assoc (a b c : vec3 R) : vadd (vadd a b) c = vadd a (vadd b c).
Proof. vec_unfold. f_equal; lra. Qed.

Lemma vadd_comm (a b : vec3 R) : vadd a b = vadd b a.
Proof. vec_unfold. f_equal; lra. Qed.

Lemma vadd_zero_r (a : vec3 R) : vadd a vzero = a.
Proof. destruct a. vec_unfold. f_equal; lra. Qed.

Lemma vsub_as_add (r p q : vec3 R) : vsub r (vsub p q) = vadd r (vsub q p).
Proof. vec_unfold. f_equal; lra. Qed.

Lemma vsum_Permutation (l l' : list (vec3 R)) : l ≡ₚ l' -> vsum l = vsum l'.
Proof.
  induction 1 as [|x l l' _ IH|x y l|l l' l'' _ IH1 _ IH2]; cbn [vsum foldr].
  - reflexivity.
  - unfold vsum in IH. now rewrite IH.
  - now rewrite <- !vadd_assoc, (vadd_comm x y).
  - now rewrite IH1.
Qed.

Lemma uincr_mod (c n : Z) : uincr ((c + n) mod 2 ^ 32) = (c + (n + 1)) mod 2 ^ 32.
Proof.
  unfold uincr. rewrite Z.add_mod_idemp_l by lia. f_equal. lia.
Qed.

Section Rules.

Variable pos vel : list (vec3 R).
Variable iSelf : Z.
Let N : Z := Z.of_nat (length pos).
Hypothesis vel_length : length vel = length pos.
Hypothesis self_range : 0 <= iSelf < N.

Let P (i : Z) : vec3 R := pos !!! Z.to_nat i.
Let V (i : Z) : vec3 R := vel !!! Z.to_nat i.

Lemma read_pos (i : Z) : 0 <= i < N -> aread pos i = Done (P i).
Proof.
  intros Hi. apply aread_lookup; [lia|].
  apply list_lookup_lookup_total_lt. unfold N in Hi. lia.
Qed.

Lemma read_vel (i : Z) : 0 <= i < N -> aread vel i = Done (V i).
Proof.
  intros Hi. apply aread_lookup; [lia|].
  apply list_lookup_lookup_total_lt. unfold N in Hi. lia.
Qed.

(** One candidate. *)
Lemma accumulateNeighbor_exact (i : Z) (a : accum R) :
  0 <= i < N ->
  accumulateNeighbor pos vel iSelf i a
  = Done (Accum
      (if isWithin pos iSelf rule1Distance i
       then vadd (perceived_center a) (P i) else perceived_center a)
      (if isWithin pos iSelf rule3Distance i
       then vadd (perceived_velocity a) (V i) else perceived_velocity a)
      (if isWithin pos iSelf rule2Distance i
       then vsub (rule2offset a) (vsub (P i) (P iSelf)) else rule2offset a)
      (if isWithin pos iSelf rule1Distance i
       then uincr (neighbor_cnts0 a) else neighbor_cnts0 a)
      (if isWithin pos iSelf rule3Distance i
       then uincr (neighbor_cnts1 a) else neighbor_cnts1 a)).
Proof.
  intros Hi. unfold accumulateNeighbor, isWithin.
  destruct (Z.eqb_spec i iSelf) as [->|Hne]; cbn [negb andb].
  - destruct a. reflexivity.
  - rewrite (read_pos i Hi), obind_ret, (read_pos iSelf self_range), obind_ret.
    fold (P i) (P iSelf).
    destruct (fltb (vdistance (P i) (P iSelf)) rule1Distance);
      destruct (fltb (vdistance (P i) (P iSelf)) rule2Distance);
      destruct (fltb (vdistance (P i) (P iSelf)) rule3Distance);
      cbn [perceived_center perceived_velocity rule2offset neighbor_cnts0
           neighbor_cnts1];
      rewrite ?(read_vel i Hi), ?obind_ret; try reflexivity;
      destruct a; reflexivity.
Qed.

(** The loop over a list of candidates. *)
Lemma accumulate_fold (l : list Z) (a : accum R) :
  Forall (fun i => 0 <= i < N) l ->
  0 <= neighbor_cnts0 a < 2 ^ 32 -> 0 <= neighbor_cnts1 a < 2 ^ 32 ->
  exists a' : accum R,
    ofold (accumulateNeighbor pos vel iSelf) l a = Done a' /\
    perceived_center a'
      = vadd (perceived_center a)
          (vsum (P <$> List.filter (isWithin pos iSelf rule1Distance) l)) /\
    perceived_velocity a'
      = vadd (perceived_velocity a)
          (vsum (V <$> List.filter (isWithin pos iSelf rule3Distance) l)) /\
    rule2offset a'
      = vadd (rule2offset a)
          (vsum ((fun i => vsub (P iSelf) (P i))
                   <$> List.filter (isWithin pos iSelf rule2Distance) l)) /\
    neighbor_cnts0 a'
      = (neighbor_cnts0 a
         + Z.of_nat (length (List.filter (isWithin pos iSelf rule1Distance) l)))
        mod 2 ^ 32 /\
    neighbor_cnts1 a'
      = (neighbor_cnts1 a
         + Z.of_nat (length (List.filter (isWithin pos iSelf rule3Distance) l)))
        mod 2 ^ 32.
Proof.
  intros Hl. revert a. induction Hl as [|i l Hi Hl IH]; intros a Hc0 Hc1.
  - exists a. cbn [ofold List.filter fmap list_fmap vsum foldr length].
    rewrite !vadd_zero_r, !Z.add_0_r, !Z.mod_small by lia.
    repeat split; reflexivity.
  - cbn [ofold]. rewrite (accumulateNeighbor_exact i a Hi), obind_ret.
    match goal with |- context [ofold _ l ?x] => destruct (IH x) as
      (a' & -> & E1 & E2 & E3 & E4 & E5) end.
    { cbn [neighbor_cnts0]. destruct (isWithin pos iSelf rule1Distance i);
        [unfold uincr; apply Z.mod_pos_bound; lia | assumption]. }
    { cbn [neighbor_cnts1]. destruct (isWithin pos iSelf rule3Distance i);
        [unfold uincr; apply Z.mod_pos_bound; lia | assumption]. }
    exists a'. split; [reflexivity|].
    cbn [perceived_center perceived_velocity rule2offset neighbor_cnts0
         neighbor_cnts1] in E1, E2, E3, E4, E5.
    rewrite E1, E2, E3, E4, E5. cbn [List.filter].
    destruct (isWithin pos iSelf rule1Distance i);
      destruct (isWithin pos iSelf rule2Distance i);
      destruct (isWithin pos iSelf rule3Distance i);
      cbn [fmap list_fmap vsum foldr length];
      rewrite ?vsub_as_add, ?vadd_assoc;
      repeat split; try reflexivity;
      try (unfold uincr; rewrite Z.add_mod_idemp_l by lia; f_equal; lia).
Qed.

(** The loop from the initial accumulators. *)
Lemma accumulate_from_zero (l : list Z) :
  Forall (fun i => 0 <= i < N) l ->
  exists a : accum R,
    ofold (accumulateNeighbor pos vel iSelf) l accum0 = Done a /\
    accumulated pos vel iSelf l a.
Proof.
  intros Hl.
  destruct (accumulate_fold l accum0 Hl) as (a & E & E1 & E2 & E3 & E4 & E5);
    [cbn; lia | cbn; lia |].
  exists a. split; [exact E|].
  cbn [accum0 perceived_center perceived_velocity rule2offset neighbor_cnts0
       neighbor_cnts1] in E1, E2, E3, E4, E5.
  rewrite (vadd_comm vzero), vadd_zero_r in E1, E2, E3.
  rewrite Z.add_0_l in E4, E5.
  unfold accumulated. fold P V. auto.
Qed.

(** Only the candidates within a rule distance matter, not their order. *)
Lemma accumulated_Permutation (l l' : list Z) (a : accum R) :
  List.filter (isWithin pos iSelf rule1Distance) l
    ≡ₚ List.filter (isWithin pos iSelf rule1Distance) l' ->
  List.filter (isWithin pos iSelf rule2Distance) l
    ≡ₚ List.filter (isWithin pos iSelf rule2Distance) l' ->
  List.filter (isWithin pos iSelf rule3Distance) l
    ≡ₚ List.filter (isWithin pos iSelf rule3Distance) l' ->
  accumulated pos vel iSelf l a -> accumulated pos vel iSelf l' a.
Proof.
  intros Hp1 Hp2 Hp3 (E1 & E2 & E3 & E4 & E5). unfold accumulated.
  rewrite E1, E2, E3, E4, E5.
  repeat split;
    try (apply vsum_Permutation, fmap_Permutation; assumption);
    try (f_equal; f_equal; apply Permutation_length; assumption).
Qed.

Hypothesis N_unsigned : N < 2 ^ 32.

(** The averages and the scaling, after all other boids were visited. *)
Lemma scaleRules_accumulated (a : accum R) :
  accumulated pos vel iSelf (zrange 0 N) a ->
  scaleRules (if neighbor_cnts0 a =? 0 then vzero else P iSelf) a
  = (cohesion pos iSelf, separation pos iSelf, alignment pos vel iSelf).
Proof.
  intros (E1 & E2 & E3 & E4 & E5).
  pose proof (List.filter_length_le (isWithin pos iSelf rule1Distance) (zrange 0 N)) as B1.
  pose proof (List.filter_length_le (isWithin pos iSelf rule3Distance) (zrange 0 N)) as B3.
  rewrite length_zrange in B1, B3.
  rewrite Z.mod_small in E4, E5 by lia.
  unfold scaleRules. rewrite E1, E2, E3, E4, E5.
  unfold cohesion, separation, alignment, withinRule, average. fold N P V.
  f_equal; [f_equal|].
  - destruct (List.filter (isWithin pos iSelf rule1Distance) (zrange 0 N))
      as [|n near] eqn:En; [reflexivity|].
    cbn [length]. destruct (Z.eqb_spec (Z.of_nat (S (length near))) 0); [lia|].
    now rewrite length_fmap.
  - destruct (List.filter (isWithin pos iSelf rule3Distance) (zrange 0 N))
      as [|n near] eqn:En; [reflexivity|].
    cbn [length]. destruct (Z.eqb_spec (Z.of_nat (S (length near))) 0); [lia|].
    now rewrite length_fmap.
Qed.

Lemma read_self (a : accum R) :
  (if neighbor_cnts0 a =? 0 then mret vzero else aread pos iSelf)
  = Done (if neighbor_cnts0 a =? 0 then vzero else P iSelf).
Proof. destruct (neighbor_cnts0 a =? 0); [reflexivity | now apply read_pos]. Qed.

(** [computeVelocityChange] is the sum of the three rules. *)
Lemma computeVelocityChange_exact :
  computeVelocityChange N iSelf pos vel
  = Done (vadd (vadd (cohesion pos iSelf) (separation pos iSelf))
            (alignment pos vel iSelf)).
Proof.
  unfold computeVelocityChange.
  destruct (accumulate_from_zero (zrange 0 N)) as (a & -> & Ha).
  { apply Forall_forall. intros i Hi. now apply elem_of_zrange in Hi. }
  rewrite obind_ret, read_self, obind_ret.
  now rewrite (scaleRules_accumulated a Ha).
Qed.

End Rules.

(** The speed clamp. *)
Lemma clampSpeed_limitSpeed (v : vec3 R) : clampSpeed v = limitSpeed v.
Proof.
  unfold clampSpeed, limitSpeed. destruct (fltb maxSpeed (vlength v)); [|reflexivity].
  vec_unfold. f_equal; unfold Rdiv; ring.
Qed.

Lemma vdot_nonneg (v : vec3 R) : (0 <= vdot v v)%R.
Proof.
  unfold vdot. cbn [fadd fmul Exact.scalar].
  pose proof (Rle_0_sqr (vx v)). pose proof (Rle_0_sqr (vy v)).
  pose proof (Rle_0_sqr (vz v)). unfold Rsqr in *. lra.
Qed.

Lemma vlength_vscale (v : vec3 R) (k : R) :
  (0 <= k)%R -> vlength (vscale v k) = (k * vlength v)%R.
Proof.
  intros Hk. unfold vlength. cbn [fsqrt Exact.scalar].
  replace (vdot (vscale v k) (vscale v k)) with (k * k * vdot v v)%R.
  - rewrite sqrt_mult; [|nra|apply vdot_nonneg].
    now rewrite sqrt_square by assumption.
  - unfold vdot. vec_unfold. ring.
Qed.

Lemma limitSpeed_exact (v : vec3 R) :
  ((maxSpeed < vlength v)%R ->
   vlength (limitSpeed v) = maxSpeed /\
   limitSpeed v = vscale v (maxSpeed / vlength v)%R /\
   (0 < maxSpeed / vlength v)%R) /\
  ((vlength v <= maxSpeed)%R -> limitSpeed v = v).
Proof.
  unfold limitSpeed, maxSpeed. cbn [fltb fdiv fof_Z Exact.scalar]. split; intros Hv.
  - rewrite ltb_true by assumption.
    assert (Hpos : (0 < 2 / vlength v)%R) by (apply Rdiv_lt_0_compat; lra).
    split; [|split; [reflexivity | exact Hpos]].
    rewrite vlength_vscale by lra. field. lra.
  - now rewrite ltb_false by assumption.
Qed.

Lemma kernUpdateVelocityBruteForce_launch (N : Z) (pos vel1 vel2 : list (vec3 R)) :
  Z.of_nat (length pos) = N -> Z.of_nat (length vel1) = N ->
  Z.of_nat (length vel2) = N -> N < 2 ^ 32 ->
  launch (fullBlocks N) (kernUpdateVelocityBruteForce N pos vel1) vel2
  = Done (flockingVelocity pos vel1 <$> zrange 0 N).
Proof.
  intros Hp Hv1 Hv2 HN.
  apply launch_pointwise; [exact Hv2 | |].
  - intros i s Hi. unfold kernUpdateVelocityBruteForce.
    destruct (Z.geb_spec i N); [reflexivity | lia].
  - intros i s Hi Hlen _. unfold kernUpdateVelocityBruteForce.
    destruct (Z.geb_spec i N); [lia|].
    rewrite (aread_lookup vel1 i (vel1 !!! Z.to_nat i)); [|lia|].
    2:{ apply list_lookup_lookup_total_lt. lia. }
    rewrite obind_ret. subst N.
    rewrite computeVelocityChange_exact, obind_ret by (auto; lia).
    rewrite awrite_ok by lia. f_equal. f_equal.
    unfold flockingVelocity. rewrite clampSpeed_limitSpeed. f_equal.
    now rewrite !vadd_assoc.
Qed.

(** C2.  In exact arithmetic, for every boid [p] of a flock of [N]
    boids, the brute-force kernel stores
    old velocity + cohesion + separation + alignment, limited in speed,
    where the candidates are all boids other than [p]; cohesion is
    (average position of the candidates closer than r1 - position of
    [p]) × k1, or zero without such a candidate; separation is the sum of
    (position of [p] - position of c) over the candidates closer than
    r2, × k2; alignment is the average velocity of the candidates closer
    than r3, × k3, or zero without such a candidate.  A result faster
    than maxSpeed is rescaled by the positive factor maxSpeed / speed,
    which keeps its direction and makes its speed maxSpeed; any other
    result is left as it is. *)
Theorem brute_force_velocity_update (N : Z) (pos vel1 vel2 : list (vec3 R)) :
  Z.of_nat (length pos) = N -> Z.of_nat (length vel1) = N ->
  Z.of_nat (length vel2) = N -> N < 2 ^ 32 ->
  launch (fullBlocks N) (kernUpdateVelocityBruteForce N pos vel1) vel2
    = Done (flockingVelocity pos vel1 <$> zrange 0 N) /\
  (forall v : vec3 R,
     ((maxSpeed < vlength v)%R ->
      vlength (limitSpeed v) = maxSpeed /\
      limitSpeed v = vscale v (maxSpeed / vlength v)%R /\
      (0 < maxSpeed / vlength v)%R) /\
     ((vlength v <= maxSpeed)%R -> limitSpeed v = v)).
Proof.
  intros Hp Hv1 Hv2 HN.
  split; [now apply kernUpdateVelocityBruteForce_launch | apply limitSpeed_exact].
Qed.

Lemma brute_force_velocity_update_witness :
  let pos := [Vec3 0%R 0%R 0%R; Vec3 1%R 0%R 0%R] in
  let vel := [Vec3 0%R 0%R 0%R; Vec3 0%R 0%R 0%R] in
  launch (fullBlocks 2) (kernUpdateVelocityBruteForce 2 pos vel) vel
    = Done (flockingVelocity pos vel <$> zrange 0 2).
Proof.
  intros pos vel.
  apply (brute_force_velocity_update 2 pos vel vel); reflexivity.
Defined.

(** ** Sorting by key *)

Lemma insert_by_key_Permutation (k v : Z) (l : list (Z * Z)) :
  insert_by_key k v l ≡ₚ (k, v) :: l.
Proof.
  induction l as [|[k' v'] l IH]; cbn [insert_by_key]; [reflexivity|].
  destruct (k <=? k'); [reflexivity|].
  rewrite IH. apply Permutation_swap.
Qed.

Lemma insert_by_key_HdRel (k0 k v : Z) (l : list (Z * Z)) :
  HdRel Z.le k0 l.*1 -> k0 <= k -> HdRel Z.le k0 (insert_by_key k v l).*1.
Proof.
  intros Hh Hk. destruct l as [|[k' v'] l]; cbn [insert_by_key].
  - constructor. exact Hk.
  - destruct (k <=? k'); cbn; constructor; [exact Hk|].
    inversion Hh. assumption.
Qed.

Lemma insert_by_key_Sorted (k v : Z) (l : list (Z * Z)) :
  Sorted Z.le l.*1 -> Sorted Z.le (insert_by_key k v l).*1.
Proof.
  induction l as [|[k' v'] l IH]; cbn [insert_by_key]; intros Hs.
  - repeat constructor.
  - destruct (Z.leb_spec k k').
    + cbn. constructor; [exact Hs|]. constructor. assumption.
    + cbn in Hs |- *. inversion Hs as [|? ? Hs' Hh]. subst.
      constructor; [now apply IH|].
      apply insert_by_key_HdRel; [exact Hh | lia].
Qed.

Lemma insertion_sort_sorts : sorts_by_key insertion_sort_by_key.
Proof.
  intros keys values Hlen. unfold insertion_sort_by_key. cbn [fst snd].
  set (sorted := foldr _ _ _).
  assert (Hp : sorted ≡ₚ zip keys values).
  { subst sorted. induction (zip keys values) as [|[k v] l IH]; [reflexivity|].
    cbn [foldr fst snd]. now rewrite insert_by_key_Permutation, IH. }
  assert (Hs : Sorted Z.le sorted.*1).
  { clear Hp. subst sorted.
    induction (zip keys values) as [|[k v] l IH]; [constructor|].
    cbn [foldr fst snd]. apply insert_by_key_Sorted. exact IH. }
  rewrite zip_fst_snd. split; [exact Hp|]. split; [exact Hs|].
  rewrite !length_fmap, (Permutation_length Hp), length_zip. lia.
Qed.

(** ** Candidates met once *)

Lemma filter_Permutation_NoDup (w : Z -> bool) (l l' : list Z) :
  NoDup l -> NoDup l' ->
  (forall i, w i = true -> (i ∈ l <-> i ∈ l')) ->
  List.filter w l ≡ₚ List.filter w l'.
Proof.
  intros Hl Hl' Hiff. apply NoDup_Permutation.
  - apply NoDup_ListNoDup, List.NoDup_filter, NoDup_ListNoDup, Hl.
  - apply NoDup_ListNoDup, List.NoDup_filter, NoDup_ListNoDup, Hl'.
  - intros i. rewrite !list_elem_of_In, !List.filter_In, <- !list_elem_of_In.
    split; intros [Hi Hw]; (split; [|exact Hw]); now apply (Hiff i Hw).
Qed.

(** ** Neighbors lie in adjacent cells *)

Lemma ltb_true_inv (a b : R) : Exact.ltb a b = true -> (a < b)%R.
Proof. unfold Exact.ltb. destruct (Rlt_dec a b); [auto | discriminate]. Qed.

Lemma sqrt_lt_square (S r : R) :
  (0 <= S)%R -> (0 <= r)%R -> (sqrt S < r)%R -> (S < r * r)%R.
Proof.
  intros HS Hr Hlt. destruct (Rlt_dec S (r * r)) as [|Hge]; [assumption|].
  exfalso. assert (Hle : (r * r <= S)%R) by lra.
  apply sqrt_le_1_alt in Hle. rewrite sqrt_square in Hle by assumption. lra.
Qed.

Lemma vdistance_axes (p q : vec3 R) (r : R) :
  (0 <= r)%R -> (vdistance p q < r)%R ->
  (- r < vx p - vx q < r)%R /\ (- r < vy p - vy q < r)%R /\
  (- r < vz p - vz q < r)%R.
Proof.
  intros Hr Hd. unfold vdistance, vlength in Hd. cbn [fsqrt Exact.scalar] in Hd.
  apply sqrt_lt_square in Hd; [|apply vdot_nonneg|assumption].
  unfold vdot in Hd. vec_unfold.
  set (dx := (vx q - vx p)%R) in *. set (dy := (vy q - vy p)%R) in *.
  set (dz := (vz q - vz p)%R) in *.
  replace (vx p - vx q)%R with (- dx)%R by (unfold dx; lra).
  replace (vy p - vy q)%R with (- dy)%R by (unfold dy; lra).
  replace (vz p - vz q)%R with (- dz)%R by (unfold dz; lra).
  pose proof (Rle_0_sqr dx). pose proof (Rle_0_sqr dy). pose proof (Rle_0_sqr dz).
  unfold Rsqr in *. repeat split; nra.
Qed.

Lemma Int_part_near (a b : R) :
  (-1 < a - b < 1)%R -> -1 <= Int_part a - Int_part b <= 1.
Proof.
  intros Hab. destruct (Int_part_bounds a), (Int_part_bounds b).
  assert (H3 : (IZR (Int_part a - Int_part b) < IZR 2)%R)
    by (rewrite minus_IZR; lra).
  assert (H4 : (IZR (-2) < IZR (Int_part a - Int_part b))%R)
    by (rewrite minus_IZR; lra).
  apply lt_IZR in H3, H4. lia.
Qed.

Lemma neighborCells27_elem (c d : vec3 Z) :
  -1 <= vx d <= 1 -> -1 <= vy d <= 1 -> -1 <= vz d <= 1 ->
  ivadd c d ∈ neighborCells27 c.
Proof.
  destruct d as [dx dy dz]. cbn [vx vy vz]. intros Hx Hy Hz.
  assert (Ex : dx = -1 \/ dx = 0 \/ dx = 1) by lia.
  assert (Ey : dy = -1 \/ dy = 0 \/ dy = 1) by lia.
  assert (Ez : dz = -1 \/ dz = 0 \/ dz = 1) by lia.
  unfold neighborCells27. cbn [mbind list_bind app].
  destruct Ex as [->|[->| ->]], Ey as [->|[->| ->]], Ez as [->|[->| ->]];
    repeat first [apply list_elem_of_here | apply list_elem_of_further].
Qed.

Lemma neighborCells27_ids_NoDup (c : vec3 Z) :
  NoDup (cellId 22 <$> neighborCells27 c).
Proof.
  replace (cellId 22 <$> neighborCells27 c)
    with ((fun o => cellId 22 c + o)
            <$> ((fun d => cellId 22 d) <$> neighborCells27 (Vec3 0 0 0))).
  - apply NoDup_fmap_2; [intros a b Hab; lia|].
    apply (bool_decide_unpack _). vm_compute. reflexivity.
  - destruct c as [x y z]. unfold neighborCells27.
    cbn [mbind list_bind app fmap list_fmap].
    unfold cellId, gridIndex3Dto1D, ivadd, vzip. cbn [vx vy vz].
    repeat (apply (f_equal2 cons); [lia|]). reflexivity.
Qed.

Lemma isWithin_inv (pos : list (vec3 R)) (iSelf i : Z) (r : R) :
  isWithin pos iSelf r i = true ->
  i <> iSelf /\
  (vdistance (pos !!! Z.to_nat i) (pos !!! Z.to_nat iSelf) < r)%R.
Proof.
  unfold isWithin. intros Hw. apply andb_prop in Hw as [Hne Hd].
  split.
  - intros ->. now rewrite Z.eqb_refl in Hne.
  - now apply ltb_true_inv.
Qed.

(** A boid closer than 5 lies in one of the 27 cells around the cell of
    the boid. *)
Lemma near_cell (p q : vec3 R) :
  (vdistance q p < 5)%R -> cellOf q ∈ neighborCells27 (cellOf p).
Proof.
  intros Hd. apply vdistance_axes in Hd as (Hx & Hy & Hz); [|lra].
  replace (cellOf q)
    with (ivadd (cellOf p)
            (Vec3 (vx (cellOf q) - vx (cellOf p)) (vy (cellOf q) - vy (cellOf p))
               (vz (cellOf q) - vz (cellOf p)))).
  - unfold cellOf, vmap. cbn [vx vy vz].
    apply neighborCells27_elem; cbn [vx vy vz]; apply Int_part_near; lra.
  - destruct (cellOf p) as [a b c], (cellOf q) as [a' b' c'].
    unfold ivadd, vzip. cbn [vx vy vz].
    f_equal; lia.
Qed.

(** ** The grid search visits every neighbor once *)

Lemma ofold_candidate {S : Type} (candidate : Z -> outcome Z) (f : Z -> Z)
    (body : Z -> S -> outcome S) (js : list Z) (s : S) :
  Forall (fun j => candidate j = Done (f j)) js ->
  ofold (fun j s => i ← candidate j; body i s) js s = ofold body (f <$> js) s.
Proof.
  intros Hjs. revert s. induction Hjs as [|j js Hj _ IH]; intros s; [reflexivity|].
  cbn [ofold fmap list_fmap]. rewrite Hj, obind_ret.
  destruct (body (f j) s); [apply IH | reflexivity].
Qed.

Lemma ofold_bind {A B S : Type} (cell : A -> S -> outcome S)
    (body : B -> S -> outcome S) (f : A -> list B) (l : list A) (s : S) :
  Forall (fun c => forall s, cell c s = ofold body (f c) s) l ->
  ofold cell l s = ofold body (l ≫= f) s.
Proof.
  intros Hl. revert s. induction Hl as [|c l Hc _ IH]; intros s; [reflexivity|].
  rewrite bind_cons, ofold_app. cbn [ofold]. rewrite Hc.
  destruct (ofold body (f c) s); [apply IH | reflexivity].
Qed.

Section NeighborSearch.

Variables (pos vel : list (vec3 R)) (keys sel starts ends : list Z).
Variable candidate : Z -> outcome Z.
Let N : Z := Z.of_nat (length pos).

Hypothesis vel_length : length vel = length pos.
Hypothesis pos_world : Forall in_world pos.
Hypothesis sel_perm : is_permutation N sel.
Hypothesis keys_length : length keys = length pos.
Hypothesis keys_sel :
  forall (j : nat) (k i : Z), keys !! j = Some k -> sel !! j = Some i ->
    k = cellId 22 (cellOf (pos !!! Z.to_nat i)).
Hypothesis tables : range_table 10648 keys starts ends.
Hypothesis candidate_sel :
  forall j, 0 <= j < N -> candidate j = Done (sel !!! Z.to_nat j).

Let P (i : Z) : vec3 R := pos !!! Z.to_nat i.
Let id (i : Z) : Z := cellId 22 (cellOf (P i)).
Let valid (c : Z) : Prop := 0 <= c < 10648.
Let members (c : Z) : list Z :=
  (fun j => sel !!! Z.to_nat j)
    <$> zrange (starts !!! Z.to_nat c) (ends !!! Z.to_nat c).
Let visited (index : Z) : list Z :=
  neighborCells27 (cellOf (P index)) ≫= fun c =>
    if decide (valid (cellId 22 c)) then members (cellId 22 c) else [].

Lemma P_world (i : Z) : 0 <= i < N -> in_world (P i).
Proof.
  intros Hi. rewrite Forall_lookup in pos_world.
  apply (pos_world (Z.to_nat i)). apply list_lookup_lookup_total_lt.
  unfold N in Hi. lia.
Qed.

Lemma id_valid (i : Z) : 0 <= i < N -> valid (id i).
Proof.
  intros Hi. apply (cellId_range 22).
  pose proof (cellOf_in_grid _ (P_world i Hi)). unfold in_grid. lia.
Qed.

Lemma sel_length : length sel = length pos.
Proof. rewrite (is_permutation_length N sel sel_perm). unfold N. lia. Qed.

Lemma sel_lookup (j : Z) :
  0 <= j < N -> sel !! Z.to_nat j = Some (sel !!! Z.to_nat j).
Proof.
  intros Hj. apply list_lookup_lookup_total_lt. rewrite sel_length.
  unfold N in Hj. lia.
Qed.

Lemma sel_range (j : Z) : 0 <= j < N -> 0 <= sel !!! Z.to_nat j < N.
Proof.
  intros Hj. pose proof (is_permutation_range N sel sel_perm) as Hr.
  rewrite Forall_lookup in Hr. exact (Hr _ _ (sel_lookup j Hj)).
Qed.

(** The range of a cell holds the slots of the cell. *)
Lemma table_range (c : Z) :
  valid c ->
  exists a b : Z,
    starts !! Z.to_nat c = Some a /\ ends !! Z.to_nat c = Some b /\
    (forall j : Z, a <= j < b -> 0 <= j < N /\ keys !! Z.to_nat j = Some c) /\
    (forall n : nat, keys !! n = Some c -> a <= Z.of_nat n < b).
Proof.
  intros Hc. destruct tables as (_ & _ & Ht).
  destruct (Ht c Hc) as (a & b & Ea & Eb & [[_ Hocc]|[Hnin [-> ->]]]).
  - exists a, b. destruct Hocc as (Hab & Hb & Hj).
    split; [exact Ea|]. split; [exact Eb|]. split.
    + intros j Hjr. assert (E : keys !! Z.to_nat j = Some c).
      { apply Hj. lia. }
      split; [|exact E]. unfold N. rewrite <- keys_length. lia.
    + intros n. apply Hj.
  - exists (-1), (-1). split; [exact Ea|]. split; [exact Eb|].
    split; [lia|]. intros n E. exfalso. apply Hnin.
    eapply list_elem_of_lookup_2. exact E.
Qed.

Lemma keys_lookup_id (n : nat) (k : Z) :
  keys !! n = Some k -> k = id (sel !!! n).
Proof.
  intros E. pose proof (lookup_lt_Some _ _ _ E) as Hn.
  apply (keys_sel n); [exact E|].
  apply list_lookup_lookup_total_lt. rewrite sel_length, <- keys_length. exact Hn.
Qed.

Lemma elem_of_members (c i : Z) :
  valid c -> i ∈ members c <-> 0 <= i < N /\ id i = c.
Proof.
  intros Hc. destruct (table_range c Hc) as (a & b & Ea & Eb & Hin & Hout).
  unfold members.
  rewrite (list_lookup_total_correct _ _ _ Ea), (list_lookup_total_correct _ _ _ Eb).
  rewrite list_elem_of_fmap. split.
  - intros (j & -> & Hj). apply elem_of_zrange in Hj.
    destruct (Hin j Hj) as [Hjr E]. split; [now apply sel_range|].
    symmetry. now apply keys_lookup_id.
  - intros [Hi Hid].
    destruct (is_permutation_surj N sel i sel_perm Hi) as [n En].
    pose proof (lookup_lt_Some _ _ _ En) as Hn. rewrite sel_length in Hn.
    destruct (lookup_lt_is_Some_2 keys n ltac:(lia)) as [k Ek].
    pose proof (keys_sel n k i Ek En) as Ekid. fold (P i) (id i) in Ekid.
    exists (Z.of_nat n). rewrite Nat2Z.id. split.
    + symmetry. now apply list_lookup_total_correct.
    + apply elem_of_zrange. apply Hout. congruence.
Qed.

Lemma NoDup_members (c : Z) : valid c -> NoDup (members c).
Proof.
  intros Hc. destruct (table_range c Hc) as (a & b & Ea & Eb & Hin & Hout).
  unfold members.
  rewrite (list_lookup_total_correct _ _ _ Ea), (list_lookup_total_correct _ _ _ Eb).
  apply NoDup_fmap_2_strong; [|apply NoDup_zrange].
  intros x y Hx Hy E. apply elem_of_zrange in Hx, Hy.
  destruct (Hin x Hx) as [Hxr _], (Hin y Hy) as [Hyr _].
  pose proof (is_permutation_inj N sel (Z.to_nat x) (Z.to_nat y) _ sel_perm
                (sel_lookup x Hxr)) as Hinj.
  rewrite E in Hinj. specialize (Hinj (sel_lookup y Hyr)). lia.
Qed.

Lemma members_candidates (c : Z) :
  valid c ->
  Forall (fun j => candidate j = Done (sel !!! Z.to_nat j))
    (zrange (starts !!! Z.to_nat c) (ends !!! Z.to_nat c)).
Proof.
  intros Hc. destruct (table_range c Hc) as (a & b & Ea & Eb & Hin & Hout).
  rewrite (list_lookup_total_correct _ _ _ Ea), (list_lookup_total_correct _ _ _ Eb).
  apply Forall_forall. intros j Hj. apply elem_of_zrange in Hj.
  apply candidate_sel. now apply Hin.
Qed.

(** One candidate cell, and all of them. *)
Lemma searchCell_members (index : Z) (c : vec3 Z) (a : accum R) :
  searchCell 22 starts ends candidate pos vel index c a
  = ofold (accumulateNeighbor pos vel index)
      (if decide (valid (cellId 22 c)) then members (cellId 22 c) else []) a.
Proof.
  unfold searchCell. fold (cellId 22 c).
  destruct (decide (valid (cellId 22 c))) as [Hc|Hc]; unfold valid in Hc.
  - destruct (Z.geb_spec (cellId 22 c) 0); [|lia].
    destruct (Z.ltb_spec (cellId 22 c) (22 * 22 * 22)); [|lia]. cbn [andb].
    destruct (table_range _ Hc) as (s & e & Es & Ee & _).
    rewrite (aread_lookup starts _ s), obind_ret by (auto; lia).
    rewrite (aread_lookup ends _ e), obind_ret by (auto; lia).
    rewrite (ofold_candidate candidate (fun j => sel !!! Z.to_nat j)).
    + unfold members.
      now rewrite (list_lookup_total_correct _ _ _ Es),
        (list_lookup_total_correct _ _ _ Ee).
    + pose proof (members_candidates _ Hc) as Hm.
      now rewrite (list_lookup_total_correct _ _ _ Es),
        (list_lookup_total_correct _ _ _ Ee) in Hm.
  - destruct (Z.geb_spec (cellId 22 c) 0);
      destruct (Z.ltb_spec (cellId 22 c) (22 * 22 * 22)); try reflexivity. lia.
Qed.

Lemma searchCells_visited (index : Z) (a : accum R) :
  ofold (searchCell 22 starts ends candidate pos vel index)
    (neighborCells27 (cellOf (P index))) a
  = ofold (accumulateNeighbor pos vel index) (visited index) a.
Proof.
  unfold visited. apply ofold_bind. apply Forall_forall. intros c _ s.
  apply searchCell_members.
Qed.

Lemma elem_of_visited (index i : Z) :
  i ∈ visited index <->
  0 <= i < N /\ exists c, c ∈ neighborCells27 (cellOf (P index)) /\ cellId 22 c = id i.
Proof.
  unfold visited. rewrite list_elem_of_bind. split.
  - intros (c & Hi & Hc). destruct (decide (valid (cellId 22 c))) as [Hv|Hv].
    + apply (elem_of_members _ _ Hv) in Hi as [Hi Hid]. eauto.
    + inversion Hi.
  - intros (Hi & c & Hc & Hid). exists c. split; [|exact Hc].
    destruct (decide (valid (cellId 22 c))) as [Hv|Hv].
    + apply (elem_of_members _ _ Hv). auto.
    + exfalso. apply Hv. rewrite Hid. now apply id_valid.
Qed.

Lemma visited_range (index : Z) : Forall (fun i => 0 <= i < N) (visited index).
Proof. apply Forall_forall. intros i Hi. now apply elem_of_visited in Hi. Qed.

Lemma NoDup_visited (index : Z) : NoDup (visited index).
Proof.
  unfold visited. pose proof (neighborCells27_ids_NoDup (cellOf (P index))) as Hnd.
  apply NoDup_bind.
  - intros c1 c2 i Hc1 Hc2 H1 H2.
    destruct (decide (valid (cellId 22 c1))) as [Hv1|]; [|inversion H1].
    destruct (decide (valid (cellId 22 c2))) as [Hv2|]; [|inversion H2].
    apply (elem_of_members _ _ Hv1) in H1 as [_ E1].
    apply (elem_of_members _ _ Hv2) in H2 as [_ E2].
    apply list_elem_of_lookup in Hc1 as [n1 En1], Hc2 as [n2 En2].
    assert (n1 = n2).
    { apply (NoDup_lookup _ n1 n2 (id i) Hnd);
        rewrite list_lookup_fmap; [rewrite En1 | rewrite En2]; cbn; congruence. }
    congruence.
  - intros c _. destruct (decide (valid (cellId 22 c)));
      [now apply NoDup_members | constructor].
  - eapply NoDup_fmap_1. exact Hnd.
Qed.

(** Within a rule distance, the boids visited are the other boids. *)
Lemma visited_within (index : Z) (r : R) :
  0 <= index < N -> (r <= 5)%R ->
  List.filter (isWithin pos index r) (visited index)
  ≡ₚ List.filter (isWithin pos index r) (zrange 0 N).
Proof.
  intros Hindex Hr. apply filter_Permutation_NoDup.
  - apply NoDup_visited.
  - apply NoDup_zrange.
  - intros i Hw. rewrite elem_of_visited, elem_of_zrange. split; [tauto|].
    intros Hi. split; [exact Hi|].
    apply isWithin_inv in Hw as [_ Hd]. exists (cellOf (P i)). split; [|reflexivity].
    apply near_cell. fold (P i) (P index) in Hd. lra.
Qed.

Lemma rule_distances :
  (rule1Distance <= 5)%R /\ (rule2Distance <= 5)%R /\ (rule3Distance <= 5)%R.
Proof.
  unfold rule1Distance, rule2Distance, rule3Distance.
  cbn [fof_Z Exact.scalar]. lra.
Qed.

Lemma searchCells_accumulated (index : Z) :
  0 <= index < N ->
  exists a : accum R,
    ofold (searchCell 22 starts ends candidate pos vel index)
      (neighborCells27 (cellOf (P index))) accum0 = Done a /\
    accumulated pos vel index (zrange 0 N) a.
Proof.
  intros Hindex. rewrite searchCells_visited.
  destruct (accumulate_from_zero pos vel index vel_length Hindex (visited index)
              (visited_range index)) as (a & E & Ha).
  exists a. split; [exact E|].
  destruct rule_distances as (H1 & H2 & H3).
  apply (accumulated_Permutation pos vel index (visited index)); auto;
    now apply visited_within.
Qed.

(** One thread of a 27-cell neighbor-search kernel stores the velocity
    of the three rules. *)
Lemma neighborSearch_exact (cellWidth : R) (index : Z) (vel2 : list (vec3 R)) :
  0 <= index < N -> N < 2 ^ 32 -> Z.of_nat (length vel2) = N ->
  neighborSearch false 22 firstGridMinimum (1 / 10)%R cellWidth starts ends
    candidate pos vel index vel2
  = Done (<[Z.to_nat index := flockingVelocity pos vel index]> vel2).
Proof.
  intros Hindex HN Hlen. unfold neighborSearch.
  rewrite (read_pos pos vel vel_length index Hindex), obind_ret.
  fold (P index).
  rewrite (getGridIndex_in_world _ (P_world index Hindex)), obind_ret.
  destruct (searchCells_accumulated index Hindex) as (a & E & Ha).
  rewrite E, obind_ret.
  assert (Hs : (if neighbor_cnts0 a =? 0 then mret vzero else Done (P index))
               = Done (if neighbor_cnts0 a =? 0 then vzero else P index))
    by (destruct (neighbor_cnts0 a =? 0); reflexivity).
  rewrite Hs, obind_ret. unfold P.
  rewrite (scaleRules_accumulated pos vel index vel_length HN a Ha).
  rewrite (read_vel pos vel vel_length index Hindex), obind_ret.
  rewrite awrite_ok by lia. unfold flockingVelocity.
  now rewrite clampSpeed_limitSpeed.
Qed.

End NeighborSearch.

(** ** The rules on the coherent arrays *)

Section Gathered.

Variables (pos vel : list (vec3 R)) (sel : list Z).
Let N : Z := Z.of_nat (length pos).
Hypothesis vel_length : length vel = length pos.
Hypothesis sel_perm : is_permutation N sel.
Hypothesis N_unsigned : N < 2 ^ 32.

Let cpos : list (vec3 R) := gather sel pos.
Let cvel : list (vec3 R) := gather sel vel.
Let pick (j : Z) : Z := sel !!! Z.to_nat j.

Lemma sel_in_range : Forall (fun k => 0 <= k < Z.of_nat (length pos)) sel.
Proof. exact (is_permutation_range N sel sel_perm). Qed.

Lemma gathered_length : length cpos = length pos /\ length cvel = length pos.
Proof.
  unfold cpos, cvel. pose proof sel_in_range as Hr.
  rewrite !length_gather; [| now rewrite vel_length | exact Hr].
  rewrite (is_permutation_length N sel sel_perm). unfold N. lia.
Qed.

Lemma pick_lookup (j : Z) : 0 <= j < N -> sel !! Z.to_nat j = Some (pick j).
Proof.
  intros Hj. apply list_lookup_lookup_total_lt.
  rewrite (is_permutation_length N sel sel_perm). lia.
Qed.

Lemma pick_range (j : Z) : 0 <= j < N -> 0 <= pick j < N.
Proof.
  intros Hj. pose proof sel_in_range as Hr. rewrite Forall_lookup in Hr.
  exact (Hr _ _ (pick_lookup j Hj)).
Qed.

Lemma pick_inj (i j : Z) : 0 <= i < N -> 0 <= j < N -> pick i = pick j -> i = j.
Proof.
  intros Hi Hj E.
  pose proof (is_permutation_inj N sel (Z.to_nat i) (Z.to_nat j) _ sel_perm
                (pick_lookup i Hi)) as Hinj.
  rewrite E in Hinj. specialize (Hinj (pick_lookup j Hj)). lia.
Qed.

Lemma gathered_pos (j : Z) :
  0 <= j < N -> cpos !!! Z.to_nat j = pos !!! Z.to_nat (pick j).
Proof.
  intros Hj. pose proof (pick_range j Hj) as Hr. unfold cpos.
  apply list_lookup_total_correct.
  rewrite (lookup_gather sel pos _ _ sel_in_range (pick_lookup j Hj)).
  apply list_lookup_lookup_total_lt. unfold N in Hr. lia.
Qed.

Lemma gathered_vel (j : Z) :
  0 <= j < N -> cvel !!! Z.to_nat j = vel !!! Z.to_nat (pick j).
Proof.
  intros Hj. pose proof (pick_range j Hj) as Hr. unfold cvel.
  apply list_lookup_total_correct.
  assert (Hv : Forall (fun k => 0 <= k < Z.of_nat (length vel)) sel)
    by (rewrite vel_length; exact sel_in_range).
  rewrite (lookup_gather sel vel _ _ Hv (pick_lookup j Hj)).
  apply list_lookup_lookup_total_lt. unfold N in Hr. lia.
Qed.

Lemma pick_all : pick <$> zrange 0 N = sel.
Proof.
  apply list_eq. intros n. rewrite list_lookup_fmap.
  destruct (decide (Z.of_nat n < N)) as [Hn|Hn].
  - rewrite lookup_zrange by lia. cbn. rewrite Z.add_0_l.
    rewrite <- (pick_lookup (Z.of_nat n)) by lia. now rewrite Nat2Z.id.
  - rewrite !lookup_ge_None_2; [reflexivity | |].
    + rewrite (is_permutation_length N sel sel_perm). lia.
    + rewrite length_zrange. lia.
Qed.

Lemma isWithin_gathered (s j : Z) (r : R) :
  0 <= s < N -> 0 <= j < N ->
  isWithin cpos s r j = isWithin pos (pick s) r (pick j).
Proof.
  intros Hs Hj. unfold isWithin.
  rewrite (gathered_pos s Hs), (gathered_pos j Hj). f_equal. f_equal.
  destruct (Z.eqb_spec j s) as [->|Hne].
  - now rewrite Z.eqb_refl.
  - destruct (Z.eqb_spec (pick j) (pick s)) as [E|]; [|reflexivity].
    exfalso. apply Hne. now apply pick_inj.
Qed.

(** The slots within a rule distance of slot [s] hold the boids within
    that distance of the boid of slot [s]. *)
Lemma withinRule_gathered (s : Z) (r : R) :
  0 <= s < N ->
  pick <$> List.filter (isWithin cpos s r) (zrange 0 N)
  ≡ₚ List.filter (isWithin pos (pick s) r) (zrange 0 N).
Proof.
  intros Hs.
  assert (E : pick <$> List.filter (isWithin cpos s r) (zrange 0 N)
              = List.filter (isWithin pos (pick s) r) (pick <$> zrange 0 N)).
  { assert (Hall : Forall (fun j => 0 <= j < N) (zrange 0 N)).
    { apply Forall_forall. intros j Hj. now apply elem_of_zrange in Hj. }
    induction Hall as [|j l Hj _ IH]; [reflexivity|].
    cbn [List.filter fmap list_fmap]. rewrite (isWithin_gathered s j r Hs Hj).
    destruct (isWithin pos (pick s) r (pick j)); cbn [fmap list_fmap];
      now rewrite IH. }
  rewrite E, pick_all. apply filter_Permutation_NoDup.
  - unfold is_permutation in sel_perm. rewrite sel_perm. apply NoDup_zrange.
  - apply NoDup_zrange.
  - intros i _. unfold is_permutation in sel_perm. now rewrite sel_perm.
Qed.

Lemma fmap_gathered (f : Z -> vec3 R) (g : Z -> vec3 R) (l : list Z) :
  Forall (fun j => 0 <= j < N) l ->
  (forall j, 0 <= j < N -> f j = g (pick j)) ->
  f <$> l = g <$> (pick <$> l).
Proof.
  intros Hl Hfg. rewrite <- list_fmap_compose. apply Forall_fmap_ext.
  eapply Forall_impl; [exact Hl|]. intros j Hj. cbn. now apply Hfg.
Qed.

Lemma filter_range (w : Z -> bool) :
  Forall (fun j => 0 <= j < N) (List.filter w (zrange 0 N)).
Proof.
  apply Forall_forall. intros j Hj.
  apply list_elem_of_In, List.filter_In in Hj as [Hj _].
  apply list_elem_of_In in Hj. now apply elem_of_zrange in Hj.
Qed.

Lemma accumulated_gathered (s : Z) (a : accum R) :
  0 <= s < N ->
  accumulated cpos cvel s (zrange 0 N) a ->
  accumulated pos vel (pick s) (zrange 0 N) a.
Proof.
  intros Hs (E1 & E2 & E3 & E4 & E5). unfold accumulated.
  rewrite E1, E2, E3, E4, E5.
  rewrite (fmap_gathered (fun i => cpos !!! Z.to_nat i)
             (fun i => pos !!! Z.to_nat i)
             (List.filter (isWithin cpos s rule1Distance) (zrange 0 N))
             (filter_range _))
    by (intros j Hj; now apply gathered_pos).
  rewrite (fmap_gathered (fun i => cvel !!! Z.to_nat i)
             (fun i => vel !!! Z.to_nat i)
             (List.filter (isWithin cpos s rule3Distance) (zrange 0 N))
             (filter_range _))
    by (intros j Hj; now apply gathered_vel).
  rewrite (fmap_gathered
             (fun i => vsub (cpos !!! Z.to_nat s) (cpos !!! Z.to_nat i))
             (fun i => vsub (pos !!! Z.to_nat (pick s)) (pos !!! Z.to_nat i))
             (List.filter (isWithin cpos s rule2Distance) (zrange 0 N))
             (filter_range _))
    by (intros j Hj; now rewrite (gathered_pos s Hs), (gathered_pos j Hj)).
  repeat split;
    try (apply vsum_Permutation, fmap_Permutation, withinRule_gathered, Hs).
  - f_equal. f_equal.
    rewrite <- (Permutation_length (withinRule_gathered s rule1Distance Hs)).
    now rewrite length_fmap.
  - f_equal. f_equal.
    rewrite <- (Permutation_length (withinRule_gathered s rule3Distance Hs)).
    now rewrite length_fmap.
Qed.

(** The velocity of slot [s] computed on the coherent arrays is the
    velocity of its boid computed on the original arrays. *)
Lemma flockingVelocity_gathered (s : Z) :
  0 <= s < N ->
  flockingVelocity cpos cvel s = flockingVelocity pos vel (pick s).
Proof.
  intros Hs. destruct gathered_length as [Hc1 Hc2].
  assert (HcN : Z.of_nat (length cpos) = N) by (unfold N; lia).
  assert (Hcv : length cvel = length cpos) by lia.
  destruct (accumulate_from_zero cpos cvel s Hcv ltac:(lia) (zrange 0 N))
    as (a & _ & Ha).
  { apply Forall_forall. intros j Hj. apply elem_of_zrange in Hj. lia. }
  pose proof (accumulated_gathered s a Hs Ha) as Ha'.
  rewrite <- HcN in Ha.
  pose proof (scaleRules_accumulated cpos cvel s Hcv ltac:(lia) a Ha) as Ec.
  pose proof (scaleRules_accumulated pos vel (pick s) vel_length N_unsigned a Ha')
    as Ep.
  cbv beta in Ec, Ep. rewrite (gathered_pos s Hs) in Ec. rewrite Ec in Ep.
  pose proof (f_equal (fun t => t.1.1) Ep) as E1.
  pose proof (f_equal (fun t => t.1.2) Ep) as E2.
  pose proof (f_equal snd Ep) as E3. cbn [fst snd] in E1, E2, E3.
  unfold flockingVelocity. now rewrite E1, E2, E3, (gathered_vel s Hs).
Qed.

End Gathered.

(** ** One step of the simulation *)

Lemma wrapCoordinate_in_world (c : R) : (-100 <= wrapCoordinate c <= 100)%R.
Proof.
  destruct (wrapCoordinate_exact c) as (H1 & H2 & H3).
  destruct (Rlt_dec c (-100)) as [Hlo|Hlo]; [rewrite H1 by assumption; lra|].
  destruct (Rlt_dec 100 c) as [Hhi|Hhi]; [rewrite H2 by assumption; lra|].
  rewrite H3 by lra. lra.
Qed.

Lemma integrate_in_world (dt : R) (p v : vec3 R) : in_world (integrate dt p v).
Proof.
  unfold integrate, in_world, vmap. cbn [vx vy vz].
  auto using wrapCoordinate_in_world.
Qed.

Lemma integrate_all_in_world (dt : R) (pos vel : list (vec3 R)) :
  Forall in_world (zip_with (integrate dt) pos vel).
Proof.
  apply Forall_forall. intros q Hq.
  apply elem_of_zip_with in Hq as (p & v & -> & _ & _).
  apply integrate_in_world.
Qed.

Lemma fillCoherent_launch {V : Type} (N : Z) (idx : list Z)
    (pos vel cpos0 cvel0 : list V) :
  Z.of_nat (length idx) = N -> Z.of_nat (length pos) = N ->
  Z.of_nat (length vel) = N -> Z.of_nat (length cpos0) = N ->
  Z.of_nat (length cvel0) = N ->
  Forall (fun k => 0 <= k < N) idx ->
  launch (fullBlocks N) (kernFillCoherentArrays N idx pos vel) (cpos0, cvel0)
  = Done (gather idx pos, gather idx vel).
Proof.
  intros Hi Hp Hv Hc1 Hc2 Hr. subst N. unfold launch.
  apply fillCoherent_sched; try lia; [|reflexivity].
  now rewrite Hp.
Qed.

Lemma fillOriginal_launch {V : Type} (N : Z) (idx : list Z)
    (cpos cvel pos0 vel0 : list V) :
  is_permutation N idx ->
  Z.of_nat (length cpos) = N -> Z.of_nat (length cvel) = N ->
  Z.of_nat (length pos0) = N -> Z.of_nat (length vel0) = N -> 0 <= N ->
  exists pos vel : list V,
    launch (fullBlocks N) (kernFillOriginalArrays N idx cpos cvel) (pos0, vel0)
    = Done (pos, vel) /\
    Z.of_nat (length pos) = N /\ Z.of_nat (length vel) = N /\
    forall (i : nat) (k : Z), idx !! i = Some k ->
      pos !! Z.to_nat k = cpos !! i /\ vel !! Z.to_nat k = cvel !! i.
Proof.
  intros Hperm Hc1 Hc2 Hp0 Hv0 HN.
  pose proof (is_permutation_length N idx Hperm) as Hlen.
  assert (EN : N = Z.of_nat (length idx)) by lia.
  rewrite EN in Hperm |- *.
  destruct (fillOriginal_sched idx Hperm
              (threads (fullBlocks (Z.of_nat (length idx)))) cpos cvel pos0 vel0)
    as (p & v & E & H1 & H2 & H3); try lia; [reflexivity|].
  exists p, v. unfold launch. rewrite E.
  split; [reflexivity|]. split; [lia|]. split; [lia|]. exact H3.
Qed.

Section Steps.

Variable sort_by_key : list Z -> list Z -> list Z * list Z.
Hypothesis sort_ok : sorts_by_key sort_by_key.
Variable s : sim R.
Hypothesis s_ok : sim_ok s.
Variable dt : R.

Let N : Z := numObjects s.
Let pos : list (vec3 R) := dev_pos s.
Let vel1 : list (vec3 R) := dev_vel1 s.
Let ids : list Z := (fun p => cellId 22 (cellOf p)) <$> pos.
Let keys : list Z := (sort_by_key ids (zrange 0 N)).1.
Let pai : list Z := (sort_by_key ids (zrange 0 N)).2.
Let velN : list (vec3 R) := flockingVelocity pos vel1 <$> zrange 0 N.
Let posN : list (vec3 R) := zip_with (integrate dt) pos velN.

Lemma pos_length : Z.of_nat (length pos) = N.
Proof. exact (proj1 (proj1 (proj2 s_ok))). Qed.

Lemma vel1_length : length vel1 = length pos.
Proof.
  destruct s_ok as (_ & (Hp & Hv & _) & _). unfold vel1, pos. lia.
Qed.

Lemma N_bounds : 0 <= N < 2 ^ 31.
Proof. exact (proj1 s_ok). Qed.

Lemma ids_length : length ids = length (zrange 0 N).
Proof.
  unfold ids. rewrite length_fmap, length_zrange.
  pose proof pos_length. lia.
Qed.

Lemma sorted_facts :
  zip keys pai ≡ₚ zip ids (zrange 0 N) /\ Sorted Z.le keys /\
  Z.of_nat (length keys) = N /\ Z.of_nat (length pai) = N.
Proof.
  destruct (sort_ok ids (zrange 0 N) ids_length) as (Hp & Hs & Hk & Hv).
  fold keys pai in Hp, Hs, Hk, Hv.
  rewrite ids_length, length_zrange in Hk, Hv. pose proof N_bounds.
  repeat split; auto; lia.
Qed.

Lemma pai_perm : is_permutation N pai.
Proof.
  destruct sorted_facts as (Hp & _ & Hk & Hv). unfold is_permutation.
  rewrite <- (snd_zip keys pai) by lia.
  rewrite <- (snd_zip ids (zrange 0 N)) by (rewrite ids_length; lia).
  now apply fmap_Permutation.
Qed.

Lemma keys_pai (j : nat) (k i : Z) :
  keys !! j = Some k -> pai !! j = Some i ->
  k = cellId 22 (cellOf (pos !!! Z.to_nat i)).
Proof.
  intros Ek Ei. destruct sorted_facts as (Hp & _ & _ & _).
  assert (Hin : (k, i) ∈ zip keys pai).
  { apply list_elem_of_lookup. exists j.
    apply lookup_zip_with_Some. eauto. }
  rewrite Hp in Hin. apply list_elem_of_lookup in Hin as [n En].
  apply lookup_zip_with_Some in En as (k' & i' & E & Ek' & Ei').
  inversion E. subst k' i'.
  pose proof (lookup_lt_Some _ _ _ Ei') as Hn. rewrite length_zrange in Hn.
  rewrite lookup_zrange in Ei' by lia. inversion Ei'. subst i.
  rewrite Z.add_0_l, Nat2Z.id. unfold ids in Ek'.
  rewrite list_lookup_fmap in Ek'.
  destruct (pos !! n) as [p|] eqn:Epn; [|discriminate].
  inversion Ek'. now rewrite (list_lookup_total_correct _ _ _ Epn).
Qed.

Lemma pos_in_world : Forall in_world pos.
Proof. exact (proj2 (proj2 (proj2 (proj2 s_ok)))). Qed.

Lemma keys_valid : Forall (fun k => 0 <= k < 10648) keys.
Proof.
  apply Forall_lookup. intros j k Ek.
  destruct sorted_facts as (_ & _ & Hk & Hv).
  pose proof (lookup_lt_Some _ _ _ Ek) as Hj.
  destruct (lookup_lt_is_Some_2 pai j ltac:(lia)) as [i Ei].
  rewrite (keys_pai j k i Ek Ei).
  pose proof (is_permutation_range N pai pai_perm) as Hr.
  rewrite Forall_lookup in Hr. pose proof (Hr _ _ Ei) as Hi. cbn beta in Hi.
  pose proof pos_length as Hpl. pose proof pos_in_world as Hw.
  rewrite Forall_lookup in Hw.
  assert (Hin : in_world (pos !!! Z.to_nat i)).
  { apply (Hw (Z.to_nat i)). apply list_lookup_lookup_total_lt. lia. }
  apply (cellId_range 22). pose proof (cellOf_in_grid _ Hin). unfold in_grid. lia.
Qed.

(** The grid of the step. *)
Lemma rebuildGrid_exact :
  exists starts ends : list Z,
    rebuildGrid sort_by_key s = Done (pai, keys, starts, ends) /\
    range_table 10648 keys starts ends.
Proof.
  destruct s_ok as (HN & (Hp & Hv1 & Hv2 & Hpai & Hpgi & Hcp & Hcv) & (Hst & Hen)
                    & (Hcc & Hsc & Hcw & Hicw & Hmin) & Hw).
  destruct sorted_facts as (_ & Hsorted & Hk & Hv).
  unfold rebuildGrid. rewrite Hsc, Hmin, Hicw, Hcc.
  rewrite (kernComputeIndices_in_world (numObjects s) (dev_pos s)) by assumption.
  rewrite obind_ret. fold N pos ids.
  assert (Es : sort_by_key ids (zrange 0 N) = (keys, pai))
    by (unfold keys, pai; apply surjective_pairing).
  rewrite Es.
  destruct (buildCellRanges_sched_correct keys 10648 keys_valid Hsorted
              (threads (fullBlocks 10648)) (threads (fullBlocks 10648))
              (threads (fullBlocks (Z.of_nat (length keys))))
              (dev_gridCellStartIndices s, dev_gridCellEndIndices s))
    as (starts & ends & E & Ht); auto.
  exists starts, ends. split; [|exact Ht].
  unfold buildCellRanges. rewrite <- Hk, E. reflexivity.
Qed.

(** The brute-force step. *)
Lemma stepSimulationNaive_exact :
  exists s' : sim R,
    stepSimulationNaive dt s = Done s' /\
    dev_pos s' = posN /\ dev_vel1 s' = velN /\ sim_ok s'.
Proof.
  destruct s_ok as (HN & (Hp & Hv1 & Hv2 & Hpai & Hpgi & Hcp & Hcv) & (Hst & Hen)
                    & (Hcc & Hsc & Hcw & Hicw & Hmin) & Hw).
  unfold stepSimulationNaive.
  rewrite kernUpdateVelocityBruteForce_launch by (auto; lia).
  rewrite obind_ret. fold N pos vel1 velN.
  assert (HvN : Z.of_nat (length velN) = N).
  { unfold velN. rewrite length_fmap, length_zrange. unfold N. lia. }
  rewrite kernUpdatePos_launch by assumption.
  rewrite obind_ret. fold posN.
  eexists. split; [reflexivity|]. cbn [dev_pos dev_vel1].
  split; [reflexivity|]. split; [reflexivity|].
  unfold sim_ok. cbn.
  assert (HpN : Z.of_nat (length posN) = numObjects s).
  { unfold posN. rewrite length_zip_with. fold N. unfold pos. lia. }
  repeat split; auto; try lia. apply integrate_all_in_world.
Qed.

Lemma pai_length : Z.of_nat (length pai) = N.
Proof. exact (proj2 (proj2 (proj2 sorted_facts))). Qed.

Lemma keys_length : length keys = length pos.
Proof.
  pose proof (proj1 (proj2 (proj2 sorted_facts))). pose proof pos_length. lia.
Qed.

Lemma pai_perm' : is_permutation (Z.of_nat (length pos)) pai.
Proof. rewrite pos_length. exact pai_perm. Qed.

Lemma velN_length : Z.of_nat (length velN) = N.
Proof.
  unfold velN. rewrite length_fmap, length_zrange. pose proof N_bounds. lia.
Qed.

(** The velocity kernel of the scattered grid. *)
Lemma scattered_launch (starts ends : list Z) (cellWidth : R)
    (vel2 : list (vec3 R)) :
  range_table 10648 keys starts ends -> Z.of_nat (length vel2) = N ->
  launch (fullBlocks N)
    (kernUpdateVelNeighborSearchScattered false N 22 firstGridMinimum
       (1 / 10)%R cellWidth starts ends pai pos vel1) vel2
  = Done velN.
Proof.
  intros Ht Hv2. pose proof pos_length as Hp. pose proof N_bounds as HN.
  apply launch_pointwise; [exact Hv2 | |].
  - intros i v Hi. unfold kernUpdateVelNeighborSearchScattered.
    destruct (Z.geb_spec i N); [reflexivity | lia].
  - intros i v Hi Hlen _. unfold kernUpdateVelNeighborSearchScattered.
    destruct (Z.geb_spec i N); [lia|].
    apply (neighborSearch_exact pos vel1 keys pai starts ends
             (fun j => aread pai j) vel1_length pos_in_world pai_perm'
             keys_length keys_pai Ht); try lia.
    intros j Hj. apply aread_lookup; [lia|].
    apply list_lookup_lookup_total_lt. pose proof pai_length. lia.
Qed.

(** The step on the scattered grid. *)
Lemma stepSimulationScatteredGrid_exact :
  exists s' : sim R,
    stepSimulationScatteredGrid false sort_by_key dt s = Done s' /\
    dev_pos s' = posN /\ dev_vel1 s' = velN /\ sim_ok s'.
Proof.
  destruct rebuildGrid_exact as (starts & ends & Eg & Ht).
  destruct s_ok as (HN & (Hp & Hv1 & Hv2 & Hpai & Hpgi & Hcp & Hcv) & (Hst & Hen)
                    & (Hcc & Hsc & Hcw & Hicw & Hmin) & Hw).
  unfold stepSimulationScatteredGrid. rewrite Eg, obind_ret. cbv beta iota.
  rewrite Hsc, Hmin, Hicw. fold N pos vel1.
  rewrite (scattered_launch starts ends _ (dev_vel2 s) Ht Hv2), obind_ret.
  rewrite kernUpdatePos_launch by (auto using velN_length).
  rewrite obind_ret. fold posN.
  eexists. split; [reflexivity|]. cbn [dev_pos dev_vel1].
  split; [reflexivity|]. split; [reflexivity|].
  destruct Ht as (Hs & He & _). pose proof sorted_facts as (_ & _ & Hk & Hv).
  pose proof velN_length.
  assert (HpN : Z.of_nat (length posN) = numObjects s).
  { unfold posN. rewrite length_zip_with. fold N. unfold pos. lia. }
  unfold sim_ok. cbn. fold N.
  repeat split; auto; try lia. apply integrate_all_in_world.
Qed.

Let cpos : list (vec3 R) := gather pai pos.
Let cvel : list (vec3 R) := gather pai vel1.

Lemma pai_range (arr : list (vec3 R)) :
  Z.of_nat (length arr) = N ->
  Forall (fun k => 0 <= k < Z.of_nat (length arr)) pai.
Proof. intros ->. exact (is_permutation_range N pai pai_perm). Qed.

Lemma cpos_length : Z.of_nat (length cpos) = N.
Proof.
  unfold cpos. rewrite (length_gather pai pos (pai_range pos pos_length)).
  exact pai_length.
Qed.

Lemma cvel_length : Z.of_nat (length cvel) = N.
Proof.
  pose proof vel1_length. pose proof pos_length.
  unfold cvel. rewrite (length_gather pai vel1 (pai_range vel1 ltac:(lia))).
  exact pai_length.
Qed.

Lemma cpos_lookup (j : nat) (k : Z) :
  pai !! j = Some k -> cpos !! j = pos !! Z.to_nat k.
Proof. apply lookup_gather. exact (pai_range pos pos_length). Qed.

Lemma cpos_in_world : Forall in_world cpos.
Proof.
  apply Forall_lookup. intros j p E.
  pose proof (lookup_lt_Some _ _ _ E) as Hj. pose proof cpos_length.
  destruct (lookup_lt_is_Some_2 pai j ltac:(pose proof pai_length; lia)) as [k Ek].
  rewrite (cpos_lookup j k Ek) in E. pose proof pos_in_world as Hw.
  rewrite Forall_lookup in Hw. exact (Hw _ _ E).
Qed.

Lemma gathered_velN : flockingVelocity cpos cvel <$> zrange 0 N = gather pai velN.
Proof.
  pose proof N_bounds as HN. pose proof pos_length as Hp.
  pose proof velN_length as HvN. pose proof pai_length as Hpai.
  apply list_eq. intros j. rewrite list_lookup_fmap.
  destruct (decide (Z.of_nat j < N)) as [Hj|Hj].
  - rewrite lookup_zrange by lia. cbn. rewrite Z.add_0_l.
    unfold cpos, cvel.
    rewrite (flockingVelocity_gathered pos vel1 pai vel1_length pai_perm')
      by lia.
    rewrite Nat2Z.id.
    destruct (lookup_lt_is_Some_2 pai j ltac:(lia)) as [k Ek].
    rewrite (list_lookup_total_correct _ _ _ Ek).
    rewrite (lookup_gather pai velN j k (pai_range velN HvN) Ek).
    pose proof (is_permutation_range N pai pai_perm) as Hr.
    rewrite Forall_lookup in Hr. pose proof (Hr _ _ Ek) as Hk. cbn beta in Hk.
    unfold velN. rewrite list_lookup_fmap, lookup_zrange by lia. cbn.
    rewrite Z.add_0_l. now rewrite Z2Nat.id by lia.
  - rewrite !lookup_ge_None_2; [reflexivity | |].
    + rewrite (length_gather pai velN (pai_range velN HvN)). lia.
    + rewrite length_zrange. lia.
Qed.

(** The velocity kernel of the coherent grid. *)
Lemma coherent_launch (starts ends : list Z) (cellWidth : R)
    (vel2 : list (vec3 R)) :
  range_table 10648 keys starts ends -> Z.of_nat (length vel2) = N ->
  launch (fullBlocks N)
    (kernUpdateVelNeighborSearchCoherent false N 22 firstGridMinimum
       (1 / 10)%R cellWidth starts ends cpos cvel) vel2
  = Done (gather pai velN).
Proof.
  intros Ht Hv2. pose proof pos_length as Hp. pose proof N_bounds as HN.
  pose proof cpos_length as Hcp. pose proof cvel_length as Hcv.
  pose proof pai_length as Hpai.
  rewrite <- gathered_velN.
  apply launch_pointwise; [exact Hv2 | |].
  - intros i v Hi. unfold kernUpdateVelNeighborSearchCoherent.
    destruct (Z.geb_spec i N); [reflexivity | lia].
  - intros i v Hi Hlen _. unfold kernUpdateVelNeighborSearchCoherent.
    destruct (Z.geb_spec i N); [lia|].
    apply (neighborSearch_exact cpos cvel keys (zrange 0 N) starts ends
             (fun j => mret j)); try lia.
    + exact cpos_in_world.
    + rewrite Hcp. unfold is_permutation. reflexivity.
    + pose proof keys_length. lia.
    + intros j k i' Ek Ei'.
      pose proof (lookup_lt_Some _ _ _ Ei') as Hj. rewrite length_zrange in Hj.
      rewrite lookup_zrange in Ei' by lia. inversion Ei'. subst i'.
      rewrite Z.add_0_l, Nat2Z.id.
      destruct (lookup_lt_is_Some_2 pai j ltac:(lia)) as [i' Ei].
      rewrite (keys_pai j k i' Ek Ei). f_equal. f_equal.
      pose proof (is_permutation_range N pai pai_perm) as Hr.
      rewrite Forall_lookup in Hr. pose proof (Hr _ _ Ei) as Hi'. cbn beta in Hi'.
      symmetry. apply list_lookup_total_correct.
      rewrite (cpos_lookup j i' Ei).
      apply list_lookup_lookup_total_lt. lia.
    + exact Ht.
    + intros j Hj. cbn. f_equal. symmetry.
      apply list_lookup_total_correct.
      rewrite lookup_zrange by lia. f_equal. lia.
Qed.

(** The step on the coherent grid. *)
Lemma stepSimulationCoherentGrid_exact :
  exists s' : sim R,
    stepSimulationCoherentGrid false sort_by_key dt s = Done s' /\
    dev_pos s' = posN /\ dev_vel1 s' = velN /\ sim_ok s'.
Proof.
  destruct rebuildGrid_exact as (starts & ends & Eg & Ht).
  pose proof cpos_length as Hcpl. pose proof cvel_length as Hcvl.
  pose proof velN_length as HvN. pose proof pai_length as Hpail.
  pose proof N_bounds as HNb. pose proof vel1_length as Hv1l.
  destruct s_ok as (HN & (Hp & Hv1 & Hv2 & Hpai & Hpgi & Hcp & Hcv) & (Hst & Hen)
                    & (Hcc & Hsc & Hcw & Hicw & Hmin) & Hw).
  unfold stepSimulationCoherentGrid. rewrite Eg, obind_ret. cbv beta iota.
  rewrite Hsc, Hmin, Hicw. fold N pos vel1.
  rewrite (fillCoherent_launch N pai pos vel1) by
    (auto; exact (is_permutation_range N pai pai_perm)).
  rewrite obind_ret. cbv beta iota. fold cpos cvel.
  rewrite (coherent_launch starts ends _ (dev_coherentVel2 s) Ht Hcv), obind_ret.
  assert (HgN : Z.of_nat (length (gather pai velN)) = N).
  { rewrite (length_gather pai velN (pai_range velN HvN)). exact Hpail. }
  rewrite kernUpdatePos_launch by assumption. rewrite obind_ret.
  set (cposN := zip_with (integrate dt) cpos (gather pai velN)).
  assert (HcN : Z.of_nat (length cposN) = N).
  { unfold cposN. rewrite length_zip_with. lia. }
  destruct (fillOriginal_launch N pai cposN (gather pai velN) pos vel1 pai_perm)
    as (p' & v' & E & Hp' & Hv' & Hlk); auto; try lia.
  rewrite E, obind_ret. cbv beta iota.
  assert (Ev : v' = velN).
  { apply list_eq. intros k.
    destruct (decide (Z.of_nat k < N)) as [Hk|Hk].
    - destruct (is_permutation_surj N pai (Z.of_nat k) pai_perm ltac:(lia))
        as [i Ei].
      destruct (Hlk i _ Ei) as [_ Ev]. rewrite Nat2Z.id in Ev. rewrite Ev.
      rewrite (lookup_gather pai velN i _ (pai_range velN HvN) Ei).
      now rewrite Nat2Z.id.
    - rewrite !lookup_ge_None_2; auto; lia. }
  assert (Ep : p' = posN).
  { apply list_eq. intros k.
    destruct (decide (Z.of_nat k < N)) as [Hk|Hk].
    - destruct (is_permutation_surj N pai (Z.of_nat k) pai_perm ltac:(lia))
        as [i Ei].
      destruct (Hlk i _ Ei) as [Ep _]. rewrite Nat2Z.id in Ep. rewrite Ep.
      unfold cposN, posN. rewrite !lookup_zip_with.
      rewrite (cpos_lookup i _ Ei).
      rewrite (lookup_gather pai velN i _ (pai_range velN HvN) Ei).
      now rewrite Nat2Z.id.
    - assert (Z.of_nat (length posN) = N).
      { unfold posN. rewrite length_zip_with. unfold pos. lia. }
      rewrite !lookup_ge_None_2; auto; lia. }
  subst p' v'.
  eexists. split; [reflexivity|]. cbn [dev_pos dev_vel1].
  split; [reflexivity|]. split; [reflexivity|].
  destruct Ht as (Hs & He & _). pose proof sorted_facts as (_ & _ & Hk & Hv).
  unfold sim_ok. cbn. fold N.
  repeat split; auto; try lia. apply integrate_all_in_world.
Qed.

End Steps.

(** C1.  In exact arithmetic, where sums do not depend on their order:
    for every state of the simulation (buffers sized for N boids, grid
    parameters of the first initialisation, boids within the world
    bounds), every time step [dt] and every sort that meets the contract
    of [thrust::sort_by_key], one step of each of the three strategies
    (brute force, scattered grid, coherent grid, with the 27-cell
    search) succeeds, and the three resulting states hold the same
    position and the same velocity for every boid.  Each resulting state
    is again such a state, so the three strategies agree step after
    step. *)
Theorem three_strategies_agree
    (sort_by_key : list Z -> list Z -> list Z * list Z) (dt : R) (s : sim R) :
  sorts_by_key sort_by_key -> sim_ok s ->
  exists sN sS sC : sim R,
    stepSimulationNaive dt s = Done sN /\
    stepSimulationScatteredGrid false sort_by_key dt s = Done sS /\
    stepSimulationCoherentGrid false sort_by_key dt s = Done sC /\
    (dev_pos sS = dev_pos sN /\ dev_vel1 sS = dev_vel1 sN) /\
    (dev_pos sC = dev_pos sN /\ dev_vel1 sC = dev_vel1 sN) /\
    sim_ok sN /\ sim_ok sS /\ sim_ok sC.
Proof.
  intros Hsort Hok.
  destruct (stepSimulationNaive_exact s Hok dt) as (sN & EN & HpN & HvN & HokN).
  destruct (stepSimulationScatteredGrid_exact sort_by_key Hsort s Hok dt)
    as (sS & ES & HpS & HvS & HokS).
  destruct (stepSimulationCoherentGrid_exact sort_by_key Hsort s Hok dt)
    as (sC & EC & HpC & HvC & HokC).
  exists sN, sS, sC.
  split; [exact EN|]. split; [exact ES|]. split; [exact EC|].
  split; [split; congruence|]. split; [split; congruence|]. auto.
Qed.

Lemma three_strategies_agree_witness :
  let zero : vec3 R := Vec3 0%R 0%R 0%R in
  let s : sim R :=
    Sim 2 [Vec3 (-89)%R 0%R 0%R; Vec3 (-91)%R 0%R 0%R] [zero; zero] [zero; zero]
      [0; 0] [0; 0]
      (replicate (Z.to_nat 10648) 0) (replicate (Z.to_nat 10648) 0)
      [zero; zero] [zero; zero] 10648 22 10%R (1 / 10)%R firstGridMinimum in
  exists sN sS sC : sim R,
    stepSimulationNaive 1%R s = Done sN /\
    stepSimulationScatteredGrid false insertion_sort_by_key 1%R s = Done sS /\
    stepSimulationCoherentGrid false insertion_sort_by_key 1%R s = Done sC /\
    (dev_pos sS = dev_pos sN /\ dev_vel1 sS = dev_vel1 sN) /\
    (dev_pos sC = dev_pos sN /\ dev_vel1 sC = dev_vel1 sN) /\
    sim_ok sN /\ sim_ok sS /\ sim_ok sC.
Proof.
  intros zero s.
  apply (three_strategies_agree insertion_sort_by_key 1%R s).
  - exact insertion_sort_sorts.
  - unfold sim_ok, s. cbn [numObjects dev_pos dev_vel1 dev_vel2
      dev_particleArrayIndices dev_particleGridIndices dev_gridCellStartIndices
      dev_gridCellEndIndices dev_coherentVel2 dev_coherentPos gridCellCount
      gridSideCount gridCellWidth gridInverseCellWidth gridMinimum length].
    rewrite !length_replicate.
    repeat split; try lia; try reflexivity.
    repeat constructor; unfold in_world; cbn [vx vy vz]; lra.
Defined.

(** ** The seed hash *)

Lemma uint32_range (z : Z) : 0 <= uint32 z < 2 ^ 32.
Proof. unfold uint32. apply Z.mod_pos_bound. lia. Qed.

Lemma uint32_small (z : Z) : 0 <= z < 2 ^ 32 -> uint32 z = z.
Proof. intros Hz. unfold uint32. apply Z.mod_small. exact Hz. Qed.

Lemma lxor_mod_pow2 (x y n : Z) :
  0 <= n -> Z.lxor x y mod 2 ^ n = Z.lxor (x mod 2 ^ n) (y mod 2 ^ n).
Proof.
  intros Hn. rewrite <- !Z.land_ones by lia.
  apply Z.bits_inj'. intros k Hk.
  rewrite Z.lxor_spec, !Z.land_spec, Z.lxor_spec.
  destruct (Z.testbit x k), (Z.testbit y k), (Z.testbit (Z.ones n) k); reflexivity.
Qed.

Lemma lxor_uint32_range (x y : Z) :
  0 <= x < 2 ^ 32 -> 0 <= y < 2 ^ 32 -> 0 <= Z.lxor x y < 2 ^ 32.
Proof.
  intros Hx Hy.
  assert (E : Z.lxor x y mod 2 ^ 32 = Z.lxor x y).
  { rewrite lxor_mod_pow2 by lia. rewrite !Z.mod_small by lia. reflexivity. }
  rewrite <- E. apply Z.mod_pos_bound. lia.
Qed.

Lemma shiftr_uint32_range (x k : Z) :
  0 <= k -> 0 <= x < 2 ^ 32 -> 0 <= Z.shiftr x k < 2 ^ 32.
Proof.
  intros Hk Hx. rewrite Z.shiftr_div_pow2 by lia.
  assert (0 < 2 ^ k) by (apply Z.pow_pos_nonneg; lia).
  split.
  - apply Z.div_pos; lia.
  - apply Z.le_lt_trans with x; [|lia].
    apply Z.div_le_upper_bound; [lia|]. nia.
Qed.

Lemma lxor_cancel_r (x y t : Z) : Z.lxor x t = Z.lxor y t -> x = y.
Proof.
  intros E.
  assert (E' : Z.lxor (Z.lxor x t) t = Z.lxor (Z.lxor y t) t) by (rewrite E; reflexivity).
  rewrite !Z.lxor_assoc, !Z.lxor_nilpotent, !Z.lxor_0_r in E'. exact E'.
Qed.

(** [a = (a + c) + (a << k)] is invertible: it multiplies by the odd
    number [2^k + 1]. *)
Lemma add_shift_inj (k c inv q a b : Z) :
  0 <= k -> (2 ^ k + 1) * inv = 1 + 2 ^ 32 * q ->
  0 <= a < 2 ^ 32 -> 0 <= b < 2 ^ 32 ->
  uint32 (uint32 (a + c) + uint32 (Z.shiftl a k))
  = uint32 (uint32 (b + c) + uint32 (Z.shiftl b k)) ->
  a = b.
Proof.
  intros Hk Hinv Ha Hb E.
  assert (G : forall x, uint32 (uint32 (x + c) + uint32 (Z.shiftl x k))
                        = (x * (2 ^ k + 1) + c) mod 2 ^ 32).
  { intros x. unfold uint32. rewrite <- Z.add_mod by lia.
    rewrite Z.shiftl_mul_pow2 by lia. f_equal. ring. }
  rewrite !G in E.
  assert (D : forall x, ((x * (2 ^ k + 1) + c) mod 2 ^ 32 - c) * inv mod 2 ^ 32
                        = x mod 2 ^ 32).
  { intros x.
    rewrite Z.mul_mod by lia. rewrite Zminus_mod_idemp_l.
    rewrite <- Z.mul_mod by lia.
    replace ((x * (2 ^ k + 1) + c - c) * inv) with (x * ((2 ^ k + 1) * inv))
      by ring.
    rewrite Hinv.
    replace (x * (1 + 2 ^ 32 * q)) with (x + (x * q) * 2 ^ 32) by ring.
    apply Z.mod_add. lia. }
  pose proof (D a) as Da. pose proof (D b) as Db.
  rewrite E in Da. rewrite Da in Db.
  rewrite !Z.mod_small in Db by lia. exact Db.
Qed.

(** [a = (a ^ c) ^ (a >> k)] is invertible when [2 k >= 32]. *)
Lemma xor_shift_inj (k c a b : Z) :
  16 <= k -> 0 <= a < 2 ^ 32 -> 0 <= b < 2 ^ 32 ->
  Z.lxor (Z.lxor a c) (Z.shiftr a k) = Z.lxor (Z.lxor b c) (Z.shiftr b k) ->
  a = b.
Proof.
  intros Hk Ha Hb E.
  assert (D : forall x, 0 <= x < 2 ^ 32 ->
            let z := Z.lxor (Z.lxor (Z.lxor x c) (Z.shiftr x k)) c in
            Z.lxor z (Z.shiftr z k) = x).
  { intros x Hx z. subst z. apply Z.bits_inj'. intros n Hn.
    rewrite !Z.lxor_spec, !Z.shiftr_spec, !Z.lxor_spec, !Z.shiftr_spec by lia.
    assert (Hhi : Z.testbit x (n + k + k) = false).
    { destruct (Z.eq_dec x 0) as [->|Hx0]; [apply Z.bits_0|].
      apply Z.bits_above_log2; [lia|].
      apply Z.lt_le_trans with 32; [|lia].
      apply Z.log2_lt_pow2; lia. }
    rewrite Hhi.
    destruct (Z.testbit x n), (Z.testbit c n), (Z.testbit x (n + k)),
      (Z.testbit c (n + k)); reflexivity. }
  pose proof (D a Ha) as Da. pose proof (D b Hb) as Db. cbv zeta in Da, Db.
  rewrite E in Da. rewrite Da in Db. exact Db.
Qed.

(** [a = (a + c) ^ (a << 9)] is invertible: nine more low bits of [a]
    are determined at each step. *)
Lemma add_xor_shift_step (c a b m m' : Z) :
  0 <= m -> 9 <= m' -> m' <= m + 9 -> m' <= 32 ->
  Z.lxor (uint32 (a + c)) (uint32 (Z.shiftl a 9))
  = Z.lxor (uint32 (b + c)) (uint32 (Z.shiftl b 9)) ->
  a mod 2 ^ m = b mod 2 ^ m -> a mod 2 ^ m' = b mod 2 ^ m'.
Proof.
  intros Hm Hm9 Hm' H32 E Em.
  assert (P32 : (2 ^ m' | 2 ^ 32)).
  { exists (2 ^ (32 - m')). rewrite <- Z.pow_add_r by lia. f_equal. lia. }
  assert (Pm' : 0 < 2 ^ m') by (apply Z.pow_pos_nonneg; lia).
  assert (G : forall x,
            Z.lxor (uint32 (x + c)) (uint32 (Z.shiftl x 9)) mod 2 ^ m'
            = Z.lxor ((x + c) mod 2 ^ m')
                (2 ^ 9 * ((x mod 2 ^ m) mod 2 ^ (m' - 9)))).
  { intros x. rewrite lxor_mod_pow2 by lia. unfold uint32.
    rewrite !Z.mod_mod_divide by exact P32.
    f_equal. rewrite Z.shiftl_mul_pow2 by lia.
    replace (2 ^ m') with (2 ^ 9 * 2 ^ (m' - 9))
      by (rewrite <- Z.pow_add_r by lia; f_equal; lia).
    rewrite (Z.mul_comm x), Z.mul_mod_distr_l by
      (try (apply Z.pow_nonzero; lia); lia).
    f_equal.
    symmetry. apply Z.mod_mod_divide.
    exists (2 ^ (m - (m' - 9))). rewrite <- Z.pow_add_r by lia. f_equal. lia. }
  assert (E' := f_equal (fun z => z mod 2 ^ m') E). cbv beta in E'.
  rewrite !G, Em in E'. apply lxor_cancel_r in E'.
  assert (Ea := f_equal (fun z => (z - c) mod 2 ^ m') E'). cbv beta in Ea.
  rewrite !Zminus_mod_idemp_l in Ea.
  replace (a + c - c) with a in Ea by ring.
  replace (b + c - c) with b in Ea by ring. exact Ea.
Qed.

Lemma add_xor_shift_inj (c a b : Z) :
  0 <= a < 2 ^ 32 -> 0 <= b < 2 ^ 32 ->
  Z.lxor (uint32 (a + c)) (uint32 (Z.shiftl a 9))
  = Z.lxor (uint32 (b + c)) (uint32 (Z.shiftl b 9)) ->
  a = b.
Proof.
  intros Ha Hb E.
  assert (E0 : a mod 2 ^ 0 = b mod 2 ^ 0) by (rewrite !Z.mod_1_r; reflexivity).
  pose proof (add_xor_shift_step c a b 0 9 ltac:(lia) ltac:(lia) ltac:(lia) ltac:(lia) E E0) as E9.
  pose proof (add_xor_shift_step c a b 9 18 ltac:(lia) ltac:(lia) ltac:(lia) ltac:(lia) E E9) as E18.
  pose proof (add_xor_shift_step c a b 18 27 ltac:(lia) ltac:(lia) ltac:(lia) ltac:(lia) E E18) as E27.
  pose proof (add_xor_shift_step c a b 27 32 ltac:(lia) ltac:(lia) ltac:(lia) ltac:(lia) E E27) as E32.
  rewrite !Z.mod_small in E32 by lia. exact E32.
Qed.

(** X1: [hash] maps 32-bit words to 32-bit words and is injective on them:
    two boids whose seeds differ before hashing never get the same
    hashed seed. *)
Theorem hash_injective (a b : Z) :
  0 <= a < 2 ^ 32 -> 0 <= b < 2 ^ 32 ->
  0 <= hash a < 2 ^ 32 /\ (hash a = hash b -> a = b).
Proof.
  intros Ha Hb. unfold hash. cbv zeta.
  set (a1 := uint32 (uint32 (a + 2127912214) + uint32 (Z.shiftl a 12))).
  set (b1 := uint32 (uint32 (b + 2127912214) + uint32 (Z.shiftl b 12))).
  set (a2 := Z.lxor (Z.lxor a1 3345072700) (Z.shiftr a1 19)).
  set (b2 := Z.lxor (Z.lxor b1 3345072700) (Z.shiftr b1 19)).
  set (a3 := uint32 (uint32 (a2 + 374761393) + uint32 (Z.shiftl a2 5))).
  set (b3 := uint32 (uint32 (b2 + 374761393) + uint32 (Z.shiftl b2 5))).
  set (a4 := Z.lxor (uint32 (a3 + 3550635116)) (uint32 (Z.shiftl a3 9))).
  set (b4 := Z.lxor (uint32 (b3 + 3550635116)) (uint32 (Z.shiftl b3 9))).
  set (a5 := uint32 (uint32 (a4 + 4251993797) + uint32 (Z.shiftl a4 3))).
  set (b5 := uint32 (uint32 (b4 + 4251993797) + uint32 (Z.shiftl b4 3))).
  assert (R1 : forall x, 0 <= x < 2 ^ 32 -> forall c k, 0 <= c < 2 ^ 32 -> 0 <= k ->
             0 <= Z.lxor (Z.lxor x c) (Z.shiftr x k) < 2 ^ 32).
  { intros x Hx c k Hc Hk. apply lxor_uint32_range.
    - apply lxor_uint32_range; assumption.
    - apply shiftr_uint32_range; assumption. }
  assert (Ha1 : 0 <= a1 < 2 ^ 32) by apply uint32_range.
  assert (Hb1 : 0 <= b1 < 2 ^ 32) by apply uint32_range.
  assert (Ha2 : 0 <= a2 < 2 ^ 32) by (apply R1; [assumption|lia|lia]).
  assert (Hb2 : 0 <= b2 < 2 ^ 32) by (apply R1; [assumption|lia|lia]).
  assert (Ha3 : 0 <= a3 < 2 ^ 32) by apply uint32_range.
  assert (Hb3 : 0 <= b3 < 2 ^ 32) by apply uint32_range.
  assert (Ha4 : 0 <= a4 < 2 ^ 32)
    by (apply lxor_uint32_range; apply uint32_range).
  assert (Hb4 : 0 <= b4 < 2 ^ 32)
    by (apply lxor_uint32_range; apply uint32_range).
  assert (Ha5 : 0 <= a5 < 2 ^ 32) by apply uint32_range.
  assert (Hb5 : 0 <= b5 < 2 ^ 32) by apply uint32_range.
  split; [apply R1; [assumption|lia|lia]|].
  intros E.
  apply xor_shift_inj in E; [|lia|assumption|assumption].
  apply (add_shift_inj 3 _ 954437177 2) in E; [|lia|reflexivity|assumption|assumption].
  apply add_xor_shift_inj in E; [|assumption|assumption].
  apply (add_shift_inj 5 _ 1041204193 8) in E; [|lia|reflexivity|assumption|assumption].
  apply xor_shift_inj in E; [|lia|assumption|assumption].
  apply (add_shift_inj 12 _ 16773121 16) in E; [|lia|reflexivity|assumption|assumption].
  exact E.
Qed.

Lemma hash_injective_witness :
  0 <= hash 0 < 2 ^ 32 /\ (hash 0 = hash 1 -> 0 = 1).
Proof. apply (hash_injective 0 1); lia. Defined.

(** ** More on the cell range table *)

Lemma filter_none {A : Type} (f : A -> bool) (l : list A) :
  Forall (fun x => f x = false) l -> List.filter f l = [].
Proof.
  induction 1 as [|x l Hx _ IH]; [reflexivity|].
  cbn. rewrite Hx. exact IH.
Qed.

Lemma filter_all {A : Type} (f : A -> bool) (l : list A) :
  Forall (fun x => f x = true) l -> List.filter f l = l.
Proof.
  induction 1 as [|x l Hx _ IH]; [reflexivity|].
  cbn. rewrite Hx, IH. reflexivity.
Qed.

Lemma count_key_absent (keys : list Z) (c : Z) : c ∉ keys -> count_key keys c = 0.
Proof.
  intros Hc. unfold count_key. rewrite filter_none; [reflexivity|].
  apply Forall_forall. intros x Hx. apply Z.eqb_neq. intros ->. exact (Hc Hx).
Qed.

Lemma occupies_count (keys : list Z) (c a b : Z) :
  occupies keys c a b -> count_key keys c = b - a.
Proof.
  intros (Hab & Hb & Hocc). unfold count_key.
  rewrite <- (take_drop (Z.to_nat a) keys) at 1.
  rewrite <- (take_drop (Z.to_nat (b - a)) (drop (Z.to_nat a) keys)) at 1.
  rewrite !List.filter_app, !length_app.
  rewrite (filter_none _ (take (Z.to_nat a) keys)).
  2:{ apply Forall_lookup. intros j x Hj.
      apply lookup_take_Some in Hj as [Hj Hlt].
      apply Z.eqb_neq. intros ->. apply Hocc in Hj. lia. }
  rewrite (filter_all _ (take _ (drop _ keys))).
  2:{ apply Forall_lookup. intros j x Hj.
      apply lookup_take_Some in Hj as [Hj Hlt].
      rewrite lookup_drop in Hj.
      apply Z.eqb_eq.
      assert (Hc : keys !! (Z.to_nat a + j)%nat = Some c) by (apply Hocc; lia).
      congruence. }
  rewrite (filter_none _ (drop _ (drop _ keys))).
  2:{ apply Forall_lookup. intros j x Hj.
      rewrite !lookup_drop in Hj.
      apply Z.eqb_neq. intros ->. apply Hocc in Hj. lia. }
  rewrite length_take, length_drop. cbn [length]. lia.
Qed.

(** X2: on sorted cell ids within the table, whatever the order of the
    threads, the range table counts the boids: for every cell,
    [end - start] is the number of boids labelled with it (0 for an
    empty cell, whose two entries are the sentinel), and every sorted
    position lies inside the range of its own cell. *)
Theorem cell_ranges_count_boids (M : Z) (keys s1 s2 s3 : list Z)
    (tables : list Z * list Z) :
  Sorted Z.le keys ->
  Forall (fun k => 0 <= k < M) keys ->
  Z.of_nat (length tables.1) = M -> Z.of_nat (length tables.2) = M ->
  s1 ≡ₚ threads (fullBlocks M) -> s2 ≡ₚ threads (fullBlocks M) ->
  s3 ≡ₚ threads (fullBlocks (Z.of_nat (length keys))) ->
  exists starts ends : list Z,
    buildCellRanges_sched s1 s2 s3 M (Z.of_nat (length keys)) keys tables
      = Done (starts, ends) /\
    (forall c : Z, 0 <= c < M ->
       ends !!! Z.to_nat c - starts !!! Z.to_nat c = count_key keys c) /\
    (forall (j : nat) (k : Z), keys !! j = Some k ->
       starts !!! Z.to_nat k <= Z.of_nat j < ends !!! Z.to_nat k).
Proof.
  intros Hsorted Hrange H1 H2 P1 P2 P3.
  destruct (buildCellRanges_sched_correct keys M Hrange Hsorted s1 s2 s3 tables
              H1 H2 P1 P2 P3) as (starts & ends & Hrun & Hs & He & Htab).
  exists starts, ends. split; [exact Hrun|]. split.
  - intros c Hc. destruct (Htab c Hc) as (a & b & Ha & Hb & Hcase).
    rewrite (list_lookup_total_correct _ _ _ Ha).
    rewrite (list_lookup_total_correct _ _ _ Hb).
    destruct Hcase as [[_ Hocc]|(Hno & -> & ->)].
    + rewrite (occupies_count _ _ _ _ Hocc). reflexivity.
    + rewrite count_key_absent by exact Hno. reflexivity.
  - intros j k Hj.
    assert (Hk : 0 <= k < M).
    { rewrite Forall_lookup in Hrange. exact (Hrange j k Hj). }
    destruct (Htab k Hk) as (a & b & Ha & Hb & Hcase).
    rewrite (list_lookup_total_correct _ _ _ Ha).
    rewrite (list_lookup_total_correct _ _ _ Hb).
    destruct Hcase as [[_ (_ & _ & Hocc)]|(Hno & _)].
    + apply Hocc. exact Hj.
    + destruct Hno. exact (list_elem_of_lookup_2 _ _ _ Hj).
Qed.

Lemma cell_ranges_count_boids_witness :
  exists starts ends : list Z,
    buildCellRanges_sched (threads (fullBlocks 10)) (threads (fullBlocks 10))
      (reverse (threads (fullBlocks 5))) 10 (Z.of_nat (length [4; 4; 5; 9; 9]))
      [4; 4; 5; 9; 9] (replicate 10 0, replicate 10 0)
      = Done (starts, ends) /\
    (forall c : Z, 0 <= c < 10 ->
       ends !!! Z.to_nat c - starts !!! Z.to_nat c = count_key [4; 4; 5; 9; 9] c) /\
    (forall (j : nat) (k : Z), [4; 4; 5; 9; 9] !! j = Some k ->
       starts !!! Z.to_nat k <= Z.of_nat j < ends !!! Z.to_nat k).
Proof.
  apply (cell_ranges_count_boids 10 [4; 4; 5; 9; 9]).
  - repeat constructor; lia.
  - repeat constructor; lia.
  - reflexivity.
  - reflexivity.
  - reflexivity.
  - reflexivity.
  - exact (reverse_Permutation (threads (fullBlocks 5))).
Defined.

(** A loop faults when one of its iterations faults in every state the
    loop can reach. *)
Lemma ofold_fault {A S : Type} (body : A -> S -> outcome S) (I : S -> Prop)
    (f : fault) (a0 : A) (l : list A) (s : S) :
  I s -> a0 ∈ l ->
  (forall a s, a ∈ l -> I s ->
     body a s = Fault f \/ exists s', body a s = Done s' /\ I s') ->
  (forall s, I s -> body a0 s = Fault f) ->
  ofold body l s = Fault f.
Proof.
  intros Hs Hin Hstep Hbad. revert s Hs.
  induction l as [|a l IH]; intros s Hs.
  - inversion Hin.
  - cbn [ofold]. apply elem_of_cons in Hin as [<-|Hin].
    + rewrite (Hbad s Hs). reflexivity.
    + destruct (Hstep a s ltac:(apply elem_of_cons; left; reflexivity) Hs)
        as [E|(s' & E & Hs')].
      * rewrite E. reflexivity.
      * rewrite E, obind_ret. apply IH; [exact Hin| |exact Hs'].
        intros a' s'' Ha'. apply Hstep. apply elem_of_cons. right. exact Ha'.
Qed.

Lemma aread_cases {A : Type} (arr : list A) (i : Z) :
  aread arr i = Fault OutOfBounds \/ exists a, aread arr i = Done a.
Proof.
  unfold aread. destruct (i <? 0); [left; reflexivity|].
  destruct (arr !! Z.to_nat i); [right; eauto|left; reflexivity].
Qed.

Lemma awrite_cases {A : Type} (arr : list A) (i : Z) (a : A) :
  awrite arr i a = Fault OutOfBounds \/
  exists arr', awrite arr i a = Done arr' /\ length arr' = length arr.
Proof.
  unfold awrite. destruct (i <? 0); [left; reflexivity|].
  destruct (i <? Z.of_nat (length arr)); [|left; reflexivity].
  right. eexists. split; [reflexivity|]. apply length_insert.
Qed.

Lemma awrite_outside {A : Type} (arr : list A) (i : Z) (a : A) :
  ~ 0 <= i < Z.of_nat (length arr) -> awrite arr i a = Fault OutOfBounds.
Proof.
  intros Hi. unfold awrite.
  destruct (Z.ltb_spec i 0); [reflexivity|].
  destruct (Z.ltb_spec i (Z.of_nat (length arr))); [lia|reflexivity].
Qed.

(** A thread of [kernIdentifyCellStartEnd] completes and keeps the sizes
    of the tables, or touches memory out of bounds. *)
Lemma identify_thread_cases (N : Z) (keys : list Z) (i : Z) (st en : list Z) :
  kernIdentifyCellStartEnd N keys i (st, en) = Fault OutOfBounds \/
  exists st' en',
    kernIdentifyCellStartEnd N keys i (st, en) = Done (st', en') /\
    length st' = length st /\ length en' = length en.
Proof.
  unfold kernIdentifyCellStartEnd.
  destruct (i >=? N); [right; eauto|].
  assert (Hfirst :
    (if i =? 0 then mret true
     else prev ← aread keys (i - 1); cur ← aread keys i; mret (negb (prev =? cur)))
    = Fault OutOfBounds \/
    exists b : bool,
      (if i =? 0 then mret true
       else prev ← aread keys (i - 1); cur ← aread keys i; mret (negb (prev =? cur)))
      = Done b).
  { destruct (i =? 0); [right; eexists; reflexivity|].
    destruct (aread_cases keys (i - 1)) as [E|(p & E)]; rewrite E; [left; reflexivity|].
    rewrite obind_ret.
    destruct (aread_cases keys i) as [E'|(c & E')]; rewrite E'; [left; reflexivity|].
    right. eexists. reflexivity. }
  destruct Hfirst as [E|(first & E)]; rewrite E; [left; reflexivity|].
  rewrite obind_ret.
  assert (Hst :
    (if first then cur ← aread keys i; awrite st cur i else mret st)
    = Fault OutOfBounds \/
    exists st', (if first then cur ← aread keys i; awrite st cur i else mret st)
                = Done st' /\ length st' = length st).
  { destruct first; [|right; eexists; split; reflexivity].
    destruct (aread_cases keys i) as [E'|(c & E')]; rewrite E'; [left; reflexivity|].
    rewrite obind_ret. apply awrite_cases. }
  destruct Hst as [E1|(st' & E1 & Hst')]; rewrite E1; [left; reflexivity|].
  rewrite obind_ret.
  assert (Hlast :
    (if i =? N - 1 then mret true
     else next ← aread keys (i + 1); cur ← aread keys i; mret (negb (next =? cur)))
    = Fault OutOfBounds \/
    exists b : bool,
      (if i =? N - 1 then mret true
       else next ← aread keys (i + 1); cur ← aread keys i; mret (negb (next =? cur)))
      = Done b).
  { destruct (i =? N - 1); [right; eexists; reflexivity|].
    destruct (aread_cases keys (i + 1)) as [E'|(p & E')]; rewrite E'; [left; reflexivity|].
    rewrite obind_ret.
    destruct (aread_cases keys i) as [E''|(c & E'')]; rewrite E''; [left; reflexivity|].
    right. eexists. reflexivity. }
  destruct Hlast as [E2|(last & E2)]; rewrite E2; [left; reflexivity|].
  rewrite obind_ret.
  assert (Hen :
    (if last then cur ← aread keys i; awrite en cur (i + 1) else mret en)
    = Fault OutOfBounds \/
    exists en', (if last then cur ← aread keys i; awrite en cur (i + 1) else mret en)
                = Done en' /\ length en' = length en).
  { destruct last; [|right; eexists; split; reflexivity].
    destruct (aread_cases keys i) as [E'|(c & E')]; rewrite E'; [left; reflexivity|].
    rewrite obind_ret. apply awrite_cases. }
  destruct Hen as [E3|(en' & E3 & Hen')]; rewrite E3; [left; reflexivity|].
  rewrite obind_ret. right. exists st', en'. auto.
Qed.

(** The first position that holds a key outside the table. *)
Lemma first_outside (M : Z) (keys : list Z) :
  Exists (fun k => ~ 0 <= k < M) keys ->
  exists (j : nat) (k : Z),
    keys !! j = Some k /\ ~ 0 <= k < M /\
    forall (i : nat) (k' : Z), (i < j)%nat -> keys !! i = Some k' -> 0 <= k' < M.
Proof.
  induction keys as [|k0 keys IH]; intros Hex; [inversion Hex|].
  destruct (decide (0 <= k0 < M)) as [Hin|Hout].
  - apply Exists_cons in Hex as [Hex|Hex]; [contradiction|].
    destruct (IH Hex) as (j & k & Hj & Hk & Hmin).
    exists (S j), k. split; [exact Hj|]. split; [exact Hk|].
    intros [|i] k' Hi Hk'.
    + cbn in Hk'. congruence.
    + cbn in Hk'. apply (Hmin i); [lia|exact Hk'].
  - exists 0%nat, k0. split; [reflexivity|]. split; [exact Hout|].
    intros i k' Hi. lia.
Qed.

(** X3: a cell id outside the table is not caught: whatever the order of
    the threads, building the range table then touches memory outside
    the tables (the thread at the first such position writes its start
    entry out of bounds). *)
Theorem key_outside_table_faults (M : Z) (keys s1 s2 s3 : list Z)
    (tables : list Z * list Z) :
  Exists (fun k => ~ 0 <= k < M) keys ->
  Z.of_nat (length tables.1) = M -> Z.of_nat (length tables.2) = M ->
  s1 ≡ₚ threads (fullBlocks M) -> s2 ≡ₚ threads (fullBlocks M) ->
  s3 ≡ₚ threads (fullBlocks (Z.of_nat (length keys))) ->
  buildCellRanges_sched s1 s2 s3 M (Z.of_nat (length keys)) keys tables
  = Fault OutOfBounds.
Proof.
  intros Hex H1 H2 P1 P2 P3. destruct tables as [st0 en0]. cbn [fst snd] in *.
  unfold buildCellRanges_sched.
  rewrite (reset_sched M (-1) s1 st0 H1 P1), obind_ret.
  rewrite (reset_sched M (-1) s2 en0 H2 P2), obind_ret.
  destruct (first_outside M keys Hex) as (j & k & Hj & Hk & Hmin).
  set (N := Z.of_nat (length keys)).
  assert (HjN : 0 <= Z.of_nat j < N).
  { apply lookup_lt_Some in Hj. lia. }
  unfold launch_sched.
  apply (ofold_fault _
           (fun t : list Z * list Z =>
              Z.of_nat (length t.1) = M /\ Z.of_nat (length t.2) = M)
           OutOfBounds (Z.of_nat j)).
  - cbn [fst snd]. rewrite !length_replicate. lia.
  - apply (sched_threads _ N); [exact P3|lia|exact HjN].
  - intros a [st en] _ [Hst Hen]. cbn [fst snd] in *.
    destruct (identify_thread_cases N keys a st en) as [E|(st' & en' & E & L1 & L2)].
    + left. exact E.
    + right. exists (st', en'). cbn [fst snd]. split; [exact E|]. lia.
  - intros [st en] [Hst Hen]. cbn [fst snd] in *.
    unfold kernIdentifyCellStartEnd.
    destruct (Z.geb_spec (Z.of_nat j) N) as [?|_]; [lia|].
    assert (Hcur : aread keys (Z.of_nat j) = Done k) by (apply aread_nat; exact Hj).
    assert (Hfirst :
      (if Z.of_nat j =? 0 then mret true
       else prev ← aread keys (Z.of_nat j - 1); cur ← aread keys (Z.of_nat j);
            mret (negb (prev =? cur)))
      = Done true).
    { destruct (Z.eqb_spec (Z.of_nat j) 0) as [?|Hj0]; [reflexivity|].
      destruct j as [|j']; [lia|].
      destruct (lookup_lt_is_Some_2 keys j') as [p Hp].
      { apply lookup_lt_Some in Hj. lia. }
      replace (Z.of_nat (S j') - 1) with (Z.of_nat j') by lia.
      rewrite (aread_nat _ _ _ Hp), obind_ret, Hcur, obind_ret.
      assert (Hpr : 0 <= p < M) by (apply (Hmin j'); [lia|exact Hp]).
      destruct (Z.eqb_spec p k) as [->|_]; [contradiction|reflexivity]. }
    rewrite Hfirst, obind_ret. cbv iota.
    assert (Hw : (cur ← aread keys (Z.of_nat j); awrite st cur (Z.of_nat j))
                 = Fault OutOfBounds).
    { rewrite Hcur, obind_ret. apply awrite_outside. lia. }
    rewrite Hw. reflexivity.
Qed.

Lemma key_outside_table_faults_witness :
  buildCellRanges_sched (threads (fullBlocks 10)) (threads (fullBlocks 10))
    (reverse (threads (fullBlocks 5))) 10 (Z.of_nat (length [4; 4; 5; 9; 10]))
    [4; 4; 5; 9; 10] (replicate 10 0, replicate 10 0)
  = Fault OutOfBounds.
Proof.
  apply (key_outside_table_faults 10 [4; 4; 5; 9; 10]).
  - apply Exists_exists. exists 10. split; [|lia].
    apply (bool_decide_unpack _). vm_compute. reflexivity.
  - reflexivity.
  - reflexivity.
  - reflexivity.
  - reflexivity.
  - exact (reverse_Permutation (threads (fullBlocks 5))).
Defined.



(** X5: [kernResetIntBuffer] stores [value] in the first [N] slots and
    leaves the others as they were, whatever the order of the threads;
    when the buffer has fewer than [N] slots the launch writes outside
    it. *)
Theorem reset_writes_first_slots (N value : Z) (buf sched : list Z) :
  sched ≡ₚ threads (fullBlocks N) -> 0 <= N ->
  (N <= Z.of_nat (length buf) ->
   launch_sched sched (kernResetIntBuffer N value) buf
   = Done (replicate (Z.to_nat N) value ++ drop (Z.to_nat N) buf)) /\
  (Z.of_nat (length buf) < N ->
   launch_sched sched (kernResetIntBuffer N value) buf = Fault OutOfBounds).
Proof.
  intros Hsched HN. split.
  - intros Hlen. unfold launch_sched.
    destruct (ofold_inv (kernResetIntBuffer N value)
                (fun pre s =>
                   length s = length buf /\
                   (forall j, j ∈ pre -> 0 <= j < N -> s !! Z.to_nat j = Some value) /\
                   (forall j : nat, Z.of_nat j ∉ pre \/ N <= Z.of_nat j ->
                      s !! j = buf !! j))
                sched buf) as (s' & Hrun & Hl & Hset & Hkeep).
    + split; [reflexivity|]. split; [|reflexivity].
      intros j Hj. inversion Hj.
    + intros pre a post s Hsplit (Hl & Hset & Hkeep).
      assert (Ha : 0 <= a).
      { apply (sched_nonneg _ _ _ Hsched). rewrite Hsplit.
        apply elem_of_app. right. apply elem_of_cons. left. reflexivity. }
      unfold kernResetIntBuffer.
      destruct (Z.ltb_spec a N) as [HaN|HaN].
      * rewrite awrite_ok by lia. eexists. split; [reflexivity|].
        split; [rewrite length_insert; exact Hl|]. split.
        -- intros j Hj HjN. destruct (decide (j = a)) as [->|Hne].
           ++ apply list_lookup_insert_eq. lia.
           ++ rewrite list_lookup_insert_ne by lia.
              apply Hset; [|exact HjN].
              apply elem_of_app in Hj as [Hj|Hj]; [exact Hj|].
              apply elem_of_cons in Hj as [->|Hj]; [congruence|inversion Hj].
        -- intros j Hj. rewrite list_lookup_insert_ne.
           ++ apply Hkeep. destruct Hj as [Hj|Hj]; [|right; exact Hj].
              left. intros Hin. apply Hj. apply elem_of_app. left. exact Hin.
           ++ destruct Hj as [Hj|Hj]; [|lia].
              intros E. subst j. apply Hj. apply elem_of_app. right.
              apply elem_of_cons. left. lia.
      * exists s. split; [reflexivity|]. split; [exact Hl|]. split.
        -- intros j Hj HjN. apply Hset; [|exact HjN].
           apply elem_of_app in Hj as [Hj|Hj]; [exact Hj|].
           apply elem_of_cons in Hj as [->|Hj]; [lia|inversion Hj].
        -- intros j Hj. apply Hkeep. destruct Hj as [Hj|Hj]; [|right; exact Hj].
           destruct (Z_lt_le_dec (Z.of_nat j) N) as [Hlt|Hge]; [|right; exact Hge].
           left. intros Hin. apply Hj. apply elem_of_app. left. exact Hin.
    + rewrite Hrun. f_equal. apply list_eq. intros j.
      destruct (Z_lt_le_dec (Z.of_nat j) N) as [Hlt|Hge].
      * rewrite lookup_app_l by (rewrite length_replicate; lia).
        rewrite lookup_replicate_2 by lia.
        rewrite <- (Nat2Z.id j). apply Hset; [|lia].
        apply (sched_threads _ N); [exact Hsched|lia|lia].
      * rewrite lookup_app_r by (rewrite length_replicate; lia).
        rewrite length_replicate, lookup_drop.
        rewrite Hkeep by (right; exact Hge). f_equal. lia.
  - intros Hlen. unfold launch_sched.
    apply (ofold_fault _ (fun s : list Z => length s = length buf) OutOfBounds
             (Z.of_nat (length buf))).
    + reflexivity.
    + apply (sched_threads _ N); [exact Hsched|lia|lia].
    + intros a s _ Hs. unfold kernResetIntBuffer. destruct (a <? N).
      * destruct (awrite_cases s a value) as [E|(s' & E & Hl)]; [left; exact E|].
        right. exists s'. split; [exact E|congruence].
      * right. exists s. split; [reflexivity|exact Hs].
    + intros s Hs. unfold kernResetIntBuffer.
      destruct (Z.ltb_spec (Z.of_nat (length buf)) N); [|lia].
      apply awrite_outside. lia.
Qed.

Lemma reset_writes_first_slots_witness :
  (3 <= Z.of_nat (length [7; 8; 9; 10; 11]) ->
   launch_sched (reverse (threads (fullBlocks 3))) (kernResetIntBuffer 3 (-1))
     [7; 8; 9; 10; 11]
   = Done (replicate (Z.to_nat 3) (-1) ++ drop (Z.to_nat 3) [7; 8; 9; 10; 11])) /\
  (Z.of_nat (length [7; 8; 9; 10; 11]) < 3 ->
   launch_sched (reverse (threads (fullBlocks 3))) (kernResetIntBuffer 3 (-1))
     [7; 8; 9; 10; 11] = Fault OutOfBounds).
Proof.
  apply (reset_writes_first_slots 3 (-1)).
  - exact (reverse_Permutation (threads (fullBlocks 3))).
  - lia.
Defined.

(** ** Cells and neighbor cells *)

Lemma Int_part_eq (z : Z) (r : R) : (IZR z <= r < IZR z + 1)%R -> Int_part r = z.
Proof. intros Hr. symmetry. apply Int_part_spec. lra. Qed.

Lemma vdistance_lt (p q : vec3 R) (r : R) :
  (0 < r)%R ->
  ((vx q - vx p) * (vx q - vx p) + (vy q - vy p) * (vy q - vy p)
   + (vz q - vz p) * (vz q - vz p) < r * r)%R ->
  (vdistance p q < r)%R.
Proof.
  intros Hr Hsq. unfold vdistance, vlength, vdot. vec_unfold.
  cbn [fsqrt Exact.scalar].
  rewrite <- (sqrt_square r) by lra.
  apply sqrt_lt_1_alt. split; [|exact Hsq].
  pose proof (Rle_0_sqr (vx q - vx p)). pose proof (Rle_0_sqr (vy q - vy p)).
  pose proof (Rle_0_sqr (vz q - vz p)). unfold Rsqr in *. lra.
Qed.

(** What [getGridIndex] returns when it returns. *)
Lemma getGridIndex_Done_inv (p gridMin : vec3 R) (inv : R) (c : vec3 Z) :
  getGridIndex p inv gridMin = Done c ->
  let rel := vscale (vsub p gridMin) inv in
  c = vmap Int_part rel /\ (0 <= vx rel)%R /\ (0 <= vy rel)%R /\ (0 <= vz rel)%R.
Proof.
  intros Hc rel.
  destruct (Rlt_dec (vx rel) 0) as [Hx|Hx].
  { rewrite getGridIndex_asserts in Hc by (left; exact Hx). discriminate. }
  destruct (Rlt_dec (vy rel) 0) as [Hy|Hy].
  { rewrite getGridIndex_asserts in Hc by (right; left; exact Hy). discriminate. }
  destruct (Rlt_dec (vz rel) 0) as [Hz|Hz].
  { rewrite getGridIndex_asserts in Hc by (right; right; exact Hz). discriminate. }
  rewrite getGridIndex_exact in Hc by (fold rel; lra).
  inversion Hc. repeat split; lra.
Qed.

Lemma scaled_floor_box (x g w : R) :
  (0 < w)%R ->
  (g + IZR (Int_part ((x - g) * (1 / w))) * w <= x
   < g + (IZR (Int_part ((x - g) * (1 / w))) + 1) * w)%R.
Proof.
  intros Hw. destruct (Int_part_bounds ((x - g) * (1 / w))%R) as [H1 H2].
  assert (E : ((x - g) * (1 / w) * w = x - g)%R) by (field; lra).
  split.
  - apply Rmult_le_compat_r with (r := w) in H1; [|lra]. lra.
  - apply Rmult_lt_compat_r with (r := w) in H2; [|lra]. lra.
Qed.

(** X6: in exact arithmetic, for a grid of cell width [w > 0] (and inverse
    width [1/w]), [getGridIndex] returns the cell whose box contains the
    position when the position is not below [gridMin] on any axis, and
    its assertion fails when it is. *)
Theorem getGridIndex_containing_cell (p gridMin : vec3 R) (w : R) :
  (0 < w)%R ->
  ((vx gridMin <= vx p /\ vy gridMin <= vy p /\ vz gridMin <= vz p)%R ->
   exists c : vec3 Z,
     getGridIndex p (1 / w)%R gridMin = Done c /\
     0 <= vx c /\ 0 <= vy c /\ 0 <= vz c /\
     (vx gridMin + IZR (vx c) * w <= vx p < vx gridMin + (IZR (vx c) + 1) * w)%R /\
     (vy gridMin + IZR (vy c) * w <= vy p < vy gridMin + (IZR (vy c) + 1) * w)%R /\
     (vz gridMin + IZR (vz c) * w <= vz p < vz gridMin + (IZR (vz c) + 1) * w)%R) /\
  ((vx p < vx gridMin \/ vy p < vy gridMin \/ vz p < vz gridMin)%R ->
   getGridIndex p (1 / w)%R gridMin = Fault AssertionFailed).
Proof.
  intros Hw.
  assert (Hiw : (0 < 1 / w)%R) by (apply Rdiv_lt_0_compat; lra).
  split.
  - intros (Hx & Hy & Hz).
    assert (Hrel : forall x g : R, (g <= x)%R -> (0 <= (x - g) * (1 / w))%R).
    { intros x g Hxg. apply Rmult_le_pos; lra. }
    exists (vmap Int_part (vscale (vsub p gridMin) (1 / w)%R)).
    split.
    { apply getGridIndex_exact;
        unfold vscale, vsub, vzip, vmap; cbn [vx vy vz fmul fsub Exact.scalar];
        apply Hrel; assumption. }
    unfold vscale, vsub, vzip, vmap. cbn [vx vy vz fmul fsub Exact.scalar].
    assert (Hnn : forall x g : R, (g <= x)%R -> 0 <= Int_part ((x - g) * (1 / w))%R).
    { intros x g Hxg.
      pose proof (Int_part_bounds ((x - g) * (1 / w))%R) as [_ Hb].
      pose proof (Hrel x g Hxg).
      assert (IZR (-1) < IZR (Int_part ((x - g) * (1 / w))))%R by lra.
      apply lt_IZR in H0. lia. }
    repeat split; try (apply Hnn; assumption); apply scaled_floor_box; exact Hw.
  - intros Hneg. apply getGridIndex_asserts.
    unfold vscale, vsub, vzip, vmap. cbn [vx vy vz fmul fsub Exact.scalar].
    assert (Hrel : forall x g : R, (x < g)%R -> ((x - g) * (1 / w) < 0)%R).
    { intros x g Hxg.
      replace 0%R with (0 * (1 / w))%R by ring.
      apply Rmult_lt_compat_r; lra. }
    destruct Hneg as [Hn|[Hn|Hn]]; auto.
Qed.

Lemma getGridIndex_containing_cell_witness :
  ((vx firstGridMinimum <= vx ((Vec3 (-89) 0 100)%R)
    /\ vy firstGridMinimum <= vy ((Vec3 (-89) 0 100)%R)
    /\ vz firstGridMinimum <= vz ((Vec3 (-89) 0 100)%R))%R ->
   exists c : vec3 Z,
     getGridIndex ((Vec3 (-89) 0 100)%R) (1 / 10)%R firstGridMinimum = Done c /\
     0 <= vx c /\ 0 <= vy c /\ 0 <= vz c /\
     (vx firstGridMinimum + IZR (vx c) * 10 <= vx ((Vec3 (-89) 0 100)%R)
      < vx firstGridMinimum + (IZR (vx c) + 1) * 10)%R /\
     (vy firstGridMinimum + IZR (vy c) * 10 <= vy ((Vec3 (-89) 0 100)%R)
      < vy firstGridMinimum + (IZR (vy c) + 1) * 10)%R /\
     (vz firstGridMinimum + IZR (vz c) * 10 <= vz ((Vec3 (-89) 0 100)%R)
      < vz firstGridMinimum + (IZR (vz c) + 1) * 10)%R) /\
  ((vx ((Vec3 (-89) 0 100)%R) < vx firstGridMinimum
    \/ vy ((Vec3 (-89) 0 100)%R) < vy firstGridMinimum
    \/ vz ((Vec3 (-89) 0 100)%R) < vz firstGridMinimum)%R ->
   getGridIndex ((Vec3 (-89) 0 100)%R) (1 / 10)%R firstGridMinimum
   = Fault AssertionFailed).
Proof.
  apply (getGridIndex_containing_cell ((Vec3 (-89) 0 100)%R) firstGridMinimum 10%R).
  lra.
Defined.

(** X7: in exact arithmetic, two boids closer to each other than the
    cell width lie in adjacent cells: the cell that [getGridIndex] gives
    one of them is among the 27 cells visited around the cell of the
    other.  The rule distances (at most half the cell width) are within
    that bound. *)
Theorem near_boids_in_adjacent_cells (p q gridMin : vec3 R) (w : R)
    (cp cq : vec3 Z) :
  (0 < w)%R ->
  getGridIndex p (1 / w)%R gridMin = Done cp ->
  getGridIndex q (1 / w)%R gridMin = Done cq ->
  (vdistance q p < w)%R ->
  cq ∈ neighborCells27 cp.
Proof.
  intros Hw Hp Hq Hd.
  apply getGridIndex_Done_inv in Hp as (-> & _).
  apply getGridIndex_Done_inv in Hq as (-> & _).
  apply vdistance_axes in Hd as (Hx & Hy & Hz); [|lra].
  set (rp := vscale (vsub p gridMin) (1 / w)%R).
  set (rq := vscale (vsub q gridMin) (1 / w)%R).
  replace (vmap Int_part rq)
    with (ivadd (vmap Int_part rp)
            (Vec3 (Int_part (vx rq) - Int_part (vx rp))
               (Int_part (vy rq) - Int_part (vy rp))
               (Int_part (vz rq) - Int_part (vz rp))))
    by (unfold ivadd, vzip, vmap; cbn [vx vy vz]; f_equal; lia).
  assert (Hnear : forall a b g : R, (- w < a - b < w)%R ->
            (-1 < (a - g) * (1 / w) - (b - g) * (1 / w) < 1)%R).
  { intros a b g [H1 H2].
    replace ((a - g) * (1 / w) - (b - g) * (1 / w))%R with ((a - b) / w)%R
      by (field; lra).
    split.
    - apply Rmult_lt_reg_r with w; [lra|].
      replace ((a - b) / w * w)%R with (a - b)%R by (field; lra). lra.
    - apply Rmult_lt_reg_r with w; [lra|].
      replace ((a - b) / w * w)%R with (a - b)%R by (field; lra). lra. }
  apply neighborCells27_elem; cbn [vx vy vz]; apply Int_part_near;
    unfold rp, rq, vscale, vsub, vzip, vmap; cbn [vx vy vz fmul fsub Exact.scalar];
    apply Hnear; assumption.
Qed.

Lemma near_boids_in_adjacent_cells_witness :
  Vec3 1 11 11 ∈ neighborCells27 (Vec3 2 11 11).
Proof.
  apply (near_boids_in_adjacent_cells ((Vec3 (-89) 0 0)%R) ((Vec3 (-91) 0 0)%R)
           firstGridMinimum 10%R (Vec3 2 11 11) (Vec3 1 11 11)).
  - lra.
  - rewrite getGridIndex_in_world by (unfold in_world; cbn; lra).
    unfold cellOf, vmap. cbn [vx vy vz].
    f_equal; f_equal; apply Int_part_eq; lra.
  - rewrite getGridIndex_in_world by (unfold in_world; cbn; lra).
    unfold cellOf, vmap. cbn [vx vy vz].
    f_equal; f_equal; apply Int_part_eq; lra.
  - apply vdistance_lt; [lra|]. cbn [vx vy vz]. lra.
Defined.

(** X8: whatever the scalar arithmetic, [genNeighborCells] writes eight
    distinct cells, the first of which is the cell of the boid, and each
    of them is one of the 27 cells of the full search: the 8-cell search
    never looks at a cell the 27-cell search does not look at. *)
Theorem eight_cells_among_27 {F : Type} `{Scalar F}
    (boid_pos : vec3 F) (grid_pos : vec3 Z) (gridMin : vec3 F) (cellWidth : F) :
  length (genNeighborCells boid_pos grid_pos gridMin cellWidth) = 8%nat /\
  genNeighborCells boid_pos grid_pos gridMin cellWidth !! 0%nat = Some grid_pos /\
  NoDup (genNeighborCells boid_pos grid_pos gridMin cellWidth) /\
  forall c : vec3 Z,
    c ∈ genNeighborCells boid_pos grid_pos gridMin cellWidth ->
    c ∈ neighborCells27 grid_pos.
Proof.
  unfold genNeighborCells.
  set (dx := if fltb _ _ then 1 else -1).
  set (dy := if fltb _ _ then 1 else -1).
  set (dz := if fltb _ _ then 1 else -1).
  assert (Hx : dx = 1 \/ dx = -1) by (subst dx; case_match; [left|right]; reflexivity).
  assert (Hy : dy = 1 \/ dy = -1) by (subst dy; case_match; [left|right]; reflexivity).
  assert (Hz : dz = 1 \/ dz = -1) by (subst dz; case_match; [left|right]; reflexivity).
  clearbody dx dy dz. cbn [mbind list_bind app].
  destruct grid_pos as [x y z]. unfold ivadd, vzip. cbn [vx vy vz].
  rewrite !Z.add_0_r.
  split; [reflexivity|]. split; [reflexivity|]. split.
  - repeat (apply NoDup_cons; split;
            [rewrite ?elem_of_cons, elem_of_nil;
             intros Hin; repeat (destruct Hin as [Hin|Hin]);
             try contradiction; inversion Hin; lia|]).
    apply NoDup_nil. exact I.
  - intros c Hc.
    assert (Hd : exists d : vec3 Z,
               c = Vec3 (x + vx d) (y + vy d) (z + vz d) /\
               -1 <= vx d <= 1 /\ -1 <= vy d <= 1 /\ -1 <= vz d <= 1).
    { rewrite ?elem_of_cons, elem_of_nil in Hc.
      repeat (destruct Hc as [Hc|Hc]); try contradiction; subst c.
      - exists (Vec3 0 0 0). cbn [vx vy vz]. rewrite !Z.add_0_r. repeat split; lia.
      - exists (Vec3 dx 0 0). cbn [vx vy vz]. rewrite !Z.add_0_r. repeat split; lia.
      - exists (Vec3 0 dy 0). cbn [vx vy vz]. rewrite !Z.add_0_r. repeat split; lia.
      - exists (Vec3 dx dy 0). cbn [vx vy vz]. rewrite !Z.add_0_r. repeat split; lia.
      - exists (Vec3 0 0 dz). cbn [vx vy vz]. rewrite !Z.add_0_r. repeat split; lia.
      - exists (Vec3 dx 0 dz). cbn [vx vy vz]. rewrite !Z.add_0_r. repeat split; lia.
      - exists (Vec3 0 dy dz). cbn [vx vy vz]. rewrite !Z.add_0_r. repeat split; lia.
      - exists (Vec3 dx dy dz). cbn [vx vy vz]. repeat split; lia. }
    destruct Hd as (d & -> & Hdx & Hdy & Hdz).
    exact (neighborCells27_elem (Vec3 x y z) d Hdx Hdy Hdz).
Qed.

(** X9: in exact arithmetic, [genNeighborCells] compares the boid with
    the low corner of its cell, so the neighbor it picks on an axis is
    the next cell upward unless the boid lies exactly on the low face of
    its cell: for a boid that is on no low face the eight cells are the
    cell of the boid and the seven cells above it, wherever the boid sits
    inside its cell, and no cell below it is searched. *)
Theorem eight_cells_lie_upward (p gridMin : vec3 R) (w : R) (c : vec3 Z) :
  (0 < w)%R ->
  getGridIndex p (1 / w)%R gridMin = Done c ->
  (vx p <> vx gridMin + IZR (vx c) * w)%R ->
  (vy p <> vy gridMin + IZR (vy c) * w)%R ->
  (vz p <> vz gridMin + IZR (vz c) * w)%R ->
  genNeighborCells p c gridMin w
  = [ivadd c (Vec3 0 0 0); ivadd c (Vec3 1 0 0);
     ivadd c (Vec3 0 1 0); ivadd c (Vec3 1 1 0);
     ivadd c (Vec3 0 0 1); ivadd c (Vec3 1 0 1);
     ivadd c (Vec3 0 1 1); ivadd c (Vec3 1 1 1)] /\
  forall d : vec3 Z,
    d ∈ genNeighborCells p c gridMin w ->
    vx c <= vx d /\ vy c <= vy d /\ vz c <= vz d.
Proof.
  intros Hw Hc Hx Hy Hz.
  apply getGridIndex_Done_inv in Hc as (-> & _).
  revert Hx Hy Hz. unfold vscale, vsub, vzip, vmap.
  cbn [vx vy vz fmul fsub Exact.scalar]. intros Hx Hy Hz.
  pose proof (scaled_floor_box (vx p) (vx gridMin) w Hw) as [Bx _].
  pose proof (scaled_floor_box (vy p) (vy gridMin) w Hw) as [By _].
  pose proof (scaled_floor_box (vz p) (vz gridMin) w Hw) as [Bz _].
  set (c := Vec3 (Int_part ((vx p - vx gridMin) * (1 / w)))
              (Int_part ((vy p - vy gridMin) * (1 / w)))
              (Int_part ((vz p - vz gridMin) * (1 / w)))).
  assert (E : genNeighborCells p c gridMin w
              = [ivadd c (Vec3 0 0 0); ivadd c (Vec3 1 0 0);
                 ivadd c (Vec3 0 1 0); ivadd c (Vec3 1 1 0);
                 ivadd c (Vec3 0 0 1); ivadd c (Vec3 1 0 1);
                 ivadd c (Vec3 0 1 1); ivadd c (Vec3 1 1 1)]).
  { apply genNeighborCells_exact; unfold c; cbn [vx vy vz]; lra. }
  split; [exact E|].
  intros d Hd. rewrite E in Hd.
  rewrite ?elem_of_cons, elem_of_nil in Hd.
  repeat (destruct Hd as [Hd|Hd]); try contradiction; subst d;
    unfold ivadd, vzip, c; cbn [vx vy vz]; lia.
Qed.

Lemma eight_cells_lie_upward_witness :
  genNeighborCells ((Vec3 (-89) 5 5)%R) (Vec3 2 11 11) firstGridMinimum 10%R
  = [ivadd (Vec3 2 11 11) (Vec3 0 0 0); ivadd (Vec3 2 11 11) (Vec3 1 0 0);
     ivadd (Vec3 2 11 11) (Vec3 0 1 0); ivadd (Vec3 2 11 11) (Vec3 1 1 0);
     ivadd (Vec3 2 11 11) (Vec3 0 0 1); ivadd (Vec3 2 11 11) (Vec3 1 0 1);
     ivadd (Vec3 2 11 11) (Vec3 0 1 1); ivadd (Vec3 2 11 11) (Vec3 1 1 1)] /\
  forall d : vec3 Z,
    d ∈ genNeighborCells ((Vec3 (-89) 5 5)%R) (Vec3 2 11 11) firstGridMinimum 10%R ->
    vx (Vec3 2 11 11) <= vx d /\ vy (Vec3 2 11 11) <= vy d /\ vz (Vec3 2 11 11) <= vz d.
Proof.
  apply (eight_cells_lie_upward ((Vec3 (-89) 5 5)%R) firstGridMinimum 10%R
           (Vec3 2 11 11)).
  - lra.
  - rewrite getGridIndex_in_world by (unfold in_world; cbn; lra).
    unfold cellOf, vmap. cbn [vx vy vz].
    f_equal; f_equal; apply Int_part_eq; lra.
  - unfold firstGridMinimum. cbn [vx vy vz]. lra.
  - unfold firstGridMinimum. cbn [vx vy vz]. lra.
  - unfold firstGridMinimum. cbn [vx vy vz]. lra.
Defined.

(** ** Bounds kept by the velocity and position kernels *)

Lemma limitSpeed_bound (v : vec3 R) : (vlength (limitSpeed v) <= maxSpeed)%R.
Proof.
  destruct (limitSpeed_exact v) as [Hhi Hlo].
  destruct (Rlt_dec maxSpeed (vlength v)) as [Hlt|Hge].
  - destruct (Hhi Hlt) as [E _]. rewrite E. lra.
  - rewrite Hlo by lra. lra.
Qed.

Lemma flockingVelocity_bound (pos vel : list (vec3 R)) (N : Z) :
  Forall (fun v => (vlength v <= maxSpeed)%R) (flockingVelocity pos vel <$> zrange 0 N).
Proof.
  apply Forall_fmap, Forall_forall. intros i _. apply limitSpeed_bound.
Qed.

(** X10: in exact arithmetic, whichever of the three steps is taken from
    a state set up by the first initialisation, no boid is faster than
    [maxSpeed] afterwards, whatever the velocities were before. *)
Theorem speed_never_exceeds_maxSpeed
    (sort_by_key : list Z -> list Z -> list Z * list Z) (dt : R) (s : sim R) :
  sorts_by_key sort_by_key -> sim_ok s ->
  exists sN sS sC : sim R,
    stepSimulationNaive dt s = Done sN /\
    stepSimulationScatteredGrid false sort_by_key dt s = Done sS /\
    stepSimulationCoherentGrid false sort_by_key dt s = Done sC /\
    Forall (fun v => (vlength v <= maxSpeed)%R) (dev_vel1 sN) /\
    Forall (fun v => (vlength v <= maxSpeed)%R) (dev_vel1 sS) /\
    Forall (fun v => (vlength v <= maxSpeed)%R) (dev_vel1 sC).
Proof.
  intros Hsort Hs.
  destruct (stepSimulationNaive_exact s Hs dt) as (sN & EN & _ & VN & _).
  destruct (stepSimulationScatteredGrid_exact sort_by_key Hsort s Hs dt)
    as (sS & ES & _ & VS & _).
  destruct (stepSimulationCoherentGrid_exact sort_by_key Hsort s Hs dt)
    as (sC & EC & _ & VC & _).
  exists sN, sS, sC. rewrite VN, VS, VC.
  repeat split; try assumption; apply flockingVelocity_bound.
Qed.

Lemma speed_never_exceeds_maxSpeed_witness :
  let fast : vec3 R := Vec3 30%R 40%R 0%R in
  let zero : vec3 R := Vec3 0%R 0%R 0%R in
  let s : sim R :=
    Sim 2 [Vec3 (-89)%R 0%R 0%R; Vec3 (-91)%R 0%R 0%R] [fast; zero] [zero; zero]
      [0; 0] [0; 0]
      (replicate (Z.to_nat 10648) 0) (replicate (Z.to_nat 10648) 0)
      [zero; zero] [zero; zero] 10648 22 10%R (1 / 10)%R firstGridMinimum in
  exists sN sS sC : sim R,
    stepSimulationNaive 1%R s = Done sN /\
    stepSimulationScatteredGrid false insertion_sort_by_key 1%R s = Done sS /\
    stepSimulationCoherentGrid false insertion_sort_by_key 1%R s = Done sC /\
    Forall (fun v => (vlength v <= maxSpeed)%R) (dev_vel1 sN) /\
    Forall (fun v => (vlength v <= maxSpeed)%R) (dev_vel1 sS) /\
    Forall (fun v => (vlength v <= maxSpeed)%R) (dev_vel1 sC).
Proof.
  intros fast zero s.
  apply (speed_never_exceeds_maxSpeed insertion_sort_by_key 1%R s).
  - exact insertion_sort_sorts.
  - unfold sim_ok, s. cbn [numObjects dev_pos dev_vel1 dev_vel2
      dev_particleArrayIndices dev_particleGridIndices dev_gridCellStartIndices
      dev_gridCellEndIndices dev_coherentPos dev_coherentVel2 gridCellCount
      gridSideCount gridCellWidth gridInverseCellWidth gridMinimum].
    rewrite !length_replicate. cbn [length].
    repeat split; try lia; try reflexivity.
    repeat constructor; cbn [vx vy vz]; lra.
Defined.




(** X12: in exact arithmetic, whatever the positions, the velocities and
    [dt], [kernUpdatePos] leaves every boid within the world bounds
    [[-100, 100]^3]. *)
Theorem positions_stay_in_world (N : Z) (dt : R) (vel pos : list (vec3 R)) :
  Z.of_nat (length pos) = N -> Z.of_nat (length vel) = N ->
  exists pos' : list (vec3 R),
    launch (fullBlocks N) (kernUpdatePos N dt vel) pos = Done pos' /\
    length pos' = length pos /\ Forall in_world pos'.
Proof.
  intros Hp Hv. rewrite (kernUpdatePos_launch N dt vel pos Hp Hv).
  eexists. split; [reflexivity|]. split.
  - rewrite length_zip_with. lia.
  - apply integrate_all_in_world.
Qed.

Lemma positions_stay_in_world_witness :
  exists pos' : list (vec3 R),
    launch (fullBlocks 1) (kernUpdatePos 1 3%R [Vec3 500%R (-500)%R 0%R])
      [Vec3 7%R 7%R 7%R] = Done pos' /\
    length pos' = length [Vec3 7%R 7%R 7%R] /\ Forall in_world pos'.
Proof.
  apply (positions_stay_in_world 1 3%R [Vec3 500%R (-500)%R 0%R] [Vec3 7%R 7%R 7%R]);
    reflexivity.
Defined.

(** *** Single precision *)

Lemma SFcompare_antisym (x y : spec_float) :
  SFcompare y x = option_map CompOpp (SFcompare x y).
Proof.
  destruct x as [sx|sx| |sx mx ex], y as [sy|sy| |sy my ey]; cbn;
    try reflexivity;
    try (destruct sx; reflexivity); try (destruct sy; reflexivity);
    try (destruct sx, sy; reflexivity).
  destruct sx, sy; try reflexivity; f_equal;
    rewrite (Z.compare_antisym ex ey);
    destruct (ex ?= ey)%Z eqn:E; cbn [CompOpp]; try reflexivity;
    change (Pos.compare_cont Eq my mx) with (Pos.compare my mx);
    change (Pos.compare_cont Eq mx my) with (Pos.compare mx my);
    rewrite (Pos.compare_antisym mx my); reflexivity.
Qed.

Lemma SFltb_false_SFleb (x y : spec_float) :
  x <> S754_nan -> y <> S754_nan -> SFltb x y = false -> SFleb y x = true.
Proof.
  intros Hx Hy. unfold SFltb, SFleb. rewrite (SFcompare_antisym x y).
  destruct (SFcompare x y) as [[| |]|] eqn:E; cbn; try reflexivity; try discriminate.
  destruct x, y; cbn in E; congruence.
Qed.

Lemma wrapCoordinate_in_bounds32 (c : spec_float) : in_bounds32 (wrapCoordinate c).
Proof.
  unfold in_bounds32, wrapCoordinate, wrapHigh, wrapLow, scene_scale.
  cbn [fltb fopp fof_Z Binary32.scalar].
  assert (Hdec : c = S754_nan \/ c <> S754_nan)
    by (destruct c; first [left; reflexivity | right; discriminate]).
  destruct Hdec as [->|Hnan]; [left; reflexivity|].
  destruct (SFltb c (SFopp (Binary32.of_Z 100))) eqn:Elo.
  - right. vm_compute. auto.
  - destruct (SFltb (Binary32.of_Z 100) c) eqn:Ehi.
    + right. vm_compute. auto.
    + right. split; apply SFltb_false_SFleb; try assumption; vm_compute; discriminate.
Qed.

(** X13: in single precision too, whatever the positions, the velocities
    and [dt], every coordinate that [kernUpdatePos] writes is within
    [[-100, 100]] or is not a number. *)
Theorem positions_stay_in_bounds32 (N : Z) (dt : spec_float)
    (vel pos : list (vec3 spec_float)) :
  Z.of_nat (length pos) = N -> Z.of_nat (length vel) = N ->
  exists pos' : list (vec3 spec_float),
    launch (fullBlocks N) (kernUpdatePos N dt vel) pos = Done pos' /\
    length pos' = length pos /\
    Forall (fun p => in_bounds32 (vx p) /\ in_bounds32 (vy p) /\ in_bounds32 (vz p))
      pos'.
Proof.
  intros Hp Hv. rewrite (kernUpdatePos_launch N dt vel pos Hp Hv).
  eexists. split; [reflexivity|]. split.
  - rewrite length_zip_with. lia.
  - apply Forall_forall. intros q Hq.
    apply elem_of_zip_with in Hq as (p & v & -> & _ & _).
    unfold integrate, vmap. cbn [vx vy vz].
    auto using wrapCoordinate_in_bounds32.
Qed.

Lemma positions_stay_in_bounds32_witness :
  let f := Binary32.of_Z in
  exists pos' : list (vec3 spec_float),
    launch (fullBlocks 1) (kernUpdatePos 1 (f 3) [Vec3 (f 500) (f (-500)) (f 0)])
      [Vec3 (f 7) (f 7) (f 7)] = Done pos' /\
    length pos' = length [Vec3 (f 7) (f 7) (f 7)] /\
    Forall (fun p => in_bounds32 (vx p) /\ in_bounds32 (vy p) /\ in_bounds32 (vz p))
      pos'.
Proof.
  intros f.
  apply (positions_stay_in_bounds32 1 (f 3) [Vec3 (f 500) (f (-500)) (f 0)]
           [Vec3 (f 7) (f 7) (f 7)]); reflexivity.
Defined.

(** ** What a step leaves in the other buffers *)

Section StepStates.

Variable sort_by_key : list Z -> list Z -> list Z * list Z.
Hypothesis sort_ok : sorts_by_key sort_by_key.
Variable s : sim R.
Hypothesis s_ok : sim_ok s.
Variable dt : R.

Let N : Z := numObjects s.
Let pos : list (vec3 R) := dev_pos s.
Let vel1 : list (vec3 R) := dev_vel1 s.
Let ids : list Z := (fun p => cellId 22 (cellOf p)) <$> pos.
Let keys : list Z := (sort_by_key ids (zrange 0 N)).1.
Let pai : list Z := (sort_by_key ids (zrange 0 N)).2.
Let velN : list (vec3 R) := flockingVelocity pos vel1 <$> zrange 0 N.
Let posN : list (vec3 R) := zip_with (integrate dt) pos velN.

(** The state after the brute-force step. *)
Lemma stepSimulationNaive_state :
  stepSimulationNaive dt s
  = Done (Sim N posN velN vel1
            (dev_particleArrayIndices s) (dev_particleGridIndices s)
            (dev_gridCellStartIndices s) (dev_gridCellEndIndices s)
            (dev_coherentVel2 s) (dev_coherentPos s)
            (gridCellCount s) (gridSideCount s) (gridCellWidth s)
            (gridInverseCellWidth s) (gridMinimum s)).
Proof.
  destruct s_ok as (HN & (Hp & Hv1 & Hv2 & Hpai & Hpgi & Hcp & Hcv) & (Hst & Hen)
                    & (Hcc & Hsc & Hcw & Hicw & Hmin) & Hw).
  pose proof (velN_length s s_ok) as HvN.
  unfold stepSimulationNaive.
  rewrite kernUpdateVelocityBruteForce_launch by (auto; lia).
  rewrite obind_ret. fold N pos vel1 velN.
  rewrite kernUpdatePos_launch by assumption.
  rewrite obind_ret. reflexivity.
Qed.

(** The state after the step on the scattered grid. *)
Lemma stepSimulationScatteredGrid_state :
  exists starts ends : list Z,
    range_table 10648 keys starts ends /\
    stepSimulationScatteredGrid false sort_by_key dt s
    = Done (Sim N posN velN vel1 pai keys starts ends
              (dev_coherentVel2 s) (dev_coherentPos s)
              (gridCellCount s) (gridSideCount s) (gridCellWidth s)
              (gridInverseCellWidth s) (gridMinimum s)).
Proof.
  destruct (rebuildGrid_exact sort_by_key sort_ok s s_ok) as (starts & ends & Eg & Ht).
  fold N pos ids keys pai in Eg, Ht.
  exists starts, ends. split; [exact Ht|].
  pose proof (velN_length s s_ok) as HvN.
  destruct s_ok as (HN & (Hp & Hv1 & Hv2 & Hpai & Hpgi & Hcp & Hcv) & (Hst & Hen)
                    & (Hcc & Hsc & Hcw & Hicw & Hmin) & Hw).
  unfold stepSimulationScatteredGrid. rewrite Eg, obind_ret. cbv beta iota.
  rewrite Hsc, Hmin, Hicw. fold N pos vel1.
  rewrite (scattered_launch sort_by_key sort_ok s s_ok starts ends _ (dev_vel2 s) Ht Hv2),
    obind_ret.
  fold N pos vel1 velN.
  rewrite kernUpdatePos_launch by assumption.
  rewrite obind_ret. reflexivity.
Qed.

Lemma gather_integrate (idx : list Z) (p v : list (vec3 R)) :
  length v = length p ->
  Forall (fun k => 0 <= k < Z.of_nat (length p)) idx ->
  zip_with (integrate dt) (gather idx p) (gather idx v)
  = gather idx (zip_with (integrate dt) p v).
Proof.
  intros Hl Hr.
  assert (Hrv : Forall (fun k => 0 <= k < Z.of_nat (length v)) idx)
    by (rewrite Hl; exact Hr).
  assert (Hrz : Forall (fun k => 0 <= k < Z.of_nat (length (zip_with (integrate dt) p v)))
                  idx)
    by (rewrite length_zip_with, Hl, Nat.min_id; exact Hr).
  apply list_eq. intros j. rewrite lookup_zip_with.
  destruct (idx !! j) as [k|] eqn:Ej.
  - rewrite (lookup_gather idx p j k Hr Ej), (lookup_gather idx v j k Hrv Ej).
    rewrite (lookup_gather idx _ j k Hrz Ej), lookup_zip_with. reflexivity.
  - apply lookup_ge_None in Ej.
    rewrite (lookup_ge_None_2 (gather idx p))
      by (rewrite (length_gather idx p Hr); exact Ej).
    rewrite (lookup_ge_None_2 (gather idx (zip_with (integrate dt) p v)))
      by (rewrite (length_gather idx _ Hrz); exact Ej).
    reflexivity.
Qed.

(** The state after the step on the coherent grid. *)
Lemma stepSimulationCoherentGrid_state :
  exists starts ends : list Z,
    range_table 10648 keys starts ends /\
    stepSimulationCoherentGrid false sort_by_key dt s
    = Done (Sim N posN velN (gather pai vel1) pai keys starts ends
              (gather pai velN) (gather pai posN)
              (gridCellCount s) (gridSideCount s) (gridCellWidth s)
              (gridInverseCellWidth s) (gridMinimum s)).
Proof.
  destruct (rebuildGrid_exact sort_by_key sort_ok s s_ok) as (starts & ends & Eg & Ht).
  fold N pos ids keys pai in Eg, Ht.
  exists starts, ends. split; [exact Ht|].
  pose proof (cpos_length sort_by_key sort_ok s s_ok) as Hcpl.
  pose proof (cvel_length sort_by_key sort_ok s s_ok) as Hcvl.
  pose proof (velN_length s s_ok) as HvN.
  pose proof (pai_length sort_by_key sort_ok s s_ok) as Hpail.
  pose proof (N_bounds s s_ok) as HNb.
  pose proof (vel1_length s s_ok) as Hv1l.
  pose proof (pai_perm sort_by_key sort_ok s s_ok) as Hperm.
  fold N pos vel1 ids keys pai velN in Hcpl, Hcvl, HvN, Hpail, HNb, Hv1l, Hperm.
  destruct s_ok as (HN & (Hp & Hv1 & Hv2 & Hpai & Hpgi & Hcp & Hcv) & (Hst & Hen)
                    & (Hcc & Hsc & Hcw & Hicw & Hmin) & Hw).
  assert (Hrange : forall arr : list (vec3 R), Z.of_nat (length arr) = N ->
            Forall (fun k => 0 <= k < Z.of_nat (length arr)) pai).
  { intros arr ->. exact (is_permutation_range N pai Hperm). }
  unfold stepSimulationCoherentGrid. rewrite Eg, obind_ret. cbv beta iota.
  rewrite Hsc, Hmin, Hicw. fold N pos vel1.
  rewrite (fillCoherent_launch N pai pos vel1) by
    (auto; exact (is_permutation_range N pai Hperm)).
  rewrite obind_ret. cbv beta iota.
  rewrite (coherent_launch sort_by_key sort_ok s s_ok starts ends _
             (dev_coherentVel2 s) Ht Hcv), obind_ret.
  fold N pos vel1 ids keys pai velN.
  assert (HgN : Z.of_nat (length (gather pai velN)) = N).
  { rewrite (length_gather pai velN (Hrange velN HvN)). exact Hpail. }
  rewrite kernUpdatePos_launch by assumption. rewrite obind_ret.
  assert (Hvp : length velN = length pos) by (unfold pos, N in *; lia).
  rewrite (gather_integrate pai pos velN Hvp (Hrange pos Hp)).
  fold posN.
  assert (HpN : Z.of_nat (length posN) = N).
  { unfold posN. rewrite length_zip_with. unfold pos. lia. }
  assert (HcN : Z.of_nat (length (gather pai posN)) = N).
  { rewrite (length_gather pai posN (Hrange posN HpN)). exact Hpail. }
  destruct (fillOriginal_launch N pai (gather pai posN) (gather pai velN) pos vel1 Hperm)
    as (p' & v' & E & Hp' & Hv' & Hlk); auto; try lia.
  rewrite E, obind_ret. cbv beta iota.
  assert (Ev : v' = velN).
  { apply list_eq. intros k.
    destruct (decide (Z.of_nat k < N)) as [Hk|Hk].
    - destruct (is_permutation_surj N pai (Z.of_nat k) Hperm ltac:(lia)) as [i Ei].
      destruct (Hlk i _ Ei) as [_ Ev]. rewrite Nat2Z.id in Ev. rewrite Ev.
      rewrite (lookup_gather pai velN i _ (Hrange velN HvN) Ei).
      now rewrite Nat2Z.id.
    - rewrite !lookup_ge_None_2; auto; lia. }
  assert (Ep : p' = posN).
  { apply list_eq. intros k.
    destruct (decide (Z.of_nat k < N)) as [Hk|Hk].
    - destruct (is_permutation_surj N pai (Z.of_nat k) Hperm ltac:(lia)) as [i Ei].
      destruct (Hlk i _ Ei) as [Ep _]. rewrite Nat2Z.id in Ep. rewrite Ep.
      rewrite (lookup_gather pai posN i _ (Hrange posN HpN) Ei).
      now rewrite Nat2Z.id.
    - rewrite !lookup_ge_None_2; auto; lia. }
  subst p' v'. reflexivity.
Qed.

End StepStates.

(** X14: in exact arithmetic, the three steps agree on [dev_pos] and
    [dev_vel1] but not on what they leave in [dev_vel2]: after the
    brute-force step and after the step on the scattered grid it holds
    the velocities from before the step (the buffers are swapped); after
    the step on the coherent grid it holds them in cell order, that is
    permuted by [dev_particleArrayIndices]. *)
Theorem old_velocities_after_step
    (sort_by_key : list Z -> list Z -> list Z * list Z) (dt : R) (s : sim R) :
  sorts_by_key sort_by_key -> sim_ok s ->
  exists sN sS sC : sim R,
    stepSimulationNaive dt s = Done sN /\
    stepSimulationScatteredGrid false sort_by_key dt s = Done sS /\
    stepSimulationCoherentGrid false sort_by_key dt s = Done sC /\
    dev_vel2 sN = dev_vel1 s /\
    dev_vel2 sS = dev_vel1 s /\
    dev_vel2 sC = gather (dev_particleArrayIndices sC) (dev_vel1 s).
Proof.
  intros Hsort Hs.
  destruct (stepSimulationScatteredGrid_state sort_by_key Hsort s Hs dt)
    as (st & en & _ & ES).
  destruct (stepSimulationCoherentGrid_state sort_by_key Hsort s Hs dt)
    as (st' & en' & _ & EC).
  eexists _, _, _.
  split; [exact (stepSimulationNaive_state s Hs dt)|].
  split; [exact ES|]. split; [exact EC|].
  cbn [dev_vel2 dev_particleArrayIndices]. auto.
Qed.

(** X15: in exact arithmetic, after a step on either grid the two index
    buffers are parallel and describe the boids as they were before the
    move: [dev_particleArrayIndices] is a permutation of the boid
    indices, [dev_particleGridIndices] is sorted and its entry at a slot
    is the cell id of the position the boid of that slot had before the
    step, and the start and end tables are the range table of these
    ids. *)
Theorem grid_step_index_buffers
    (sort_by_key : list Z -> list Z -> list Z * list Z) (dt : R) (s : sim R) :
  sorts_by_key sort_by_key -> sim_ok s ->
  let described (s' : sim R) : Prop :=
    is_permutation (numObjects s) (dev_particleArrayIndices s') /\
    Sorted Z.le (dev_particleGridIndices s') /\
    (forall (j : nat) (k i : Z),
       dev_particleGridIndices s' !! j = Some k ->
       dev_particleArrayIndices s' !! j = Some i ->
       k = cellId 22 (cellOf (dev_pos s !!! Z.to_nat i))) /\
    range_table 10648 (dev_particleGridIndices s')
      (dev_gridCellStartIndices s') (dev_gridCellEndIndices s') in
  exists sS sC : sim R,
    stepSimulationScatteredGrid false sort_by_key dt s = Done sS /\
    stepSimulationCoherentGrid false sort_by_key dt s = Done sC /\
    described sS /\ described sC.
Proof.
  intros Hsort Hs described.
  destruct (stepSimulationScatteredGrid_state sort_by_key Hsort s Hs dt)
    as (st & en & Ht & ES).
  destruct (stepSimulationCoherentGrid_state sort_by_key Hsort s Hs dt)
    as (st' & en' & Ht' & EC).
  pose proof (pai_perm sort_by_key Hsort s Hs) as Hperm.
  pose proof (sorted_facts sort_by_key Hsort s Hs) as (_ & Hsorted & _ & _).
  pose proof (keys_pai sort_by_key Hsort s Hs) as Hlabel.
  eexists _, _. split; [exact ES|]. split; [exact EC|].
  unfold described.
  cbn [dev_particleArrayIndices dev_particleGridIndices dev_gridCellStartIndices
       dev_gridCellEndIndices].
  split; (split; [exact Hperm|]; split; [exact Hsorted|]; split;
          [exact Hlabel|assumption]).
Qed.

(** X16: in exact arithmetic, after the step on the coherent grid the
    coherent buffers hold the new state in cell order:
    [dev_coherentPos[j]] and [dev_coherentVel2[j]] are the new position
    and the new velocity of boid [dev_particleArrayIndices[j]]. *)
Theorem coherent_buffers_after_step
    (sort_by_key : list Z -> list Z -> list Z * list Z) (dt : R) (s : sim R) :
  sorts_by_key sort_by_key -> sim_ok s ->
  exists sC : sim R,
    stepSimulationCoherentGrid false sort_by_key dt s = Done sC /\
    dev_coherentPos sC = gather (dev_particleArrayIndices sC) (dev_pos sC) /\
    dev_coherentVel2 sC = gather (dev_particleArrayIndices sC) (dev_vel1 sC).
Proof.
  intros Hsort Hs.
  destruct (stepSimulationCoherentGrid_state sort_by_key Hsort s Hs dt)
    as (st' & en' & _ & EC).
  eexists. split; [exact EC|].
  cbn [dev_coherentPos dev_coherentVel2 dev_particleArrayIndices dev_pos dev_vel1].
  auto.
Qed.

Lemma two_boids_ok :
  let zero : vec3 R := Vec3 0%R 0%R 0%R in
  sim_ok
    (Sim 2 [Vec3 (-89)%R 0%R 0%R; Vec3 (-91)%R 0%R 0%R] [zero; zero] [zero; zero]
       [0; 0] [0; 0]
       (replicate (Z.to_nat 10648) 0) (replicate (Z.to_nat 10648) 0)
       [zero; zero] [zero; zero] 10648 22 10%R (1 / 10)%R firstGridMinimum).
Proof.
  intros zero. unfold sim_ok. cbn [numObjects dev_pos dev_vel1 dev_vel2
    dev_particleArrayIndices dev_particleGridIndices dev_gridCellStartIndices
    dev_gridCellEndIndices dev_coherentVel2 dev_coherentPos gridCellCount
    gridSideCount gridCellWidth gridInverseCellWidth gridMinimum length].
  rewrite !length_replicate.
  repeat split; try lia; try reflexivity.
  repeat constructor; unfold in_world; cbn [vx vy vz]; lra.
Defined.

Lemma old_velocities_after_step_witness :
  let zero : vec3 R := Vec3 0%R 0%R 0%R in
  let s : sim R :=
    Sim 2 [Vec3 (-89)%R 0%R 0%R; Vec3 (-91)%R 0%R 0%R] [zero; zero] [zero; zero]
      [0; 0] [0; 0]
      (replicate (Z.to_nat 10648) 0) (replicate (Z.to_nat 10648) 0)
      [zero; zero] [zero; zero] 10648 22 10%R (1 / 10)%R firstGridMinimum in
  exists sN sS sC : sim R,
    stepSimulationNaive 1%R s = Done sN /\
    stepSimulationScatteredGrid false insertion_sort_by_key 1%R s = Done sS /\
    stepSimulationCoherentGrid false insertion_sort_by_key 1%R s = Done sC /\
    dev_vel2 sN = dev_vel1 s /\
    dev_vel2 sS = dev_vel1 s /\
    dev_vel2 sC = gather (dev_particleArrayIndices sC) (dev_vel1 s).
Proof.
  intros zero s.
  apply (old_velocities_after_step insertion_sort_by_key 1%R s).
  - exact insertion_sort_sorts.
  - exact two_boids_ok.
Defined.

Lemma grid_step_index_buffers_witness :
  let zero : vec3 R := Vec3 0%R 0%R 0%R in
  let s : sim R :=
    Sim 2 [Vec3 (-89)%R 0%R 0%R; Vec3 (-91)%R 0%R 0%R] [zero; zero] [zero; zero]
      [0; 0] [0; 0]
      (replicate (Z.to_nat 10648) 0) (replicate (Z.to_nat 10648) 0)
      [zero; zero] [zero; zero] 10648 22 10%R (1 / 10)%R firstGridMinimum in
  let described (s' : sim R) : Prop :=
    is_permutation (numObjects s) (dev_particleArrayIndices s') /\
    Sorted Z.le (dev_particleGridIndices s') /\
    (forall (j : nat) (k i : Z),
       dev_particleGridIndices s' !! j = Some k ->
       dev_particleArrayIndices s' !! j = Some i ->
       k = cellId 22 (cellOf (dev_pos s !!! Z.to_nat i))) /\
    range_table 10648 (dev_particleGridIndices s')
      (dev_gridCellStartIndices s') (dev_gridCellEndIndices s') in
  exists sS sC : sim R,
    stepSimulationScatteredGrid false insertion_sort_by_key 1%R s = Done sS /\
    stepSimulationCoherentGrid false insertion_sort_by_key 1%R s = Done sC /\
    described sS /\ described sC.
Proof.
  intros zero s.
  apply (grid_step_index_buffers insertion_sort_by_key 1%R s).
  - exact insertion_sort_sorts.
  - exact two_boids_ok.
Defined.

Lemma coherent_buffers_after_step_witness :
  let zero : vec3 R := Vec3 0%R 0%R 0%R in
  let s : sim R :=
    Sim 2 [Vec3 (-89)%R 0%R 0%R; Vec3 (-91)%R 0%R 0%R] [zero; zero] [zero; zero]
      [0; 0] [0; 0]
      (replicate (Z.to_nat 10648) 0) (replicate (Z.to_nat 10648) 0)
      [zero; zero] [zero; zero] 10648 22 10%R (1 / 10)%R firstGridMinimum in
  exists sC : sim R,
    stepSimulationCoherentGrid false insertion_sort_by_key 1%R s = Done sC /\
    dev_coherentPos sC = gather (dev_particleArrayIndices sC) (dev_pos sC) /\
    dev_coherentVel2 sC = gather (dev_particleArrayIndices sC) (dev_vel1 sC).
Proof.
  intros zero s.
  apply (coherent_buffers_after_step insertion_sort_by_key 1%R s).
  - exact insertion_sort_sorts.
  - exact two_boids_ok.
Defined.

(** ** More on initialisation *)

Lemma length_fresh {A : Type} (junk : Z -> A) (n : Z) :
  length (fresh junk n) = Z.to_nat n.
Proof. unfold fresh. rewrite length_map, length_zrange. f_equal. lia. Qed.

Section InitSuccess.

Context {F : Type} `{Scalar F}.

Lemma kernGenerateRandomPosArray_launch (generateRandomVec3 : Z -> Z -> vec3 F)
    (time N : Z) (scale : F) (arr : list (vec3 F)) :
  Z.of_nat (length arr) = N ->
  launch (fullBlocks N)
    (kernGenerateRandomPosArray generateRandomVec3 time N scale) arr
  = Done ((fun i => vmap (fun c => fmul scale c) (generateRandomVec3 time i))
            <$> zrange 0 N).
Proof.
  intros Hlen. apply launch_pointwise; [exact Hlen| |].
  - intros i s Hi. unfold kernGenerateRandomPosArray.
    destruct (Z.ltb_spec i N); [lia|reflexivity].
  - intros i s Hi Hl _. unfold kernGenerateRandomPosArray.
    destruct (Z.ltb_spec i N); [|lia].
    apply awrite_ok. lia.
Qed.

(** The state and the runtime after an initialisation in which every
    allocation is granted. *)
Lemma initSimulation_state (ok : nat -> bool)
    (generateRandomVec3 : Z -> Z -> vec3 F)
    (junkV : Z -> vec3 F) (junkI : Z -> Z) (N : Z) (s : sim F) (rt : runtime) :
  (forall k : nat, (k < 9)%nat -> ok k = true) ->
  lastError rt = None -> 0 <= N ->
  initSimulation ok generateRandomVec3 junkV junkI N s rt
  = (Runtime (live rt ++ allocRequests N (gridCellCount (initGrid s)))
       None (stderr rt),
     Returned
       (Sim N
          ((fun i => vmap (fun c => fmul scene_scale c) (generateRandomVec3 1 i))
             <$> zrange 0 N)
          (fresh junkV N) (fresh junkV N)
          (fresh junkI N) (fresh junkI N)
          (fresh junkI (gridCellCount (initGrid s)))
          (fresh junkI (gridCellCount (initGrid s)))
          (fresh junkV N) (fresh junkV N)
          (gridCellCount (initGrid s)) (gridSideCount (initGrid s))
          (gridCellWidth (initGrid s)) (gridInverseCellWidth (initGrid s))
          (gridMinimum (initGrid s)))).
Proof.
  intros Hok Herr HN. destruct rt as [lv le er]. simpl in Herr. subst le.
  unfold initSimulation, ALLOC, cudaMalloc, checkCUDAError.
  rewrite !Hok by lia.
  rewrite kernGenerateRandomPosArray_launch by (rewrite length_fresh; lia).
  cbv [mbind mret host_bind host_ret live lastError stderr].
  rewrite <- !app_assoc. reflexivity.
Qed.

End InitSuccess.





(** X19: [checkCUDAError] looks at the last error of the runtime, not at
    the result of the call before it: when an error is pending at entry
    and the first allocation is granted, [initSimulation] still exits at
    line 169, reports the pending error as a failure of the allocation of
    [dev_pos], and leaves that buffer allocated. *)
Theorem pending_error_blamed_on_dev_pos {F : Type} `{Scalar F} (ok : nat -> bool)
    (generateRandomVec3 : Z -> Z -> vec3 F)
    (junkV : Z -> vec3 F) (junkI : Z -> Z) (N : Z) (s : sim F) (rt : runtime)
    (err : string) :
  lastError rt = Some err -> ok 0%nat = true ->
  initSimulation ok generateRandomVec3 junkV junkI N s rt
  = (Runtime (live rt ++ [Allocation "dev_pos" (N * sizeof_vec3)]) None
       (stderr rt ++ [OutLine 169; OutCudaError "cudaMalloc dev_pos failed!" err]),
     Exited EXIT_FAILURE).
Proof.
  intros Herr Hok. destruct rt as [lv le er]. simpl in Herr. subst le.
  unfold initSimulation, cudaMalloc, checkCUDAError. rewrite Hok.
  reflexivity.
Qed.

Lemma pending_error_blamed_on_dev_pos_witness :
  let f := Binary32.of_Z in
  let s0 := Sim 0 [] [] [] [] [] [] [] [] [] 0 0 (f 0) (f 0) (Vec3 (f 0) (f 0) (f 0)) in
  initSimulation (fun _ => true) (fun _ _ => Vec3 (f 0) (f 0) (f 0))
    (fun _ => Vec3 (f 0) (f 0) (f 0)) (fun _ => 0) 5 s0
    (Runtime [] (Some "unspecified launch failure"%string) [])
  = (Runtime ([] ++ [Allocation "dev_pos" (5 * sizeof_vec3)]) None
       ([] ++ [OutLine 169;
               OutCudaError "cudaMalloc dev_pos failed!" "unspecified launch failure"]),
     Exited EXIT_FAILURE).
Proof.
  intros f s0.
  apply (pending_error_blamed_on_dev_pos (fun _ => true)
           (fun _ _ => Vec3 (f 0) (f 0) (f 0)) (fun _ => Vec3 (f 0) (f 0) (f 0))
           (fun _ => 0) 5 s0
           (Runtime [] (Some "unspecified launch failure"%string) [])
           "unspecified launch failure"%string); reflexivity.
Defined.

(** ** Tear-down *)

Lemma freeLatest_snoc (name : string) (l : list allocation) (a : allocation) :
  freeLatest name (l ++ [a])
  = if String.eqb (alloc_name a) name then l else freeLatest name l ++ [a].
Proof.
  unfold freeLatest. rewrite reverse_snoc. cbn [release].
  destruct (String.eqb (alloc_name a) name).
  - apply reverse_involutive.
  - apply reverse_cons.
Qed.

(** Freeing through a pointer that holds one of the latest buffers
    [suf] leaves the earlier ones [l] alone. *)
Lemma freeLatest_app (name : string) (l suf : list allocation) :
  Exists (fun a => String.eqb (alloc_name a) name = true) suf ->
  freeLatest name (l ++ suf) = l ++ freeLatest name suf.
Proof.
  induction suf as [|a suf IH] using rev_ind; intros Hex; [inversion Hex|].
  rewrite app_assoc, !freeLatest_snoc.
  destruct (String.eqb (alloc_name a) name) eqn:E; [reflexivity|].
  apply Exists_app in Hex as [Hex|Hex].
  - rewrite IH by exact Hex. rewrite app_assoc. reflexivity.
  - apply Exists_cons in Hex as [Hex|Hex]; [congruence|inversion Hex].
Qed.

(** The runtime after [endSimulation] when every [cudaFree] succeeds. *)
Lemma endSimulation_returns (ok : nat -> bool) (rt : runtime) :
  (forall k : nat, (k < 9)%nat -> ok k = true) ->
  endSimulation ok rt
  = (Runtime (foldl (fun l name => freeLatest name l) (live rt) freeRequests)
       (lastError rt) (stderr rt),
     Returned tt).
Proof.
  intros Hok. destruct rt as [lv le er].
  unfold endSimulation, FREE, cudaFree. rewrite !Hok by lia.
  reflexivity.
Qed.

Lemma free_all_requests (lv : list allocation) (N cells : Z) :
  foldl (fun l name => freeLatest name l) (lv ++ allocRequests N cells) freeRequests
  = lv.
Proof.
  unfold freeRequests, allocRequests. cbn [foldl].
  repeat (rewrite freeLatest_app
            by (repeat first [apply Exists_cons_hd; reflexivity
                             |apply Exists_cons_tl]);
          match goal with
          | |- context [lv ++ freeLatest ?n ?suf] =>
              let r := eval cbv [freeLatest reverse rev_append release alloc_name
                                 String.eqb Ascii.eqb Bool.eqb] in (freeLatest n suf) in
              change (freeLatest n suf) with r
          end).
  apply app_nil_r.
Qed.

(** X20: [endSimulation] undoes [initSimulation]: when every allocation
    and then every [cudaFree] succeeds, the nine buffers are freed, the
    allocations that were live before the initialisation are all that is
    left, and nothing is printed. *)
Theorem init_then_end_frees_everything {F : Type} `{Scalar F}
    (ok okf : nat -> bool) (generateRandomVec3 : Z -> Z -> vec3 F)
    (junkV : Z -> vec3 F) (junkI : Z -> Z) (N : Z) (s : sim F) (rt : runtime) :
  (forall k : nat, (k < 9)%nat -> ok k = true) ->
  (forall k : nat, (k < 9)%nat -> okf k = true) ->
  lastError rt = None ->
  exists (rt1 : runtime) (s' : sim F) (rt2 : runtime),
    initSimulation ok generateRandomVec3 junkV junkI N s rt = (rt1, Returned s') /\
    endSimulation okf rt1 = (rt2, Returned tt) /\
    nothing_dangling rt rt2 /\ stderr rt2 = stderr rt.
Proof.
  intros Hok Hokf Herr.
  destruct (initSimulation_returns ok generateRandomVec3 junkV junkI N s rt Hok Herr)
    as (s' & Einit & _).
  eexists _, s', _. split; [exact Einit|].
  split; [apply endSimulation_returns; exact Hokf|].
  unfold nothing_dangling. cbn [live stderr].
  split; [apply free_all_requests|reflexivity].
Qed.

Lemma init_then_end_frees_everything_witness :
  let f := Binary32.of_Z in
  let s0 := Sim 0 [] [] [] [] [] [] [] [] [] 0 0 (f 0) (f 0) (Vec3 (f 0) (f 0) (f 0)) in
  let rt := Runtime [Allocation "vbo" 64] None [] in
  exists (rt1 : runtime) (s' : sim spec_float) (rt2 : runtime),
    initSimulation (fun _ => true) (fun _ _ => Vec3 (f 0) (f 0) (f 0))
      (fun _ => Vec3 (f 0) (f 0) (f 0)) (fun _ => 0) 50 s0 rt = (rt1, Returned s') /\
    endSimulation (fun _ => true) rt1 = (rt2, Returned tt) /\
    nothing_dangling rt rt2 /\ stderr rt2 = stderr rt.
Proof.
  intros f s0 rt.
  apply (init_then_end_frees_everything (fun _ => true) (fun _ => true)
           (fun _ _ => Vec3 (f 0) (f 0) (f 0)) (fun _ => Vec3 (f 0) (f 0) (f 0))
           (fun _ => 0) 50 s0 rt); reflexivity.
Defined.

(** X21: [initSimulation] overwrites the nine pointers without freeing
    what they hold: after two initialisations, [endSimulation] frees the
    buffers of the second one only, and the nine buffers of the first
    stay allocated. *)
Theorem second_init_leaks_first_buffers {F : Type} `{Scalar F}
    (ok ok' okf : nat -> bool) (generateRandomVec3 : Z -> Z -> vec3 F)
    (junkV : Z -> vec3 F) (junkI : Z -> Z) (N N' : Z) (s : sim F) (rt : runtime) :
  (forall k : nat, (k < 9)%nat -> ok k = true) ->
  (forall k : nat, (k < 9)%nat -> ok' k = true) ->
  (forall k : nat, (k < 9)%nat -> okf k = true) ->
  lastError rt = None ->
  exists (rt1 : runtime) (s1 : sim F) (rt2 : runtime) (s2 : sim F) (rt3 : runtime),
    initSimulation ok generateRandomVec3 junkV junkI N s rt = (rt1, Returned s1) /\
    initSimulation ok' generateRandomVec3 junkV junkI N' s1 rt1 = (rt2, Returned s2) /\
    endSimulation okf rt2 = (rt3, Returned tt) /\
    live rt3 = live rt ++ allocRequests N (gridCellCount s1) /\
    ~ nothing_dangling rt rt3.
Proof.
  intros Hok Hok' Hokf Herr.
  destruct (initSimulation_returns ok generateRandomVec3 junkV junkI N s rt Hok Herr)
    as (s1 & E1 & _ & Hcc & _).
  destruct (initSimulation_returns ok' generateRandomVec3 junkV junkI N' s1
              (Runtime (live rt ++ allocRequests N (gridCellCount (initGrid s)))
                 None (stderr rt)) Hok' eq_refl) as (s2 & E2 & _).
  eexists _, s1, _, s2, _. split; [exact E1|]. split; [exact E2|].
  split; [apply endSimulation_returns; exact Hokf|].
  unfold nothing_dangling. cbn [live]. rewrite free_all_requests, Hcc.
  split; [reflexivity|].
  intros E. apply (f_equal length) in E. rewrite length_app in E.
  cbn [allocRequests length] in E. lia.
Qed.

Lemma second_init_leaks_first_buffers_witness :
  let f := Binary32.of_Z in
  let s0 := Sim 0 [] [] [] [] [] [] [] [] [] 0 0 (f 0) (f 0) (Vec3 (f 0) (f 0) (f 0)) in
  let gen (time index : Z) := Vec3 (f 0) (f 0) (f 0) in
  let junkV (i : Z) := Vec3 (f 0) (f 0) (f 0) in
  let rt := Runtime [] None [] in
  exists (rt1 : runtime) (s1 : sim spec_float) (rt2 : runtime) (s2 : sim spec_float)
         (rt3 : runtime),
    initSimulation (fun _ => true) gen junkV (fun _ => 0) 50 s0 rt = (rt1, Returned s1) /\
    initSimulation (fun _ => true) gen junkV (fun _ => 0) 20 s1 rt1 = (rt2, Returned s2) /\
    endSimulation (fun _ => true) rt2 = (rt3, Returned tt) /\
    live rt3 = live rt ++ allocRequests 50 (gridCellCount s1) /\
    ~ nothing_dangling rt rt3.
Proof.
  intros f s0 gen junkV rt.
  apply (second_init_leaks_first_buffers (fun _ => true) (fun _ => true)
           (fun _ => true) gen junkV (fun _ => 0) 50 20 s0 rt); reflexivity.
Defined.

(** X22: when the [k]-th [cudaFree] of [endSimulation] is the first to
    fail, the line of that [FREE] and a message naming the pointer are
    printed with the error of the runtime, the process exits with
    [EXIT_FAILURE], and the buffers of the later pointers are not
    freed. *)
Theorem failed_free_exits (ok : nat -> bool) (rt : runtime) (k : nat) :
  (k < 9)%nat -> ok k = false ->
  (forall j : nat, (j < k)%nat -> ok j = true) ->
  endSimulation ok rt
  = (Runtime (foldl (fun l name => freeLatest name l) (live rt) (take k freeRequests))
       None (stderr rt ++ default [] (freeReports !! k)),
     Exited EXIT_FAILURE).
Proof.
  intros Hk Hfail Hok. destruct rt as [lv le er].
  unfold endSimulation, FREE, cudaFree, checkCUDAError.
  do 9 (destruct k as [|k];
    [ rewrite Hfail;
      rewrite ?(Hok 0%nat), ?(Hok 1%nat), ?(Hok 2%nat), ?(Hok 3%nat),
        ?(Hok 4%nat), ?(Hok 5%nat), ?(Hok 6%nat), ?(Hok 7%nat) by lia;
      reflexivity | ]).
  lia.
Qed.

Lemma failed_free_exits_witness :
  endSimulation (fun k => negb (k =? 2)%nat)
    (Runtime (allocRequests 50 10648) None [])
  = (Runtime (foldl (fun l name => freeLatest name l)
                (live (Runtime (allocRequests 50 10648) None []))
                (take 2 freeRequests))
       None
       (stderr (Runtime (allocRequests 50 10648) None [])
        ++ default [] (freeReports !! 2%nat)),
     Exited EXIT_FAILURE).
Proof.
  apply (failed_free_exits (fun k => negb (k =? 2)%nat)
           (Runtime (allocRequests 50 10648) None []) 2).
  - lia.
  - reflexivity.
  - intros j Hj. destruct j as [|[|j]]; [reflexivity|reflexivity|lia].
Defined.

(** ** Copy to the vertex buffers *)

(** The slots of a list made of blocks of four. *)
Lemma lookup_bind_blocks {A B : Type} (g : A -> list B) (l : list A) (j : nat) :
  (forall a, length (g a) = 4%nat) ->
  (l ≫= g) !! j = l !! (j / 4)%nat ≫= fun a => g a !! (j mod 4)%nat.
Proof.
  intros Hg. revert j. induction l as [|a l IH]; intros j; [reflexivity|].
  cbn [mbind list_bind]. destruct (decide (j < 4)%nat) as [Hj|Hj].
  - rewrite lookup_app_l by (rewrite Hg; exact Hj).
    rewrite Nat.div_small, Nat.mod_small by exact Hj. reflexivity.
  - rewrite lookup_app_r by (rewrite Hg; lia). rewrite Hg.
    change (list_bind _ _ g l) with (l ≫= g). rewrite IH.
    assert (Ed : (j / 4 = S ((j - 4) / 4))%nat).
    { replace j with (1 * 4 + (j - 4))%nat at 1 by lia.
      rewrite Nat.div_add_l by lia. lia. }
    assert (Em : (j mod 4 = (j - 4) mod 4)%nat).
    { replace j with ((j - 4) + 1 * 4)%nat at 1 by lia.
      apply Nat.Div0.mod_add. }
    rewrite Ed, Em. reflexivity.
Qed.

(** A launch whose thread [i] fills the block of four slots at [4 i]. *)
Lemma launch_blocks {B : Type} (N : Z) (kern : Z -> list B -> outcome (list B))
    (g : Z -> list B) (s0 : list B) :
  0 <= N -> 4 * N <= Z.of_nat (length s0) ->
  (forall i, length (g i) = 4%nat) ->
  (forall i s, N <= i -> kern i s = Done s) ->
  (forall i s, 0 <= i < N -> length s = length s0 ->
     exists s', kern i s = Done s' /\ length s' = length s /\
       forall j : nat,
         s' !! j = if decide (Z.of_nat (j / 4) = i)
                   then g i !! (j mod 4)%nat else s !! j) ->
  launch (fullBlocks N) kern s0
  = Done ((zrange 0 N ≫= g) ++ drop (Z.to_nat (4 * N)) s0).
Proof.
  intros HN Hlen Hg Hidle Hthread. unfold launch, launch_sched.
  destruct (ofold_inv kern
              (fun pre s =>
                 length s = length s0 /\
                 forall j : nat,
                   s !! j = if decide (Z.of_nat (j / 4) ∈ pre /\ Z.of_nat (j / 4) < N)
                            then g (Z.of_nat (j / 4)) !! (j mod 4)%nat
                            else s0 !! j)
              (threads (fullBlocks N)) s0) as (s' & Hrun & Hl & Hs').
  - split; [reflexivity|]. intros j.
    destruct (decide _) as [[Hin _]|_]; [inversion Hin|reflexivity].
  - intros pre a post s Hsplit (Hl & Hs).
    assert (Ha : 0 <= a).
    { apply (threads_nonneg (fullBlocks N)). rewrite Hsplit.
      apply elem_of_app. right. apply elem_of_cons. left. reflexivity. }
    destruct (Z_lt_le_dec a N) as [HaN|HaN].
    + destruct (Hthread a s ltac:(lia) Hl) as (s' & E & Hl' & Hs').
      exists s'. split; [exact E|]. split; [congruence|].
      intros j. rewrite Hs'. destruct (decide (Z.of_nat (j / 4) = a)) as [Ej|Ej].
      * rewrite decide_True; [rewrite Ej; reflexivity|].
        split; [|lia]. apply elem_of_app. right. apply elem_of_cons. left. exact Ej.
      * rewrite Hs. apply decide_ext. rewrite elem_of_app, elem_of_cons, elem_of_nil.
        intuition congruence.
    + exists s. split; [apply Hidle; exact HaN|]. split; [exact Hl|].
      intros j. rewrite Hs. apply decide_ext.
      rewrite elem_of_app, elem_of_cons, elem_of_nil. intuition lia.
  - rewrite Hrun. f_equal. apply list_eq. intros j. rewrite Hs'.
    assert (Hbl : length (zrange 0 N ≫= g) = Z.to_nat (4 * N)).
    { clear -HN Hg. unfold zrange. rewrite Z.sub_0_r.
      replace (4 * N) with (4 * Z.of_nat (Z.to_nat N)) by lia.
      generalize (Z.to_nat N) as n. intros n.
      generalize 0%nat as k. induction n as [|n IH]; intros k; [reflexivity|].
      cbn [seq map mbind list_bind]. rewrite length_app, Hg.
      change (list_bind _ _ g ?l) with (l ≫= g). rewrite IH. lia. }
    pose proof (Nat.div_mod_eq j 4) as Hdm.
    pose proof (Nat.mod_upper_bound j 4 ltac:(lia)) as Hmod.
    destruct (decide (Z.of_nat j < 4 * N)) as [Hj|Hj].
    + rewrite lookup_app_l by lia.
      rewrite decide_True.
      2:{ split; [apply elem_of_threads; lia|lia]. }
      rewrite (lookup_bind_blocks g _ j Hg).
      rewrite lookup_zrange by lia. cbn [mbind option_bind].
      rewrite Z.add_0_l. reflexivity.
    + rewrite lookup_app_r by lia. rewrite Hbl, lookup_drop.
      rewrite decide_False by lia. f_equal. lia.
Qed.

Lemma lookup_insert4 {B : Type} (s : list B) (b : nat) (x y z w : B) (j : nat) :
  (b + 3 < length s)%nat ->
  <[(b + 3)%nat := w]> (<[(b + 2)%nat := z]> (<[(b + 1)%nat := y]> (<[b := x]> s))) !! j
  = if decide (b <= j < b + 4)%nat then [x; y; z; w] !! (j - b)%nat else s !! j.
Proof.
  intros Hb. destruct (decide (b <= j < b + 4)%nat) as [Hj|Hj].
  - assert (Hc : (j = b \/ j = b + 1 \/ j = b + 2 \/ j = b + 3)%nat) by lia.
    destruct Hc as [->|[->|[->| ->]]].
    + rewrite !list_lookup_insert_ne by lia.
      rewrite list_lookup_insert_eq by lia. rewrite Nat.sub_diag. reflexivity.
    + rewrite !(list_lookup_insert_ne _ (b + 3)), !(list_lookup_insert_ne _ (b + 2))
        by lia.
      rewrite list_lookup_insert_eq by (rewrite !length_insert; lia).
      replace (b + 1 - b)%nat with 1%nat by lia. reflexivity.
    + rewrite !(list_lookup_insert_ne _ (b + 3)) by lia.
      rewrite list_lookup_insert_eq by (rewrite !length_insert; lia).
      replace (b + 2 - b)%nat with 2%nat by lia. reflexivity.
    + rewrite list_lookup_insert_eq by (rewrite !length_insert; lia).
      replace (b + 3 - b)%nat with 3%nat by lia. reflexivity.
  - rewrite !list_lookup_insert_ne by lia. reflexivity.
Qed.

Lemma block_slot (i : Z) (j : nat) :
  0 <= i ->
  (Z.of_nat (j / 4) = i <-> (4 * Z.to_nat i <= j < 4 * Z.to_nat i + 4)%nat) /\
  (Z.of_nat (j / 4) = i -> (j - 4 * Z.to_nat i = j mod 4)%nat).
Proof.
  intros Hi. pose proof (Nat.div_mod_eq j 4) as Hdm.
  pose proof (Nat.mod_upper_bound j 4 ltac:(lia)) as Hmod.
  split; [split|]; intros Hj; lia.
Qed.

Section CopyToVBOLaunch.

Context {F : Type} `{Scalar F}.

Lemma kernCopyPositionsToVBO_thread (N : Z) (pos : list (vec3 F)) (s_scale : F)
    (i : Z) (s : list F) :
  0 <= i < N -> Z.of_nat (length pos) = N -> 4 * N <= Z.of_nat (length s) ->
  exists s', kernCopyPositionsToVBO N pos s_scale i s = Done s' /\
    length s' = length s /\
    forall j : nat,
      s' !! j = if decide (Z.of_nat (j / 4) = i)
                then positionVertex s_scale (pos !!! Z.to_nat i) !! (j mod 4)%nat
                else s !! j.
Proof.
  intros Hi Hp Hs. unfold kernCopyPositionsToVBO.
  destruct (Z.ltb_spec i N); [|lia].
  assert (Hr : aread pos i = Done (pos !!! Z.to_nat i)).
  { apply aread_lookup; [lia|]. apply list_lookup_lookup_total_lt. lia. }
  rewrite Hr, !obind_ret.
  rewrite awrite_ok by lia. rewrite !obind_ret.
  rewrite awrite_ok by (rewrite ?length_insert; lia). rewrite !obind_ret.
  rewrite awrite_ok by (rewrite ?length_insert; lia). rewrite !obind_ret.
  rewrite awrite_ok by (rewrite ?length_insert; lia).
  eexists. split; [reflexivity|]. split; [rewrite !length_insert; reflexivity|].
  intros j.
  replace (Z.to_nat (4 * i + 0)) with (4 * Z.to_nat i)%nat by lia.
  replace (Z.to_nat (4 * i + 1)) with (4 * Z.to_nat i + 1)%nat by lia.
  replace (Z.to_nat (4 * i + 2)) with (4 * Z.to_nat i + 2)%nat by lia.
  replace (Z.to_nat (4 * i + 3)) with (4 * Z.to_nat i + 3)%nat by lia.
  rewrite lookup_insert4 by lia.
  destruct (block_slot i j ltac:(lia)) as [Hiff Hsub].
  destruct (decide (Z.of_nat (j / 4) = i)) as [Ej|Ej].
  - rewrite decide_True by (apply Hiff; exact Ej). rewrite (Hsub Ej). reflexivity.
  - rewrite decide_False by (rewrite <- Hiff; exact Ej). reflexivity.
Qed.

Lemma kernCopyVelocitiesToVBO_thread (N : Z) (vel : list (vec3 F)) (s_scale : F)
    (i : Z) (s : list F) :
  0 <= i < N -> Z.of_nat (length vel) = N -> 4 * N <= Z.of_nat (length s) ->
  exists s', kernCopyVelocitiesToVBO N vel s_scale i s = Done s' /\
    length s' = length s /\
    forall j : nat,
      s' !! j = if decide (Z.of_nat (j / 4) = i)
                then velocityVertex (vel !!! Z.to_nat i) !! (j mod 4)%nat
                else s !! j.
Proof.
  intros Hi Hp Hs. unfold kernCopyVelocitiesToVBO.
  destruct (Z.ltb_spec i N); [|lia].
  assert (Hr : aread vel i = Done (vel !!! Z.to_nat i)).
  { apply aread_lookup; [lia|]. apply list_lookup_lookup_total_lt. lia. }
  rewrite Hr, !obind_ret.
  rewrite awrite_ok by lia. rewrite !obind_ret.
  rewrite awrite_ok by (rewrite ?length_insert; lia). rewrite !obind_ret.
  rewrite awrite_ok by (rewrite ?length_insert; lia). rewrite !obind_ret.
  rewrite awrite_ok by (rewrite ?length_insert; lia).
  eexists. split; [reflexivity|]. split; [rewrite !length_insert; reflexivity|].
  intros j.
  replace (Z.to_nat (4 * i + 0)) with (4 * Z.to_nat i)%nat by lia.
  replace (Z.to_nat (4 * i + 1)) with (4 * Z.to_nat i + 1)%nat by lia.
  replace (Z.to_nat (4 * i + 2)) with (4 * Z.to_nat i + 2)%nat by lia.
  replace (Z.to_nat (4 * i + 3)) with (4 * Z.to_nat i + 3)%nat by lia.
  rewrite lookup_insert4 by lia.
  destruct (block_slot i j ltac:(lia)) as [Hiff Hsub].
  destruct (decide (Z.of_nat (j / 4) = i)) as [Ej|Ej].
  - rewrite decide_True by (apply Hiff; exact Ej). rewrite (Hsub Ej). reflexivity.
  - rewrite decide_False by (rewrite <- Hiff; exact Ej). reflexivity.
Qed.

Lemma bind_concat {A B : Type} (g : A -> list B) (l : list A) :
  l ≫= g = concat (g <$> l).
Proof.
  induction l as [|a l IH]; [reflexivity|].
  cbn [mbind list_bind fmap list_fmap concat]. f_equal. exact IH.
Qed.

Lemma bind_total_lookup {B : Type} (l : list (vec3 F)) (g : vec3 F -> list B) :
  (zrange 0 (Z.of_nat (length l)) ≫= fun i => g (l !!! Z.to_nat i)) = l ≫= g.
Proof.
  rewrite !bind_concat. f_equal.
  apply (fmap_zrange_lookup g l (fun i => g (l !!! Z.to_nat i))).
  intros j x Hj. rewrite Nat2Z.id. f_equal.
  apply list_lookup_total_correct. exact Hj.
Qed.

Lemma kernCopyPositionsToVBO_launch (N : Z) (pos : list (vec3 F)) (s_scale : F)
    (vbo : list F) :
  Z.of_nat (length pos) = N -> 4 * N <= Z.of_nat (length vbo) ->
  launch (fullBlocks N) (kernCopyPositionsToVBO N pos s_scale) vbo
  = Done ((pos ≫= positionVertex s_scale) ++ drop (Z.to_nat (4 * N)) vbo).
Proof.
  intros Hp Hv. rewrite <- (bind_total_lookup pos (positionVertex s_scale)), Hp.
  apply (launch_blocks N _ (fun i => positionVertex s_scale (pos !!! Z.to_nat i)));
    [lia|exact Hv|reflexivity| |].
  - intros i s Hi. unfold kernCopyPositionsToVBO.
    destruct (Z.ltb_spec i N); [lia|reflexivity].
  - intros i s Hi Hl. apply kernCopyPositionsToVBO_thread; [exact Hi|exact Hp|].
    rewrite Hl. exact Hv.
Qed.

Lemma kernCopyVelocitiesToVBO_launch (N : Z) (vel : list (vec3 F)) (s_scale : F)
    (vbo : list F) :
  Z.of_nat (length vel) = N -> 4 * N <= Z.of_nat (length vbo) ->
  launch (fullBlocks N) (kernCopyVelocitiesToVBO N vel s_scale) vbo
  = Done ((vel ≫= velocityVertex) ++ drop (Z.to_nat (4 * N)) vbo).
Proof.
  intros Hp Hv. rewrite <- (bind_total_lookup vel velocityVertex), Hp.
  apply (launch_blocks N _ (fun i => velocityVertex (vel !!! Z.to_nat i)));
    [lia|exact Hv|reflexivity| |].
  - intros i s Hi. unfold kernCopyVelocitiesToVBO.
    destruct (Z.ltb_spec i N); [lia|reflexivity].
  - intros i s Hi Hl. apply kernCopyVelocitiesToVBO_thread; [exact Hi|exact Hp|].
    rewrite Hl. exact Hv.
Qed.

End CopyToVBOLaunch.

(** X23: [copyBoidsToVBO] writes four floats for each boid at the front
    of each vertex buffer and leaves the rest of the buffers as they
    were: [(-x/s, -y/s, -z/s, 1)] computed as [x * (-1 / scene_scale)]
    for the positions, [(vx + 0.3, vy + 0.3, vz + 0.3, 1)] for the
    velocities; it prints nothing.  When an error is pending in the
    runtime it exits instead, reporting that error at line 250. *)
Theorem copyBoidsToVBO_fills_vertex_buffers {F : Type} `{Scalar F} (s : sim F)
    (vbodptr_positions vbodptr_velocities : list F) (rt : runtime) :
  Z.of_nat (length (dev_pos s)) = numObjects s ->
  Z.of_nat (length (dev_vel1 s)) = numObjects s ->
  4 * numObjects s <= Z.of_nat (length vbodptr_positions) ->
  4 * numObjects s <= Z.of_nat (length vbodptr_velocities) ->
  (lastError rt = None ->
   copyBoidsToVBO s vbodptr_positions vbodptr_velocities rt
   = (rt,
      Returned
        (Done ((dev_pos s ≫= positionVertex scene_scale)
                 ++ drop (Z.to_nat (4 * numObjects s)) vbodptr_positions,
               (dev_vel1 s ≫= velocityVertex)
                 ++ drop (Z.to_nat (4 * numObjects s)) vbodptr_velocities)))) /\
  (forall err : string, lastError rt = Some err ->
   copyBoidsToVBO s vbodptr_positions vbodptr_velocities rt
   = (Runtime (live rt) None
        (stderr rt ++ [OutLine 250; OutCudaError "copyBoidsToVBO failed!" err]),
      Exited EXIT_FAILURE)).
Proof.
  intros Hp Hv Hvp Hvv. unfold copyBoidsToVBO, checkCUDAError.
  cbv [mbind host_bind]. split.
  - intros Herr. rewrite Herr. cbv [mret host_ret]. f_equal. f_equal.
    rewrite kernCopyPositionsToVBO_launch by assumption.
    rewrite kernCopyVelocitiesToVBO_launch by assumption.
    reflexivity.
  - intros err Herr. rewrite Herr. reflexivity.
Qed.

Lemma copyBoidsToVBO_fills_vertex_buffers_witness :
  let f := Binary32.of_Z in
  let s := Sim 1 [Vec3 (f 100) (f 0) (f (-50))] [Vec3 (f 1) (f 0) (f 0)] []
             [] [] [] [] [] [] 0 0 (f 0) (f 0) (Vec3 (f 0) (f 0) (f 0)) in
  let vp := replicate 6 (f 7) in
  let vv := replicate 4 (f 7) in
  let rt := Runtime [] None [] in
  (lastError rt = None ->
   copyBoidsToVBO s vp vv rt
   = (rt,
      Returned
        (Done ((dev_pos s ≫= positionVertex scene_scale)
                 ++ drop (Z.to_nat (4 * numObjects s)) vp,
               (dev_vel1 s ≫= velocityVertex)
                 ++ drop (Z.to_nat (4 * numObjects s)) vv)))) /\
  (forall err : string, lastError rt = Some err ->
   copyBoidsToVBO s vp vv rt
   = (Runtime (live rt) None
        (stderr rt ++ [OutLine 250; OutCudaError "copyBoidsToVBO failed!" err]),
      Exited EXIT_FAILURE)).
Proof.
  intros f s vp vv rt.
  apply (copyBoidsToVBO_fills_vertex_buffers s vp vv rt).
  - reflexivity.
  - reflexivity.
  - cbn. lia.
  - cbn. lia.
Defined.

(** X24: in exact arithmetic, [kernCopyPositionsToVBO] with
    [s_scale = scene_scale] maps the world onto the cube [[-1, 1]^3],
    mirrored through the origin: boids within the world bounds get
    vertices [(-x/100, -y/100, -z/100, 1)] whose four floats all lie in
    [[-1, 1]]; the buffer beyond the first [4 N] floats is untouched. *)
Theorem vertex_positions_in_unit_cube (N : Z) (pos : list (vec3 R)) (vbo : list R) :
  Z.of_nat (length pos) = N -> 4 * N <= Z.of_nat (length vbo) ->
  Forall in_world pos ->
  exists vbo' : list R,
    launch (fullBlocks N) (kernCopyPositionsToVBO N pos scene_scale) vbo = Done vbo' /\
    take (Z.to_nat (4 * N)) vbo'
      = (pos ≫= fun p => [(- vx p / 100)%R; (- vy p / 100)%R; (- vz p / 100)%R; 1%R]) /\
    Forall (fun c => (-1 <= c <= 1)%R) (take (Z.to_nat (4 * N)) vbo') /\
    drop (Z.to_nat (4 * N)) vbo' = drop (Z.to_nat (4 * N)) vbo.
Proof.
  intros Hp Hv Hw. rewrite kernCopyPositionsToVBO_launch by assumption.
  eexists. split; [reflexivity|].
  assert (Eb : pos ≫= positionVertex scene_scale
               = pos ≫= fun p => [(- vx p / 100)%R; (- vy p / 100)%R;
                                   (- vz p / 100)%R; 1%R]).
  { rewrite !bind_concat. f_equal. apply list_fmap_ext. intros _ p _.
    unfold positionVertex, scene_scale.
    cbn [fmul fdiv fopp fof_Z Exact.scalar].
    repeat (apply (f_equal2 cons); [lra|]). reflexivity. }
  assert (El : length (pos ≫= positionVertex scene_scale) = Z.to_nat (4 * N)).
  { rewrite bind_concat. clear -Hp. subst N.
    induction pos as [|p pos IH]; [reflexivity|].
    cbn [fmap list_fmap concat length]. rewrite length_app, IH.
    cbn [positionVertex length]. lia. }
  rewrite (take_app_length' _ _ _ (eq_sym El)).
  rewrite (drop_app_length' _ _ _ (eq_sym El)).
  split; [exact Eb|]. split; [|reflexivity].
  rewrite Eb. apply Forall_forall. intros c Hc.
  apply list_elem_of_bind in Hc as (p & Hc & Hin).
  rewrite Forall_forall in Hw. destruct (Hw p Hin) as (Hx & Hy & Hz).
  rewrite ?elem_of_cons, elem_of_nil in Hc.
  destruct Hc as [->|[->|[->|[->|[]]]]]; lra.
Qed.

Lemma vertex_positions_in_unit_cube_witness :
  exists vbo' : list R,
    launch (fullBlocks 1)
      (kernCopyPositionsToVBO 1 [Vec3 100%R 0%R (-50)%R] scene_scale)
      [7%R; 7%R; 7%R; 7%R; 7%R] = Done vbo' /\
    take (Z.to_nat (4 * 1)) vbo'
      = ([Vec3 100%R 0%R (-50)%R]
           ≫= fun p => [(- vx p / 100)%R; (- vy p / 100)%R; (- vz p / 100)%R; 1%R]) /\
    Forall (fun c => (-1 <= c <= 1)%R) (take (Z.to_nat (4 * 1)) vbo') /\
    drop (Z.to_nat (4 * 1)) vbo' = drop (Z.to_nat (4 * 1)) [7%R; 7%R; 7%R; 7%R; 7%R].
Proof.
  apply (vertex_positions_in_unit_cube 1 [Vec3 100%R 0%R (-50)%R]
           [7%R; 7%R; 7%R; 7%R; 7%R]).
  - reflexivity.
  - cbn. lia.
  - repeat constructor; cbn [vx vy vz]; lra.
Defined.

(** ** The grid after a second initialisation *)

(** The cell that [getGridIndex] gives a boid within the world bounds
    when the grid minimum is at -220, as after a second
    initialisation. *)
Lemma getGridIndex_shifted (p : vec3 R) :
  in_world p ->
  exists c : vec3 Z,
    getGridIndex p (1 / 10)%R ((Vec3 (-220) (-220) (-220))%R) = Done c /\
    12 <= vx c /\ 12 <= vy c /\ 12 <= vz c /\
    ((0 <= vz p)%R -> 22 <= vz c).
Proof.
  intros (Hx & Hy & Hz).
  eexists. split.
  - apply getGridIndex_exact;
      unfold vscale, vsub, vzip, vmap; cbn [vx vy vz fmul fsub Exact.scalar]; lra.
  - unfold vscale, vsub, vzip, vmap. cbn [vx vy vz fmul fsub Exact.scalar].
    assert (Hlow : forall c : R, (-100 <= c <= 100)%R ->
              12 <= Int_part ((c - -220) * (1 / 10))%R).
    { intros c Hc.
      pose proof (Int_part_range 12 33 ((c - -220) * (1 / 10))%R ltac:(lra)). lia. }
    repeat split; try (apply Hlow; assumption).
    intros Hz0.
    pose proof (Int_part_range 22 33 ((vz p - -220) * (1 / 10))%R ltac:(lra)). lia.
Qed.

Lemma kernComputeIndices_shifted_asserts (N : Z) (pos : list (vec3 R))
    (indices gridIndices : list Z) :
  Z.of_nat (length pos) = N ->
  Z.of_nat (length indices) = N -> Z.of_nat (length gridIndices) = N ->
  Forall in_world pos ->
  Exists (fun p => (0 <= vz p)%R) pos ->
  launch (fullBlocks N)
    (kernComputeIndices N 22 ((Vec3 (-220) (-220) (-220))%R) (1 / 10)%R pos)
    (indices, gridIndices)
  = Fault AssertionFailed.
Proof.
  intros Hp Hi Hg Hw Hex.
  apply Exists_exists in Hex as (p0 & Hin0 & Hz0).
  apply list_elem_of_lookup in Hin0 as [i0 Hi0].
  pose proof (lookup_lt_Some _ _ _ Hi0) as Hlt0.
  rewrite Forall_lookup in Hw.
  assert (Hthread : forall (a : Z) (t : list Z * list Z),
            0 <= a < N ->
            Z.of_nat (length t.1) = N /\ Z.of_nat (length t.2) = N ->
            exists c : vec3 Z,
              getGridIndex (pos !!! Z.to_nat a) (1 / 10)%R
                ((Vec3 (-220) (-220) (-220))%R) = Done c /\
              kernComputeIndices N 22 ((Vec3 (-220) (-220) (-220))%R) (1 / 10)%R
                pos a t
              = (_ ← assert ((cellId 22 c >=? 0) && (cellId 22 c <? 22 * 22 * 22));
                 mret (<[Z.to_nat a := a]> t.1,
                       <[Z.to_nat a := cellId 22 c]> t.2))).
  { intros a [ix gx] Ha [Hix Hgx]. cbn [fst snd] in *.
    assert (Hpa : pos !! Z.to_nat a = Some (pos !!! Z.to_nat a))
      by (apply list_lookup_lookup_total_lt; lia).
    destruct (getGridIndex_shifted _ (Hw _ _ Hpa)) as (c & Ec & _).
    exists c. split; [exact Ec|].
    unfold kernComputeIndices.
    destruct (Z.geb_spec a N); [lia|].
    rewrite (aread_lookup pos a _ ltac:(lia) Hpa), obind_ret.
    rewrite Ec, obind_ret.
    rewrite (awrite_ok ix a a), obind_ret by lia.
    rewrite (awrite_ok gx a), obind_ret by lia.
    rewrite (aread_lookup _ a (cellId 22 c)); [|lia|].
    2:{ apply list_lookup_insert_eq. lia. }
    rewrite obind_ret. reflexivity. }
  unfold launch, launch_sched.
  apply (ofold_fault _
           (fun t : list Z * list Z =>
              Z.of_nat (length t.1) = N /\ Z.of_nat (length t.2) = N)
           AssertionFailed (Z.of_nat i0)).
  - cbn [fst snd]. auto.
  - apply elem_of_threads; lia.
  - intros a t Ha Ht. apply threads_nonneg in Ha.
    destruct (Z_lt_le_dec a N) as [HaN|HaN].
    + destruct (Hthread a t ltac:(lia) Ht) as (c & _ & E). rewrite E.
      destruct ((cellId 22 c >=? 0) && (cellId 22 c <? 22 * 22 * 22)).
      * right. eexists. split; [reflexivity|]. cbn [fst snd].
        rewrite !length_insert. exact Ht.
      * left. reflexivity.
    + right. exists t. split; [|exact Ht].
      unfold kernComputeIndices. destruct t as [ix gx].
      destruct (Z.geb_spec a N); [reflexivity|lia].
  - intros t Ht.
    destruct (Hthread (Z.of_nat i0) t ltac:(lia) Ht) as (c & Ec & E). rewrite E.
    rewrite Nat2Z.id, (list_lookup_total_correct _ _ _ Hi0) in Ec.
    destruct (getGridIndex_shifted p0 (Hw _ _ Hi0)) as (c' & Ec' & Hx & Hy & Hz & Hzz).
    rewrite Ec in Ec'. inversion Ec'. subst c'.
    specialize (Hzz Hz0).
    assert (Hbig : (cellId 22 c <? 22 * 22 * 22) = false).
    { apply Z.ltb_ge. unfold cellId, gridIndex3Dto1D. lia. }
    rewrite Hbig, andb_false_r. reflexivity.
Qed.

(** X25: in exact arithmetic, a second [initSimulation] (which moves the
    grid minimum to -220) leaves a state on which both grid steps stop
    at the assertion of [kernComputeIndices] as soon as one boid has
    [z >= 0], whichever neighbor search is compiled in: its cell lies
    beyond the grid and its cell id is at least [gridCellCount].  The
    brute-force step, which does not use the grid, still runs. *)
Theorem second_init_breaks_grid_steps (ok ok' : nat -> bool)
    (generateRandomVec3 : Z -> Z -> vec3 R)
    (junkV : Z -> vec3 R) (junkI : Z -> Z) (N N' : Z) (s : sim R) (rt : runtime)
    (impl8 : bool) (sort_by_key : list Z -> list Z -> list Z * list Z) (dt : R) :
  (forall k : nat, (k < 9)%nat -> ok k = true) ->
  (forall k : nat, (k < 9)%nat -> ok' k = true) ->
  lastError rt = None -> 0 <= N -> 0 <= N' < 2 ^ 31 ->
  gridMinimum s = (Vec3 0 0 0)%R ->
  (forall i : Z, 0 <= i < N' ->
     (-1 <= vx (generateRandomVec3 1%Z i) <= 1)%R /\
     (-1 <= vy (generateRandomVec3 1%Z i) <= 1)%R /\
     (-1 <= vz (generateRandomVec3 1%Z i) <= 1)%R) ->
  (exists i : Z, 0 <= i < N' /\ (0 <= vz (generateRandomVec3 1%Z i))%R) ->
  exists (rt1 : runtime) (s1 : sim R) (rt2 : runtime) (s2 : sim R),
    initSimulation ok generateRandomVec3 junkV junkI N s rt = (rt1, Returned s1) /\
    initSimulation ok' generateRandomVec3 junkV junkI N' s1 rt1 = (rt2, Returned s2) /\
    gridMinimum s2 = (Vec3 (-220) (-220) (-220))%R /\
    stepSimulationScatteredGrid impl8 sort_by_key dt s2 = Fault AssertionFailed /\
    stepSimulationCoherentGrid impl8 sort_by_key dt s2 = Fault AssertionFailed /\
    exists sN : sim R, stepSimulationNaive dt s2 = Done sN.
Proof.
  intros Hok Hok' Herr HN HN' Hmin Hgen (i0 & Hi0 & Hz0).
  eexists _, _, _, _.
  split; [apply initSimulation_state; assumption|].
  split; [apply initSimulation_state; (assumption || reflexivity || lia)|].
  set (pos := (fun i => vmap (fun c => fmul scene_scale c) (generateRandomVec3 1 i))
                <$> zrange 0 N').
  assert (Hpl : Z.of_nat (length pos) = N').
  { unfold pos. rewrite length_fmap, length_zrange. lia. }
  assert (Hw : Forall in_world pos).
  { apply Forall_fmap, Forall_forall. intros i Hi. apply elem_of_zrange in Hi.
    destruct (Hgen i Hi) as (Hx & Hy & Hz).
    unfold compose, in_world, vmap, scene_scale.
    cbn [vx vy vz fmul fof_Z Exact.scalar]. lra. }
  assert (Hex : Exists (fun p => (0 <= vz p)%R) pos).
  { apply Exists_exists.
    exists (vmap (fun c => fmul scene_scale c) (generateRandomVec3 1 i0)). split.
    - unfold pos. apply list_elem_of_fmap. exists i0. split; [reflexivity|].
      apply elem_of_zrange. lia.
    - unfold vmap, scene_scale. cbn [vx vy vz fmul fof_Z Exact.scalar]. lra. }
  destruct (initGrid_exact s) as (_ & _ & _ & _ & Hg1).
  match goal with
  | |- gridMinimum ?s2 = _ /\ _ =>
      assert (Hg2 : gridMinimum s2 = (Vec3 (-220) (-220) (-220))%R)
  end.
  { cbn [gridMinimum].
    match goal with |- gridMinimum (initGrid ?s1) = _ =>
      destruct (initGrid_exact s1) as (_ & _ & _ & _ & ->) end.
    cbn [gridMinimum]. rewrite Hg1, Hmin. unfold vmap. cbn [vx vy vz].
    f_equal; lra. }
  split; [exact Hg2|].
  match goal with
  | |- stepSimulationScatteredGrid _ _ _ ?s2 = _ /\ _ => set (S2 := s2) in *
  end.
  assert (HN2 : numObjects S2 = N') by reflexivity.
  assert (Hpos2 : dev_pos S2 = pos) by reflexivity.
  assert (Hsc2 : gridSideCount S2 = 22 /\ gridInverseCellWidth S2 = (1 / 10)%R).
  { unfold S2. cbn [gridSideCount gridInverseCellWidth].
    match goal with |- context [initGrid ?s1] =>
      destruct (initGrid_exact s1) as (_ & -> & _ & -> & _) end.
    split; reflexivity. }
  destruct Hsc2 as [Hsc2 Hicw2].
  assert (Hl2 : Z.of_nat (length (dev_particleArrayIndices S2)) = N' /\
                Z.of_nat (length (dev_particleGridIndices S2)) = N' /\
                Z.of_nat (length (dev_vel1 S2)) = N' /\
                Z.of_nat (length (dev_vel2 S2)) = N').
  { unfold S2. cbn [dev_particleArrayIndices dev_particleGridIndices dev_vel1 dev_vel2].
    rewrite !length_fresh. lia. }
  destruct Hl2 as (Hpai2 & Hpgi2 & Hv12 & Hv22).
  clearbody S2.
  assert (Hrg : rebuildGrid sort_by_key S2 = Fault AssertionFailed).
  { unfold rebuildGrid. rewrite HN2, Hsc2, Hg2, Hicw2, Hpos2.
    rewrite (kernComputeIndices_shifted_asserts N' pos) by assumption.
    reflexivity. }
  split; [unfold stepSimulationScatteredGrid; rewrite Hrg; reflexivity|].
  split; [unfold stepSimulationCoherentGrid; rewrite Hrg; reflexivity|].
  unfold stepSimulationNaive. rewrite HN2, Hpos2.
  rewrite kernUpdateVelocityBruteForce_launch by (first [assumption | lia]).
  rewrite obind_ret.
  rewrite kernUpdatePos_launch;
    [|assumption|rewrite length_fmap, length_zrange; lia].
  rewrite obind_ret. eexists. reflexivity.
Qed.

Lemma second_init_breaks_grid_steps_witness :
  let gen (time index : Z) : vec3 R := Vec3 1%R 0%R (1 / 2)%R in
  let junkV (i : Z) : vec3 R := (Vec3 0 0 0)%R in
  let s0 : sim R := Sim 0 [] [] [] [] [] [] [] [] [] 0 0 0%R 0%R ((Vec3 0 0 0)%R) in
  let rt := Runtime [] None [] in
  exists (rt1 : runtime) (s1 : sim R) (rt2 : runtime) (s2 : sim R),
    initSimulation (fun _ => true) gen junkV (fun _ => 0) 3 s0 rt = (rt1, Returned s1) /\
    initSimulation (fun _ => true) gen junkV (fun _ => 0) 2 s1 rt1 = (rt2, Returned s2) /\
    gridMinimum s2 = (Vec3 (-220) (-220) (-220))%R /\
    stepSimulationScatteredGrid false insertion_sort_by_key 1%R s2
      = Fault AssertionFailed /\
    stepSimulationCoherentGrid false insertion_sort_by_key 1%R s2
      = Fault AssertionFailed /\
    exists sN : sim R, stepSimulationNaive 1%R s2 = Done sN.
Proof.
  intros gen junkV s0 rt.
  apply (second_init_breaks_grid_steps (fun _ => true) (fun _ => true) gen junkV
           (fun _ => 0) 3 2 s0 rt false insertion_sort_by_key 1%R).
  - reflexivity.
  - reflexivity.
  - reflexivity.
  - lia.
  - lia.
  - reflexivity.
  - intros i Hi. unfold gen. cbn [vx vy vz]. lra.
  - exists 0. split; [lia|]. unfold gen. cbn [vx vy vz]. lra.
Defined.

(** ** Launch configuration and the coherent layout *)



(** X27: whatever the order of the threads, [kernFillCoherentArrays]
    gathers: slot [i] of the coherent buffers receives the position and
    the velocity of boid [particleArrayIndices[i]].  The indices need
    only be within the source arrays; they need not be a
    permutation. *)
Theorem fill_coherent_gathers {V : Type} (N : Z)
    (particleArrayIndices sched : list Z) (pos vel coherentPos coherentVel : list V) :
  Z.of_nat (length particleArrayIndices) = N ->
  Forall (fun k => 0 <= k < Z.of_nat (length pos)) particleArrayIndices ->
  length vel = length pos ->
  Z.of_nat (length coherentPos) = N -> Z.of_nat (length coherentVel) = N ->
  sched ≡ₚ threads (fullBlocks N) ->
  exists cpos cvel : list V,
    launch_sched sched (kernFillCoherentArrays N particleArrayIndices pos vel)
      (coherentPos, coherentVel) = Done (cpos, cvel) /\
    Z.of_nat (length cpos) = N /\ Z.of_nat (length cvel) = N /\
    forall (i : nat) (k : Z), particleArrayIndices !! i = Some k ->
      cpos !! i = pos !! Z.to_nat k /\ cvel !! i = vel !! Z.to_nat k.
Proof.
  intros Hidx Hr Hv Hc1 Hc2 Hs. subst N.
  assert (Hrv : Forall (fun k => 0 <= k < Z.of_nat (length vel)) particleArrayIndices)
    by (rewrite Hv; exact Hr).
  rewrite (fillCoherent_sched particleArrayIndices sched pos vel coherentPos
             coherentVel Hr Hv ltac:(lia) ltac:(lia) Hs).
  eexists _, _. split; [reflexivity|].
  rewrite (length_gather _ pos Hr), (length_gather _ vel Hrv).
  split; [reflexivity|]. split; [reflexivity|].
  intros i k Hi. split; apply lookup_gather; assumption.
Qed.

Lemma fill_coherent_gathers_witness :
  exists cpos cvel : list Z,
    launch_sched (reverse (threads (fullBlocks 3)))
      (kernFillCoherentArrays 3 [2; 2; 0] [10; 11; 12; 13] [20; 21; 22; 23])
      ([0; 0; 0], [0; 0; 0]) = Done (cpos, cvel) /\
    Z.of_nat (length cpos) = 3 /\ Z.of_nat (length cvel) = 3 /\
    forall (i : nat) (k : Z), [2; 2; 0] !! i = Some k ->
      cpos !! i = [10; 11; 12; 13] !! Z.to_nat k /\
      cvel !! i = [20; 21; 22; 23] !! Z.to_nat k.
Proof.
  apply (fill_coherent_gathers 3 [2; 2; 0] (reverse (threads (fullBlocks 3)))
           [10; 11; 12; 13] [20; 21; 22; 23] [0; 0; 0] [0; 0; 0]).
  - reflexivity.
  - repeat constructor; cbn; lia.
  - reflexivity.
  - reflexivity.
  - reflexivity.
  - exact (reverse_Permutation (threads (fullBlocks 3))).
Defined.

(** X28: the round trip in the other direction: for a permutation in
    [particleArrayIndices], scattering the coherent buffers with
    [kernFillOriginalArrays] and gathering them again with
    [kernFillCoherentArrays] gives back the coherent buffers, whatever
    the buffers held before and whatever the order of the threads. *)
Theorem scatter_then_gather {V : Type} (N : Z)
    (particleArrayIndices s1 s2 : list Z)
    (coherentPos coherentVel pos0 vel0 c1 c2 : list V) :
  is_permutation N particleArrayIndices -> 0 <= N ->
  Z.of_nat (length coherentPos) = N -> Z.of_nat (length coherentVel) = N ->
  Z.of_nat (length pos0) = N -> Z.of_nat (length vel0) = N ->
  Z.of_nat (length c1) = N -> Z.of_nat (length c2) = N ->
  s1 ≡ₚ threads (fullBlocks N) -> s2 ≡ₚ threads (fullBlocks N) ->
  (launch_sched s1
     (kernFillOriginalArrays N particleArrayIndices coherentPos coherentVel)
     (pos0, vel0) ≫= fun original =>
   launch_sched s2
     (kernFillCoherentArrays N particleArrayIndices original.1 original.2)
     (c1, c2))
  = Done (coherentPos, coherentVel).
Proof.
  intros Hperm HN Hcp Hcv Hp0 Hv0 Hc1 Hc2 Hs1 Hs2.
  pose proof (is_permutation_length N _ Hperm) as Hlen.
  assert (EN : N = Z.of_nat (length particleArrayIndices)) by lia.
  rewrite EN in Hperm, Hs1, Hs2 |- *.
  destruct (fillOriginal_sched particleArrayIndices Hperm s1 coherentPos coherentVel
              pos0 vel0 ltac:(lia) ltac:(lia) ltac:(lia) ltac:(lia) Hs1)
    as (p & v & E & Hp & Hv & Hlk).
  rewrite E, obind_ret. cbn [fst snd].
  pose proof (is_permutation_range _ _ Hperm) as Hr.
  assert (Hrp : Forall (fun k => 0 <= k < Z.of_nat (length p)) particleArrayIndices)
    by (rewrite Hp; exact Hr).
  assert (Hrv : Forall (fun k => 0 <= k < Z.of_nat (length v)) particleArrayIndices)
    by (rewrite Hv; exact Hr).
  rewrite (fillCoherent_sched particleArrayIndices s2 p v c1 c2 Hrp ltac:(lia)
             ltac:(lia) ltac:(lia) Hs2).
  f_equal. f_equal.
  - apply list_eq. intros i.
    destruct (particleArrayIndices !! i) as [k|] eqn:Ei.
    + rewrite (lookup_gather _ p i k Hrp Ei). exact (proj1 (Hlk i k Ei)).
    + apply lookup_ge_None in Ei.
      rewrite !lookup_ge_None_2; [reflexivity|lia|].
      rewrite (length_gather _ p Hrp). exact Ei.
  - apply list_eq. intros i.
    destruct (particleArrayIndices !! i) as [k|] eqn:Ei.
    + rewrite (lookup_gather _ v i k Hrv Ei). exact (proj2 (Hlk i k Ei)).
    + apply lookup_ge_None in Ei.
      rewrite !lookup_ge_None_2; [reflexivity|lia|].
      rewrite (length_gather _ v Hrv). exact Ei.
Qed.

Lemma scatter_then_gather_witness :
  (launch_sched (threads (fullBlocks 5))
     (kernFillOriginalArrays 5 [0; 4; 1; 3; 2] [10; 11; 12; 13; 14]
        [20; 21; 22; 23; 24])
     (replicate 5 0, replicate 5 0) ≫= fun original =>
   launch_sched (reverse (threads (fullBlocks 5)))
     (kernFillCoherentArrays 5 [0; 4; 1; 3; 2] original.1 original.2)
     (replicate 5 0, replicate 5 0))
  = Done ([10; 11; 12; 13; 14], [20; 21; 22; 23; 24]).
Proof.
  apply (scatter_then_gather 5 [0; 4; 1; 3; 2] (threads (fullBlocks 5))
           (reverse (threads (fullBlocks 5)))).
  - unfold is_permutation.
    apply (bool_decide_unpack _). vm_compute. reflexivity.
  - lia.
  - reflexivity.
  - reflexivity.
  - reflexivity.
  - reflexivity.
  - reflexivity.
  - reflexivity.
  - reflexivity.
  - exact (reverse_Permutation (threads (fullBlocks 5))).
Defined.
